(** * Study-room booking: the slot index and the submit handler

    A shallow embedding of [src/components/BookingForm.tsx] (the [slotStatus]
    memo, [toggleSlot] and [handleSubmit]), of [fetchBookings] of [App.tsx],
    of the constants of [types.ts] and of the demo persistence client of
    [services/supabaseClient], followed by the properties of the booking
    rules.

    The page is a state machine over the form, the [bookings] state of
    [App] and the table of the store.  The handler writes to the table and
    starts a read without waiting for it; the answer of a read is an event
    of its own, which may come late, fail, or not come at all.  Properties
    that need the page to know the rows of the table when the button is
    pressed say so as a hypothesis on the run.  One page writes to the
    table; other clients of the store are not part of the model.

    JavaScript strings are sequences of UTF-16 code units; they are modelled
    as [list N], one number per code unit, so that [trim], [split], [sort]
    and [===] are exactly the operations of the language.  The [Map] built
    by [slotStatus] is a [gmap] keyed by such strings.  Counters are [nat]
    (they only ever grow by one from zero), array indices are [Z] because
    [indexOf] answers [-1]. *)

From Stdlib Require Import ZArith NArith Lia Ascii String.
From stdpp Require Import base list sorting gmap.

Open Scope N_scope.

(** ** JavaScript primitives used by the component *)

Module Js.

(** A string literal of the source with ASCII characters only. *)
Definition lit (s : string) : list N :=
  List.map N_of_ascii (list_ascii_of_string s).

(** WhiteSpace and LineTerminator code points of ECMAScript, the characters
    removed by [String.prototype.trim]: TAB, LF, VT, FF, CR, SP, NBSP,
    U+1680, U+2000..U+200A, U+2028, U+2029, U+202F, U+205F, U+3000, BOM. *)
Definition isWhiteSpace (c : N) : bool :=
  List.existsb (N.eqb c)
    [9; 10; 11; 12; 13; 32; 160; 5760; 8232; 8233; 8239; 8287; 12288; 65279]
  || ((8192 <=? c) && (c <=? 8202)).

Fixpoint trimStart (s : list N) : list N :=
  match s with
  | [] => []
  | c :: s' => if isWhiteSpace c then trimStart s' else s
  end.

Definition trimEnd (s : list N) : list N := rev (trimStart (rev s)).

(** [s.trim()] *)
Definition trim (s : list N) : list N := trimEnd (trimStart s).

(** [s.split(sep)] for a one-character separator: never the empty array. *)
Fixpoint split (sep : N) (s : list N) : list (list N) :=
  match s with
  | [] => [[]]
  | c :: s' =>
      if c =? sep then [] :: split sep s'
      else match split sep s' with
           | p :: ps => (c :: p) :: ps
           | [] => [[c]]
           end
  end.

(** [a.join(sep)] *)
Fixpoint join (sep : list N) (a : list (list N)) : list N :=
  match a with
  | [] => []
  | x :: rest =>
      match rest with
      | [] => x
      | _ :: _ => x ++ sep ++ join sep rest
      end
  end.

(** [a < b] on strings: lexicographic on code units. *)
Fixpoint str_ltb (a b : list N) : bool :=
  match a, b with
  | _, [] => false
  | [], _ :: _ => true
  | x :: a', y :: b' =>
      if x <? y then true else if y <? x then false else str_ltb a' b'
  end.

(** [Array.prototype.sort] is stable; [leb x y] says that the comparator
    does not put [y] strictly before [x]. *)
Fixpoint sort_insert {A} (leb : A -> A -> bool) (x : A) (l : list A) : list A :=
  match l with
  | [] => [x]
  | y :: l' => if leb x y then x :: l else y :: sort_insert leb x l'
  end.

Fixpoint sort_by {A} (leb : A -> A -> bool) (l : list A) : list A :=
  match l with
  | [] => []
  | x :: l' => sort_insert leb x (sort_by leb l')
  end.

(** [a.sort()] on an array of strings: the default comparator. *)
Definition sort_default (a : list (list N)) : list (list N) :=
  sort_by (fun x y => negb (str_ltb y x)) a.

(** [a.sort((x, y) => x - y)] on an array of integers. *)
Definition sort_numeric (a : list Z) : list Z := sort_by Z.leb a.

(** [a.indexOf(x)]: the first index holding [x], or [-1]. *)
Fixpoint indexOf_from (a : list (list N)) (x : list N) (i : Z) : Z :=
  match a with
  | [] => (-1)%Z
  | y :: a' => if bool_decide (y = x) then i else indexOf_from a' x (i + 1)%Z
  end.

Definition indexOf (a : list (list N)) (x : list N) : Z := indexOf_from a x 0%Z.

(** [a.includes(x)] *)
Definition includes (a : list (list N)) (x : list N) : bool :=
  bool_decide (x ∈ a).

(** [new Set(a)] keeps the first occurrence of each element, in insertion
    order; [[...new Set(a)]] reads them back in that order. *)
Definition Set_add (s : list (list N)) (x : list N) : list (list N) :=
  if bool_decide (x ∈ s) then s else s ++ [x].

Definition new_Set (a : list (list N)) : list (list N) := foldl Set_add [] a.

End Js.

(** ** types.ts *)

Module Booking.
Record t := mk {
  id : Z;
  created_at : list N;
  date : list N;      (* YYYY-MM-DD *)
  slot : list N;      (* comma separated *)
  leader : list N;    (* holds the name of the booker *)
  members : list N    (* holds the role, "leader" or "member" *)
}.
End Booking.

Definition TIME_SLOTS : list (list N) :=
  [Js.lit "9:00-13:00"; Js.lit "14:00-18:00"; Js.lit "19:00-22:30"].

Definition MAX_CAPACITY : nat := 3.

Definition EXAM_END_DATE : list N := Js.lit "2026-01-12".

(** ** BookingForm.tsx *)

Inductive Role := Leader | Member.

(** The string a role is compared with and stored as. *)
Definition role_str (r : Role) : list N :=
  match r with
  | Leader => Js.lit "leader"
  | Member => Js.lit "member"
  end.

Definition is_leader (r : Role) : bool :=
  match r with Leader => true | Member => false end.

(** Values of the [slotStatus] map. *)
Record SlotInfo := { count : nat; hasLeader : bool }.

Definition no_info : SlotInfo := {| count := 0; hasLeader := false |}.

(** [b.slot.split(',').map(s => s.trim())] *)
Definition bookedSlots (b : Booking.t) : list (list N) :=
  List.map Js.trim (Js.split 44 (Booking.slot b)).

(** [status.get(s) || { count: 0, hasLeader: false }] *)
Definition getOrZero (status : gmap (list N) SlotInfo) (s : list N) : SlotInfo :=
  default no_info (status !! s).

(** The body of [bookedSlots.forEach] in [slotStatus]. *)
Definition bump (isLeader : bool) (status : gmap (list N) SlotInfo) (s : list N)
  : gmap (list N) SlotInfo :=
  let current := getOrZero status s in
  <[s := {| count := S (count current);
            hasLeader := hasLeader current || isLeader |}]> status.

(** The [useMemo] that computes [slotStatus] from the bookings and the date. *)
Definition slotStatus (existingBookings : list Booking.t) (date : list N)
  : gmap (list N) SlotInfo :=
  let todayBookings :=
    List.filter (fun b => bool_decide (Booking.date b = date)) existingBookings in
  let status := foldl (fun st t => <[t := no_info]> st) ∅ TIME_SLOTS in
  foldl (fun st b =>
           let isLeader := bool_decide (Booking.members b = Js.lit "leader") in
           foldl (bump isLeader) st (bookedSlots b))
        status todayBookings.

(** [toggleSlot]: the new value of [selectedSlots]. *)
Definition toggleSlot (status : gmap (list N) SlotInfo) (selectedSlots : list (list N))
    (slot : list N) : list (list N) :=
  match status !! slot with
  | None => selectedSlots
  | Some currentStatus =>
      if (MAX_CAPACITY <=? count currentStatus)%nat then selectedSlots
      else if Js.includes selectedSlots slot then [] else [slot]
  end.

(** The messages given to [setError] by the checks of [handleSubmit], one
    constructor per message, in the order of the source (lines 156, 162,
    173, 179, 207 and 223); the two middle ones quote the slot. *)
Inductive Reason :=
  | MissingSlot
  | MissingName
  | SlotFull (slot : list N)
  | LeaderConflict (slot : list N)
  | ConsecutiveLeadership
  | DuplicateBooking.

(** Step 3, the [for (const slot of selectedSlots)] loop: [Some r] is
    [setError(..); return], [None] is leaving the loop normally. *)
Fixpoint checkSlots (status : gmap (list N) SlotInfo) (role : Role)
    (selectedSlots : list (list N)) : option Reason :=
  match selectedSlots with
  | [] => None
  | slot :: rest =>
      match status !! slot with
      | None => checkSlots status role rest
      | Some currentStatus =>
          if (MAX_CAPACITY <=? count currentStatus)%nat then Some (SlotFull slot)
          else if is_leader role && hasLeader currentStatus
               then Some (LeaderConflict slot)
               else checkSlots status role rest
      end
  end.

(** Step 4a: the slots the booker already leads on that day. *)
Definition existingLeaderSlots (existingBookings : list Booking.t)
    (date name : list N) : list (list N) :=
  List.flat_map bookedSlots
    (List.filter
       (fun b => bool_decide (Booking.date b = date)
                 && bool_decide (Booking.leader b = Js.trim name)
                 && bool_decide (Booking.members b = Js.lit "leader"))
       existingBookings).

(** Steps 4b and 4c: union with the selection, catalog positions, sorted. *)
Definition leaderIndices (existingBookings : list Booking.t)
    (date name : list N) (selectedSlots : list (list N)) : list Z :=
  let allProjectedLeaderSlots :=
    Js.new_Set (existingLeaderSlots existingBookings date name ++ selectedSlots) in
  Js.sort_numeric
    (List.filter (fun idx => negb (idx =? -1)%Z)
       (List.map (Js.indexOf TIME_SLOTS) allProjectedLeaderSlots)).

(** Step 4d: the loop over [i < indices.length - 1]. *)
Fixpoint hasConsecutive (indices : list Z) : bool :=
  match indices with
  | [] => false
  | a :: rest =>
      match rest with
      | [] => false
      | b :: _ => if (b =? a + 1)%Z then true else hasConsecutive rest
      end
  end.

(** Step 4 as a whole. *)
Definition checkConsecutive (existingBookings : list Booking.t)
    (date : list N) (role : Role) (name : list N)
    (selectedSlots : list (list N)) : option Reason :=
  match role with
  | Leader =>
      if hasConsecutive (leaderIndices existingBookings date name selectedSlots)
      then Some ConsecutiveLeadership else None
  | Member => None
  end.

(** Step 5: [existingBookings.some(..)]. *)
Definition isDuplicate (existingBookings : list Booking.t)
    (date name : list N) (selectedSlots : list (list N)) : bool :=
  List.existsb
    (fun b =>
       if negb (bool_decide (Booking.date b = date)) then false
       else if negb (bool_decide (Booking.leader b = Js.trim name)) then false
       else List.existsb (Js.includes selectedSlots) (bookedSlots b))
    existingBookings.

(** The checks of [handleSubmit] up to [setIsSubmitting(true)]:
    [Some r] when the handler sets the message [r] and returns. *)
Definition validate (existingBookings : list Booking.t) (date : list N)
    (role : Role) (name : list N) (selectedSlots : list (list N))
  : option Reason :=
  if (length selectedSlots =? 0)%nat then Some MissingSlot
  else if bool_decide (Js.trim name = []) then Some MissingName
  else
    match checkSlots (slotStatus existingBookings date) role selectedSlots with
    | Some r => Some r
    | None =>
        match checkConsecutive existingBookings date role name selectedSlots with
        | Some r => Some r
        | None =>
            if isDuplicate existingBookings date name selectedSlots
            then Some DuplicateBooking
            else None
        end
    end.

(** The object handed to [insert]. *)
Module Row.
Record t := mk {
  date : list N;
  leader : list N;
  members : list N;
  slot : list N
}.
End Row.

Definition newRow (date : list N) (role : Role) (name : list N)
    (selectedSlots : list (list N)) : Row.t :=
  let sortedSlots := Js.sort_default selectedSlots in
  let slotString := Js.join (Js.lit ", ") sortedSlots in
  {| Row.date := date;
     Row.leader := Js.trim name;
     Row.members := role_str role;
     Row.slot := slotString |}.

(** ** The persistence client *)

(** A string, [null] or [undefined] used as a condition. *)
Definition truthy (s : option (list N)) : bool :=
  match s with
  | Some (_ :: _) => true
  | _ => false
  end.

(** What the [insert] call comes back with: the demo client of the source
    always stores the row under a fresh id and time stamp; a real backend
    may also answer with an error, whose [message] may be missing. *)
Inductive InsertReply :=
  | InsertOk (id : Z) (created_at : list N)
  | InsertFailed (message : option (list N)).

(** The row as the store keeps it: [{ id, created_at, ...r }]. *)
Definition stored (id : Z) (created_at : list N) (r : Row.t) : Booking.t :=
  {| Booking.id := id;
     Booking.created_at := created_at;
     Booking.date := Row.date r;
     Booking.slot := Row.slot r;
     Booking.leader := Row.leader r;
     Booking.members := Row.members r |}.

(** [select('*').order('date', { ascending: false })] of the demo client:
    a stable sort, later dates first. *)
Definition select_by_date_desc (table : list Booking.t) : list Booking.t :=
  Js.sort_by
    (fun a b => negb (Js.str_ltb (Booking.date a) (Booking.date b))) table.

(** What the read comes back with: [{ data, error }] without an error
    ([data] may be [null]), or an error (or an exception). *)
Inductive FetchReply :=
  | FetchOk (data : option (list Booking.t))
  | FetchFailed.

(** The answer of the demo client to a read of [table]. *)
Definition demoSelect (table : list Booking.t) : FetchReply :=
  FetchOk (Some (select_by_date_desc table)).

(** ** App.tsx *)

(** [fetchBookings] once the read has answered: the new value of the
    [bookings] state.  On success it is [data || []]; an error is logged and
    the state is left as it was. *)
Definition fetchBookings (reply : FetchReply) (bookings : list Booking.t)
  : list Booking.t :=
  match reply with
  | FetchOk data => default [] data
  | FetchFailed => bookings
  end.

(** ** The form and the page *)

(** What the [error] state holds. *)
Inductive ErrorMsg :=
  | Rejected (r : Reason)
  | StoreError (message : list N).

(** [err.message || ".."] of line 261: the message of the store, or the
    text of the source (thirteen Chinese characters, given as code units)
    when the store gives none. *)
Definition insertErrorMessage (message : option (list N)) : list N :=
  if truthy message then default [] message
  else [39044; 32422; 22833; 36133; 65292; 35831; 26816; 26597; 32593; 32476;
        25110; 37325; 35797].

Module Form.
Record t := mk {
  date : list N;
  role : Role;
  name : list N;
  selectedSlots : list (list N);
  isSubmitting : bool;
  error : option ErrorMsg;
  showCelebration : bool
}.
End Form.

(** The page: the form, the [bookings] state of [App] handed to the form as
    [existingBookings], and the table behind the persistence client. *)
Record World := {
  form : Form.t;
  bookings : list Booking.t;
  table : list Booking.t
}.

(** The state of the form when it is mounted on the day whose
    day-after-tomorrow is [defaultDate]. *)
Definition initialForm (defaultDate : list N) : Form.t :=
  {| Form.date := defaultDate; Form.role := Member; Form.name := [];
     Form.selectedSlots := []; Form.isSubmitting := false;
     Form.error := None; Form.showCelebration := false |}.

(** [handleSubmit] from its first line to the end of its [finally] block,
    with the celebration date as a parameter and the answer of the
    persistence client as an input.  The insert and what follows it are
    taken as one step (the submit button is disabled while the insert is in
    flight).  [onSuccess()] only starts the read of [fetchBookings] and is
    not awaited: the handler leaves [bookings] as it is, and the answer of
    that read is an event of its own ([Fetched] below). *)
Definition handleSubmit (examEndDate : list N) (reply : InsertReply)
    (w : World) : World :=
  let f := form w in
  let date := Form.date f in
  let role := Form.role f in
  let name := Form.name f in
  let selectedSlots := Form.selectedSlots f in
  match validate (bookings w) date role name selectedSlots with
  | Some r =>
      {| form := Form.mk date role name selectedSlots (Form.isSubmitting f)
                   (Some (Rejected r)) (Form.showCelebration f);
         bookings := bookings w;
         table := table w |}
  | None =>
      match reply with
      | InsertFailed message =>
          {| form := Form.mk date role name selectedSlots false
                       (Some (StoreError (insertErrorMessage message)))
                       (Form.showCelebration f);
             bookings := bookings w;
             table := table w |}
      | InsertOk id created_at =>
          {| form := Form.mk date Member [] [] false None
                       (if bool_decide (date = examEndDate) then true
                        else Form.showCelebration f);
             bookings := bookings w;
             table :=
               table w
               ++ [stored id created_at (newRow date role name selectedSlots)] |}
      end
  end.

(** What the user and the persistence client can do to the page. *)
Inductive Event :=
  | SetDate (d : list N)
  | SetRole (r : Role)
  | SetName (n : list N)
  | ClickSlot (k : nat)              (* the k-th slot button *)
  | Submit (reply : InsertReply)
  | CloseCelebration
  | Fetched (reply : FetchReply).    (* a read of [fetchBookings] answers *)

(** [App] starts a read when it mounts and [onSuccess] starts one after
    every admitted submission; the model lets an answer arrive at any time,
    with any rows. *)

Definition step (examEndDate : list N) (w : World) (e : Event) : World :=
  let f := form w in
  let with_form f' := {| form := f'; bookings := bookings w; table := table w |} in
  match e with
  | SetDate d =>
      with_form (Form.mk d (Form.role f) (Form.name f) []
                   (Form.isSubmitting f) (Form.error f) (Form.showCelebration f))
  | SetRole r =>
      with_form (Form.mk (Form.date f) r (Form.name f) (Form.selectedSlots f)
                   (Form.isSubmitting f) (Form.error f) (Form.showCelebration f))
  | SetName n =>
      with_form (Form.mk (Form.date f) (Form.role f) n (Form.selectedSlots f)
                   (Form.isSubmitting f) (Form.error f) (Form.showCelebration f))
  | ClickSlot k =>
      match TIME_SLOTS !! k with
      | None => w
      | Some slot =>
          with_form (Form.mk (Form.date f) (Form.role f) (Form.name f)
                       (toggleSlot (slotStatus (bookings w) (Form.date f))
                          (Form.selectedSlots f) slot)
                       (Form.isSubmitting f) (Form.error f)
                       (Form.showCelebration f))
      end
  | Submit reply => handleSubmit examEndDate reply w
  | CloseCelebration =>
      with_form (Form.mk (Form.date f) (Form.role f) (Form.name f)
                   (Form.selectedSlots f) (Form.isSubmitting f) (Form.error f)
                   false)
  | Fetched reply =>
      {| form := f;
         bookings := fetchBookings reply (bookings w);
         table := table w |}
  end.

(** The page after a sequence of events. *)
Definition run (examEndDate : list N) (w : World) (es : list Event) : World :=
  foldl (step examEndDate) w es.

(** The page when [App] mounts over a store that holds [table0]: no
    reservation is known yet ([useState([])]); the first read has been
    started and answers later, if at all. *)
Definition mounted (defaultDate : list N) (table0 : list Booking.t) : World :=
  {| form := initialForm defaultDate;
     bookings := [];
     table := table0 |}.

(** ** The rules in the words of the specification

    The definitions below are not translated from the source and use none
    of its functions: they state what the specification says the index and
    the validator are, and are compared with the code further down. *)

(** White space: the code points that ECMAScript calls WhiteSpace or
    LineTerminator (TAB, LF, VT, FF, CR, SP, NBSP, U+1680, U+2000 to U+200A,
    U+2028, U+2029, U+202F, U+205F, U+3000 and the byte order mark). *)
Definition whiteSpace : list N :=
  [9; 10; 11; 12; 13; 32; 160; 5760;
   8192; 8193; 8194; 8195; 8196; 8197; 8198; 8199; 8200; 8201; 8202;
   8232; 8233; 8239; 8287; 12288; 65279].

Definition blank (c : N) : Prop := c ∈ whiteSpace.

#[global] Instance blank_dec (c : N) : Decision (blank c) :=
  decide (c ∈ whiteSpace).

(** A string with no white space at either end. *)
Definition trimmed (s : list N) : Prop :=
  (∀ c, head s = Some c → ¬ blank c) ∧ (∀ c, last s = Some c → ¬ blank c).

(** [s] is [raw] without the white space at its two ends. *)
Definition stripOf (raw s : list N) : Prop :=
  trimmed s
  ∧ ∃ before after,
      raw = before ++ s ++ after ∧ Forall blank before ∧ Forall blank after.

(** The same as a function: white space is dropped from the front, then
    from the back. *)
Fixpoint dropBlanks (s : list N) : list N :=
  match s with
  | [] => []
  | c :: rest => if bool_decide (blank c) then dropBlanks rest else s
  end.

Fixpoint dropBlanksEnd (s : list N) : list N :=
  match s with
  | [] => []
  | c :: rest =>
      match dropBlanksEnd rest with
      | [] => if bool_decide (blank c) then [] else [c]
      | kept => c :: kept
      end
  end.

Definition strip (raw : list N) : list N := dropBlanksEnd (dropBlanks raw).

(** The entries of a comma-separated field, read from left to right, with
    [current] the entry being read: a comma ends it. *)
Fixpoint entriesFrom (current field : list N) : list (list N) :=
  match field with
  | [] => [current]
  | c :: rest =>
      if bool_decide (c = 44) then current :: entriesFrom [] rest
      else entriesFrom (current ++ [c]) rest
  end.

(** The labels a reservation occupies: the entries of its slot field, each
    without the white space around it. *)
Definition labelsOf (b : Booking.t) : list (list N) :=
  List.map strip (entriesFrom [] (Booking.slot b)).

(** The same as relations.  [entries] are the pieces of [field] between
    its commas: none holds a comma, and joined by commas they are the
    field. *)
Inductive entriesOf : list N → list (list N) → Prop :=
  | entriesOf_last (e : list N) : 44 ∉ e → entriesOf e [e]
  | entriesOf_more (e rest : list N) (es : list (list N)) :
      44 ∉ e → entriesOf rest es → entriesOf (e ++ 44 :: rest) (e :: es).

(** [labels] are the entries of the slot field of [b], each without the
    white space around it. *)
Definition occupiesLabels (b : Booking.t) (labels : list (list N)) : Prop :=
  ∃ entries, entriesOf (Booking.slot b) entries ∧ Forall2 stripOf entries labels.

(** Code units compared as JavaScript compares strings: [a] is not above
    [b]. *)
Inductive codeUnitsLe : list N → list N → Prop :=
  | codeUnitsLe_nil (b : list N) : codeUnitsLe [] b
  | codeUnitsLe_lt (x y : N) (a b : list N) : x < y → codeUnitsLe (x :: a) (y :: b)
  | codeUnitsLe_eq (x : N) (a b : list N) :
      codeUnitsLe a b → codeUnitsLe (x :: a) (x :: b).

(** How many of the labels are [s]. *)
Definition occurrences (s : list N) (labels : list (list N)) : nat :=
  length (List.filter (fun x => bool_decide (x = s)) labels).

(** How many times the reservation [b] occupies the pair [(date, s)]. *)
Definition occupies (b : Booking.t) (date s : list N) : nat :=
  if bool_decide (Booking.date b = date) then occurrences s (labelsOf b)
  else 0%nat.

(** Section 4.1: every matching reservation adds one per label it occupies. *)
Definition occupantCount (reservations : list Booking.t) (date s : list N) : nat :=
  sum_list_with (fun b => occupies b date s) reservations.

(** Section 4.1: the disjunction of [role == leader] over the matching
    reservations. *)
Definition leaderPresent (reservations : list Booking.t) (date s : list N) : bool :=
  List.existsb
    (fun b => bool_decide (Booking.members b = Js.lit "leader")
              && (0 <? occupies b date s)%nat)
    reservations.

(** The reservations a booker holds on the pair [(date, s)]. *)
Definition holdingsOf (reservations : list Booking.t) (date name s : list N)
  : list Booking.t :=
  List.filter
    (fun b => bool_decide (Booking.date b = date)
              && bool_decide (Booking.leader b = name)
              && bool_decide (s ∈ labelsOf b))
    reservations.

(** The booker is recorded as leader of [s] on that date. *)
Definition leads (reservations : list Booking.t) (date name s : list N) : Prop :=
  ∃ b, b ∈ reservations ∧ Booking.date b = date ∧ Booking.leader b = name
       ∧ Booking.members b = Js.lit "leader" ∧ s ∈ labelsOf b.

(** Section 4.2: a request names a booker, a role and the chosen slot, if
    one is chosen. *)
Record BookingRequest := {
  bookerName : list N;
  requestRole : Role;
  requestSlot : option (list N)
}.

(** The selection of the form that carries the request. *)
Definition selectionOf (req : BookingRequest) : list (list N) :=
  match requestSlot req with
  | None => []
  | Some s => [s]
  end.

(** Stage 1: a slot is selected, then the name is not blank. *)
Definition stageWellFormed (req : BookingRequest) : option Reason :=
  match requestSlot req with
  | None => Some MissingSlot
  | Some _ =>
      if bool_decide (strip (bookerName req) = []) then Some MissingName
      else None
  end.

(** Stage 2: the slot is not yet at capacity. *)
Definition stageCapacity (history : list Booking.t) (date : list N)
    (req : BookingRequest) : option Reason :=
  match requestSlot req with
  | None => None
  | Some s =>
      if (MAX_CAPACITY <=? occupantCount history date s)%nat
      then Some (SlotFull s) else None
  end.

(** Stage 3: a leader may not join a slot that has one. *)
Definition stageRoleUnique (history : list Booking.t) (date : list N)
    (req : BookingRequest) : option Reason :=
  match requestSlot req with
  | None => None
  | Some s =>
      if is_leader (requestRole req) && leaderPresent history date s
      then Some (LeaderConflict s) else None
  end.

(** Stage 4.  The slot at catalog position [p] is one the request projects
    the booker to lead: it is the requested slot, or one the history records
    the booker as leading on that date. *)
Definition projectedAt (history : list Booking.t) (date : list N)
    (req : BookingRequest) (p : nat) : bool :=
  match TIME_SLOTS !! p with
  | None => false
  | Some s =>
      bool_decide (requestSlot req = Some s)
      || List.existsb
           (fun b => bool_decide (Booking.date b = date)
                     && bool_decide (Booking.leader b = strip (bookerName req))
                     && bool_decide (Booking.members b = Js.lit "leader")
                     && bool_decide (s ∈ labelsOf b))
           history
  end.

(** A leader request is refused when two neighbouring positions of the
    catalog are both projected; a member request is not looked at. *)
Definition stageConsecutive (history : list Booking.t) (date : list N)
    (req : BookingRequest) : option Reason :=
  match requestRole req with
  | Member => None
  | Leader =>
      if List.existsb
           (fun p => projectedAt history date req p
                     && projectedAt history date req (S p))
           (seq 0 (length TIME_SLOTS))
      then Some ConsecutiveLeadership else None
  end.

(** Stage 5: the booker holds no reservation on the pair yet, whatever the
    roles. *)
Definition stageDuplicate (history : list Booking.t) (date : list N)
    (req : BookingRequest) : option Reason :=
  match requestSlot req with
  | None => None
  | Some s =>
      match holdingsOf history date (strip (bookerName req)) s with
      | [] => None
      | _ :: _ => Some DuplicateBooking
      end
  end.

(** The five stages in the order of section 4.2. *)
Definition stages (history : list Booking.t) (date : list N)
    (req : BookingRequest) : list (option Reason) :=
  [ stageWellFormed req;
    stageCapacity history date req;
    stageRoleUnique history date req;
    stageConsecutive history date req;
    stageDuplicate history date req ].

(** The verdict of the first stage that fails. *)
Fixpoint firstFailure (results : list (option Reason)) : option Reason :=
  match results with
  | [] => None
  | Some r :: _ => Some r
  | None :: rest => firstFailure rest
  end.

(** The catalog position of a label, when it has one. *)
Definition positionOf (s : list N) (z : Z) : Prop :=
  (0 <= z)%Z ∧ TIME_SLOTS !! Z.to_nat z = Some s.

(** The slots a leader request projects the booker to lead on that day:
    those of the request and those the history already records. *)
Definition projectedLeaderSlot (history : list Booking.t) (date name : list N)
    (selectedSlots : list (list N)) (s : list N) : Prop :=
  s ∈ selectedSlots ∨
  ∃ b, b ∈ history ∧ Booking.date b = date ∧ Booking.leader b = strip name
       ∧ Booking.members b = Js.lit "leader" ∧ s ∈ labelsOf b.

(** Two neighbours of the list differ by exactly one. *)
Definition adjacentStep (l : list Z) : Prop :=
  ∃ (i : nat) (a : Z), l !! i = Some a ∧ l !! S i = Some (a + 1)%Z.

(** The reservations that lead the pair [(date, s)]. *)
Definition leadersOf (reservations : list Booking.t) (date s : list N)
  : list Booking.t :=
  List.filter
    (fun b => bool_decide (Booking.date b = date)
              && bool_decide (Booking.members b = Js.lit "leader")
              && bool_decide (s ∈ labelsOf b))
    reservations.

(** The booker leads two slots that are neighbours in the catalog. *)
Definition leadsConsecutive (reservations : list Booking.t) (date name : list N)
  : Prop :=
  ∃ s1 s2 p, leads reservations date name s1 ∧ leads reservations date name s2
             ∧ positionOf s1 p ∧ positionOf s2 (p + 1)%Z.

(** Two pages that differ at most in whether the celebration is shown. *)
Definition sameButCelebration (w1 w2 : World) : Prop :=
  table w1 = table w2 ∧ bookings w1 = bookings w2
  ∧ Form.date (form w1) = Form.date (form w2)
  ∧ Form.role (form w1) = Form.role (form w2)
  ∧ Form.name (form w1) = Form.name (form w2)
  ∧ Form.selectedSlots (form w1) = Form.selectedSlots (form w2)
  ∧ Form.isSubmitting (form w1) = Form.isSubmitting (form w2)
  ∧ Form.error (form w1) = Form.error (form w2).

(** ** What the runs of the page are asked to satisfy *)

(** The selection is empty or one label of the catalog. *)
Definition selectionOk (w : World) : Prop :=
  Form.selectedSlots (form w) = []
  ∨ ∃ s, s ∈ TIME_SLOTS ∧ Form.selectedSlots (form w) = [s].

(** The reservations the page knows are those of the table. *)
Definition upToDate (w : World) : Prop := bookings w ≡ₚ table w.

(** Every submission of the run is made while the page is up to date: the
    read started by the previous admission has answered, with the rows of
    the table, before the button is pressed again. *)
Fixpoint submitsUpToDate (examEndDate : list N) (w : World) (es : list Event)
  : Prop :=
  match es with
  | [] => True
  | e :: es' =>
      match e with
      | Submit _ => upToDate w
      | _ => True
      end
      ∧ submitsUpToDate examEndDate (step examEndDate w e) es'
  end.

(** No read answers during the run. *)
Definition noAnswer (es : list Event) : Prop :=
  Forall (fun e => match e with Fetched _ => False | _ => True end) es.

(** Every selected slot is shown with a free place. *)
Definition selectionOpen (w : World) : Prop :=
  ∀ s, s ∈ Form.selectedSlots (form w) →
       (occupantCount (bookings w) (Form.date (form w)) s < MAX_CAPACITY)%nat.

(** A record as an admitted submission writes it: one catalog label, the
    trimmed name of the form, the role of the form. *)
Definition writtenByForm (b : Booking.t) : Prop :=
  ∃ (id : Z) (created_at date name : list N) (role : Role) (s : list N),
    s ∈ TIME_SLOTS
    ∧ b = stored id created_at (newRow date role name [s]).

(** ** StatusCard.tsx *)

(** Step 2 of [StatusCard]: the number of reservations per slot on the day
    after tomorrow; [slotCounts.get(slotName) || 0] is [default 0]. *)
Definition slotCounts (bookings : list Booking.t) (dayAfterTomorrowStr : list N)
  : gmap (list N) nat :=
  let targetBookings :=
    List.filter (fun b => bool_decide (Booking.date b = dayAfterTomorrowStr))
      bookings in
  let slotCounts0 := foldl (fun m t => <[t := 0%nat]> m) ∅ TIME_SLOTS in
  foldl (fun m b =>
           foldl (fun m s =>
                    let slotName := Js.trim s in
                    let current := default 0%nat (m !! slotName) in
                    <[slotName := S current]> m)
                 m (Js.split 44 (Booking.slot b)))
        slotCounts0 targetBookings.

(** An entry of [availableSlots]. *)
Record AvailableSlot := { slotName : list N; remaining : nat }.

(** Step 3 of [StatusCard]: the loop over the catalog that fills
    [fullyBookedSlots] and [availableSlots], each [push] adding at the end. *)
Definition statusLists (bookings : list Booking.t) (dayAfterTomorrowStr : list N)
  : list (list N) * list AvailableSlot :=
  foldl (fun '(fullyBookedSlots, availableSlots) slot =>
           let count := default 0%nat
                          (slotCounts bookings dayAfterTomorrowStr !! slot) in
           if (MAX_CAPACITY <=? count)%nat
           then (fullyBookedSlots ++ [slot], availableSlots)
           else (fullyBookedSlots,
                 availableSlots
                 ++ [{| slotName := slot; remaining := MAX_CAPACITY - count |}]))
        ([], []) TIME_SLOTS.

Definition fullyBookedSlots (bookings : list Booking.t) (d : list N)
  : list (list N) := fst (statusLists bookings d).

Definition availableSlots (bookings : list Booking.t) (d : list N)
  : list AvailableSlot := snd (statusLists bookings d).

(** [availableSlots.length === 0] *)
Definition isAllFull (bookings : list Booking.t) (d : list N) : bool :=
  (length (availableSlots bookings d) =? 0)%nat.

(** ** The slot buttons of the form *)

(** What the form shows for one slot of the catalog: a disabled button when
    the slot is full, a highlighted one (amber on a leader conflict) when it
    is selected, and otherwise the leader badge and the places left,
    [Math.max(0, MAX_CAPACITY - status.count)]. *)
Inductive SlotButton :=
  | FullButton
  | SelectedButton (isLeaderConflict : bool)
  | OpenButton (hasLeaderBadge : bool) (remainingBadge : Z).

Definition slotButton (status : gmap (list N) SlotInfo) (role : Role)
    (selectedSlots : list (list N)) (slot : list N) : SlotButton :=
  let st := getOrZero status slot in
  let isFull := (MAX_CAPACITY <=? count st)%nat in
  let isSelected := Js.includes selectedSlots slot in
  let remaining := Z.max 0 (Z.of_nat MAX_CAPACITY - Z.of_nat (count st)) in
  let isLeaderConflict := is_leader role && hasLeader st in
  if isFull then FullButton
  else if isSelected then SelectedButton isLeaderConflict
       else OpenButton (hasLeader st) remaining.

(** [disabled={isFull}] *)
Definition buttonDisabled (b : SlotButton) : bool :=
  match b with FullButton => true | _ => false end.

(** The amber note under the buttons:
    [role === 'leader' && selectedSlots.some(s => slotStatus.get(s)?.hasLeader)]. *)
Definition leaderWarning (status : gmap (list N) SlotInfo) (role : Role)
    (selectedSlots : list (list N)) : bool :=
  is_leader role
  && List.existsb
       (fun s => match status !! s with
                 | Some o => hasLeader o
                 | None => false
                 end)
       selectedSlots.

(** ** HistoryList.tsx *)

(** [\d] of the regular expression: an ASCII digit. *)
Definition isDigit (c : N) : bool := (48 <=? c) && (c <=? 57).

(** The longest run of digits at the start of a string, and what follows. *)
Fixpoint spanDigits (s : list N) : list N * list N :=
  match s with
  | [] => ([], [])
  | c :: s' =>
      if isDigit c then let (ds, rest) := spanDigits s' in (c :: ds, rest)
      else ([], s)
  end.

(** [parseInt(digits, 10)] on a string of digits.  The model is the exact
    value; [parseInt] answers the nearest double, which is that value as
    long as it is below 2^53, so for every run of at most fifteen digits.
    The properties that depend on the value carry that bound. *)
Definition parseInt10 (digits : list N) : Z :=
  foldl (fun acc c => (10 * acc + (Z.of_N c - 48))%Z) 0%Z digits.

(** [getSlotStartHour]: the match of [/^(\d+):/], read as a number, or 99.
    The greedy [\d+] takes the whole run of digits, which must be followed
    by a colon. *)
Definition getSlotStartHour (slotStr : list N) : Z :=
  let (digits, rest) := spanDigits slotStr in
  match digits, rest with
  | _ :: _, c :: _ => if c =? 58 then parseInt10 digits else 99%Z
  | _, _ => 99%Z
  end.

(** A JavaScript [Map] with string keys whose order of insertion matters:
    [set] on a key that is present keeps its place. *)
Fixpoint Map_get {V} (m : list (list N * V)) (k : list N) : option V :=
  match m with
  | [] => None
  | (k', v) :: m' => if bool_decide (k' = k) then Some v else Map_get m' k
  end.

Fixpoint Map_set {V} (m : list (list N * V)) (k : list N) (v : V)
  : list (list N * V) :=
  match m with
  | [] => [(k, v)]
  | (k', v') :: m' =>
      if bool_decide (k' = k) then (k, v) :: m' else (k', v') :: Map_set m' k v
  end.

(** Values of [groupingMap]; [dateObj] is kept as the string handed to
    [new Date]. *)
Module Group.
Record t := mk {
  dateObj : list N;
  leader : option (list N);
  members : list (list N)
}.
End Group.

(** [`${booking.date}|${slotTime}`] *)
Definition groupKey (date slotTime : list N) : list N := date ++ 124 :: slotTime.

(** The body of [slots.forEach] in the aggregation. *)
Definition groupStep (booking : Booking.t) (groupingMap : list (list N * Group.t))
    (slotTime : list N) : list (list N * Group.t) :=
  let key := groupKey (Booking.date booking) slotTime in
  let current :=
    default {| Group.dateObj := Booking.date booking; Group.leader := None;
               Group.members := [] |}
            (Map_get groupingMap key) in
  let current' :=
    if bool_decide (Booking.members booking = Js.lit "leader")
    then {| Group.dateObj := Group.dateObj current;
            Group.leader := Some (Booking.leader booking);
            Group.members := Group.members current |}
    else {| Group.dateObj := Group.dateObj current;
            Group.leader := Group.leader current;
            Group.members := Group.members current ++ [Booking.leader booking] |} in
  Map_set groupingMap key current'.

(** Step 2 of [HistoryList]: [validDates] holds today, tomorrow and the day
    after, each formatted as yyyy-MM-dd. *)
Definition groupingMap (bookings : list Booking.t) (validDates : list (list N))
  : list (list N * Group.t) :=
  foldl (fun m booking =>
           let isInRange :=
             List.existsb (fun d => bool_decide (d = Booking.date booking))
               validDates in
           if isInRange then foldl (groupStep booking) m (bookedSlots booking)
           else m)
        [] bookings.

Module AggregatedSlot.
Record t := mk {
  id : list N;
  dateStr : list N;
  dateObj : list N;
  slotTime : list N;
  leader : option (list N);
  members : list (list N)
}.
End AggregatedSlot.

(** The body of [groupingMap.forEach]: the entry pushed to
    [aggregatedSlots], if any.  A key always holds a bar (lemma
    [groupingMap_keys]), so the second piece of the split exists. *)
Definition toAggregated (entry : list N * Group.t) : option AggregatedSlot.t :=
  let (key, val) := entry in
  let pieces := Js.split 124 key in
  let dateStr := nth 0 pieces [] in
  let slotTime := nth 1 pieces [] in
  if truthy (Group.leader val) || (0 <? length (Group.members val))%nat
  then Some {| AggregatedSlot.id := key;
               AggregatedSlot.dateStr := dateStr;
               AggregatedSlot.dateObj := Group.dateObj val;
               AggregatedSlot.slotTime := slotTime;
               AggregatedSlot.leader := Group.leader val;
               AggregatedSlot.members := Group.members val |}
  else None.

(** The comparator of step 3. *)
Definition compareSlots (a b : AggregatedSlot.t) : Z :=
  if negb (bool_decide (AggregatedSlot.dateStr a = AggregatedSlot.dateStr b))
  then if Js.str_ltb (AggregatedSlot.dateStr b) (AggregatedSlot.dateStr a)
       then 1%Z else (-1)%Z
  else (getSlotStartHour (AggregatedSlot.slotTime a)
        - getSlotStartHour (AggregatedSlot.slotTime b))%Z.

(** Steps 2 and 3: the entries of the map, sorted. *)
Definition aggregatedSlots (bookings : list Booking.t) (validDates : list (list N))
  : list AggregatedSlot.t :=
  Js.sort_by (fun a b => (compareSlots a b <=? 0)%Z)
    (omap toAggregated (groupingMap bookings validDates)).

(** An entry of [displayGroups], without the [Date] object. *)
Record DisplayGroup := {
  groupDate : list N;
  groupSlots : list AggregatedSlot.t
}.

(** Step 4: one group per valid date that has slots. *)
Definition displayGroups (bookings : list Booking.t) (validDates : list (list N))
  : list DisplayGroup :=
  foldl (fun groups dStr =>
           let slotsForDay :=
             List.filter
               (fun s => bool_decide (AggregatedSlot.dateStr s = dStr))
               (aggregatedSlots bookings validDates) in
           if (0 <? length slotsForDay)%nat
           then groups ++ [{| groupDate := dStr; groupSlots := slotsForDay |}]
           else groups)
        [] validDates.

(** The names the card of a pair shows as members: those of the
    reservations of the pair that are not made as leader, in order. *)
Definition memberNames (bookings : list Booking.t) (date s : list N)
  : list (list N) :=
  List.flat_map
    (fun b => if bool_decide (Booking.members b = Js.lit "leader") then []
              else List.repeat (Booking.leader b) (occupies b date s))
    bookings.

(** The names of the reservations of the pair made as leader, in order. *)
Definition leaderNames (bookings : list Booking.t) (date s : list N)
  : list (list N) :=
  List.flat_map
    (fun b => if bool_decide (Booking.members b = Js.lit "leader")
              then List.repeat (Booking.leader b) (occupies b date s)
              else [])
    bookings.

(** ** The quote of [triggerEasterEgg] *)

Record HitokotoData := {
  hitokoto : list N;
  from : list N;
  from_who : option (list N)
}.

(** The choice between the two answers, [selectedData]. *)
Definition selectQuote (data1 data2 : HitokotoData) : HitokotoData :=
  if truthy (from_who data1) && negb (truthy (from_who data2)) then data1
  else if negb (truthy (from_who data2))
          && (length (hitokoto data2) <? 5)%nat
          && (5 <? length (hitokoto data1))%nat
       then data1
       else data2.

(** The group a pair starts with: [{ dateObj, leader: null, members: [] }]. *)
Definition freshGroup (date : list N) : Group.t :=
  {| Group.dateObj := date; Group.leader := None; Group.members := [] |}.

(** What [n] visits of the loop do to a group for one booking: a leader
    booking sets the leader, any other booking adds its name each time. *)
Definition visited (b : Booking.t) (n : nat) (g : Group.t) : Group.t :=
  if bool_decide (Booking.members b = Js.lit "leader")
  then {| Group.dateObj := Group.dateObj g;
          Group.leader := match n with
                          | O => Group.leader g
                          | S _ => Some (Booking.leader b)
                          end;
          Group.members := Group.members g |}
  else {| Group.dateObj := Group.dateObj g;
          Group.leader := Group.leader g;
          Group.members := Group.members g ++ List.repeat (Booking.leader b) n |}.

(** The group of a pair read off the reservations: none when nothing
    occupies the pair, else the last leader name and the member names. *)
Definition groupOf (bookings : list Booking.t) (date s : list N) : option Group.t :=
  if (occupantCount bookings date s =? 0)%nat then None
  else Some {| Group.dateObj := date;
               Group.leader := last (leaderNames bookings date s);
               Group.members := memberNames bookings date s |}.

(** The card of a pair whose label holds no bar. *)
Definition cardOf (bookings : list Booking.t) (date s : list N) : AggregatedSlot.t :=
  {| AggregatedSlot.id := groupKey date s;
     AggregatedSlot.dateStr := date;
     AggregatedSlot.dateObj := date;
     AggregatedSlot.slotTime := s;
     AggregatedSlot.leader := last (leaderNames bookings date s);
     AggregatedSlot.members := memberNames bookings date s |}.

(** ** The name input with suggestions *)

(** The names of [MEMBER_LIST], as code units (each character of these
    names is one unit). *)
Definition MEMBER_LIST : list (list N) :=
  [ [33891; 30757; 27743]; [27754; 35799; 33841]; [27784; 24184; 22948];
    [29579; 26131; 28982]; [20110; 32461; 31036]; [21556; 24658; 28059];
    [21556; 22025; 36842]; [38472; 29081]; [37101; 33322; 23425];
    [35768; 21746; 25991]; [31302; 34013]; [20219; 21338; 36713];
    [37101; 23478; 29614] ].

(** [s.startsWith(v)] *)
Fixpoint str_startsWith (s v : list N) : bool :=
  match v, s with
  | [], _ => true
  | _ :: _, [] => false
  | y :: v', x :: s' => (x =? y) && str_startsWith s' v'
  end.

(** [s.includes(v)]: [v] occurs somewhere in [s]. *)
Fixpoint str_includes (s v : list N) : bool :=
  str_startsWith s v
  || match s with
     | [] => false
     | _ :: s' => str_includes s' v
     end.

(** [MEMBER_LIST.filter(name => name.includes(value) && name !== value)] *)
Definition suggestions (value : list N) : list (list N) :=
  List.filter
    (fun name => str_includes name value && negb (bool_decide (name = value)))
    MEMBER_LIST.

(** ** Sample data for the scenarios *)

Module Sample.

Definition day : list N := Js.lit "2026-01-10".
Definition S1 : list N := Js.lit "9:00-13:00".
Definition S2 : list N := Js.lit "14:00-18:00".
Definition S3 : list N := Js.lit "19:00-22:30".
Definition stamp : list N := Js.lit "2026-01-01T08:00:00.000Z".

(** A stored reservation of [day]. *)
Definition row (id : Z) (name : string) (role : Role) (slot : list N) : Booking.t :=
  {| Booking.id := id; Booking.created_at := stamp; Booking.date := day;
     Booking.slot := slot; Booking.leader := Js.lit name;
     Booking.members := role_str role |}.

(** Filling the form and pressing the button, the store answering with [id]. *)
Definition submit (id : Z) (name : string) (role : Role) (k : nat) : list Event :=
  [SetName (Js.lit name); SetRole role; ClickSlot k; Submit (InsertOk id stamp)].

(** A read of the store answers with [rows]. *)
Definition read (rows : list Booking.t) : Event := Fetched (FetchOk (Some rows)).

(** The page showing [bs], with the form filled in for [day]. *)
Definition page (bs : list Booking.t) (role : Role) (name : string)
    (sel : list (list N)) : World :=
  {| form := Form.mk day role (Js.lit name) sel false None false;
     bookings := bs; table := bs |}.

(** The request the form of [page] carries when one slot is selected. *)
Definition request (role : Role) (name : string) (s : list N) : BookingRequest :=
  {| bookerName := Js.lit name; requestRole := role; requestSlot := Some s |}.

(** Four reservations on the first slot: one more than the capacity. *)
Definition crowded : list Booking.t :=
  [row 1 "P" Member S1; row 2 "Q" Member S1; row 3 "R" Member S1;
   row 4 "T" Member S1].

End Sample.

(** * Properties *)

(** ** Strings and arrays *)

Lemma trimStart_suffix (s : list N) : ∃ pre, s = pre ++ Js.trimStart s.
Proof.
  induction s as [|c s [pre IH]]; [by exists []|].
  simpl. destruct (Js.isWhiteSpace c).
  - exists (c :: pre). by rewrite IH at 1.
  - by exists [].
Qed.

Lemma trimStart_length (s : list N) : (length (Js.trimStart s) ≤ length s)%nat.
Proof.
  destruct (trimStart_suffix s) as [pre H]. rewrite H at 2.
  rewrite length_app. lia.
Qed.

(** [trimStart] leaves a string alone exactly when it does not begin with
    white space. *)
Lemma trimStart_fixed (s : list N) :
  Js.trimStart s = s ↔ s = [] ∨ ∃ c r, s = c :: r ∧ Js.isWhiteSpace c = false.
Proof.
  destruct s as [|c r]; simpl; [naive_solver|].
  destruct (Js.isWhiteSpace c) eqn:Hc.
  - split.
    + intros H. pose proof (trimStart_length r) as Hl.
      rewrite H in Hl. simpl in Hl. lia.
    + intros [?|(c' & r' & [= <- <-] & ?)]; congruence.
  - split; [intros _; right; eauto|done].
Qed.

Lemma trimStart_idem (s : list N) : Js.trimStart (Js.trimStart s) = Js.trimStart s.
Proof.
  induction s as [|c s IH]; [done|].
  simpl. destruct (Js.isWhiteSpace c) eqn:Hc; [done|].
  simpl. by rewrite Hc.
Qed.

Lemma trimEnd_idem (s : list N) : Js.trimEnd (Js.trimEnd s) = Js.trimEnd s.
Proof.
  unfold Js.trimEnd. by rewrite rev_involutive, trimStart_idem.
Qed.

Lemma trimEnd_prefix (s : list N) : ∃ post, s = Js.trimEnd s ++ post.
Proof.
  unfold Js.trimEnd. destruct (trimStart_suffix (rev s)) as [pre H].
  exists (rev pre). rewrite <- rev_app_distr, <- H. by rewrite rev_involutive.
Qed.

(** Trimming the end keeps a trimmed start. *)
Lemma trimStart_trimEnd (s : list N) :
  Js.trimStart s = s → Js.trimStart (Js.trimEnd s) = Js.trimEnd s.
Proof.
  intros Hs. apply trimStart_fixed.
  destruct (Js.trimEnd s) as [|c r] eqn:He; [by left|right].
  exists c, r. split; [done|].
  destruct (trimEnd_prefix s) as [post Hp]. rewrite He in Hp.
  apply trimStart_fixed in Hs as [->|(c' & r' & -> & Hc)]; [done|].
  by injection Hp as -> _.
Qed.

Lemma trim_idem (s : list N) : Js.trim (Js.trim s) = Js.trim s.
Proof.
  unfold Js.trim.
  rewrite (trimStart_trimEnd (Js.trimStart s)) by apply trimStart_idem.
  apply trimEnd_idem.
Qed.

(** *** The white space of the language and of the specification *)

Lemma isWhiteSpace_blank (c : N) : Js.isWhiteSpace c = true ↔ blank c.
Proof.
  unfold blank. split.
  - intros H. apply orb_true_iff in H as [H|H].
    + apply existsb_exists in H as (x & Hx & Hc). apply N.eqb_eq in Hc as ->.
      simpl in Hx.
      repeat (destruct Hx as [<-|Hx];
              [apply (bool_decide_unpack (_ ∈ whiteSpace)); by vm_compute|]).
      done.
    + apply andb_true_iff in H as [H1 H2]. apply N.leb_le in H1, H2.
      assert (Hc : c = 8192 ∨ c = 8193 ∨ c = 8194 ∨ c = 8195 ∨ c = 8196
                   ∨ c = 8197 ∨ c = 8198 ∨ c = 8199 ∨ c = 8200 ∨ c = 8201
                   ∨ c = 8202) by lia.
      repeat (destruct Hc as [->|Hc];
              [apply (bool_decide_unpack (_ ∈ whiteSpace)); by vm_compute|]).
      subst c. apply (bool_decide_unpack (_ ∈ whiteSpace)). by vm_compute.
  - unfold whiteSpace. rewrite !elem_of_cons, elem_of_nil.
    intros H. repeat (destruct H as [->|H]; [reflexivity|]). done.
Qed.

Lemma isWhiteSpace_decide (c : N) : Js.isWhiteSpace c = bool_decide (blank c).
Proof.
  destruct (Js.isWhiteSpace c) eqn:E.
  - symmetry. by apply bool_decide_eq_true, isWhiteSpace_blank.
  - symmetry. apply bool_decide_eq_false. rewrite <- isWhiteSpace_blank. congruence.
Qed.

Lemma trimStart_dropBlanks (s : list N) : Js.trimStart s = dropBlanks s.
Proof.
  induction s as [|c s IH]; [done|]. simpl.
  by rewrite isWhiteSpace_decide, IH.
Qed.

Lemma dropBlanks_snoc (l : list N) (c : N) :
  dropBlanks (l ++ [c])
  = match dropBlanks l with
    | [] => if bool_decide (blank c) then [] else [c]
    | kept => kept ++ [c]
    end.
Proof.
  induction l as [|x l IH]; simpl; [done|].
  by destruct (bool_decide (blank x)).
Qed.

Lemma trimEnd_dropBlanksEnd (s : list N) : Js.trimEnd s = dropBlanksEnd s.
Proof.
  unfold Js.trimEnd. induction s as [|c s IH]; [done|].
  cbn [rev dropBlanksEnd]. rewrite trimStart_dropBlanks, dropBlanks_snoc.
  rewrite trimStart_dropBlanks in IH. rewrite <- IH.
  destruct (dropBlanks (rev s)) as [|x kept]; [by destruct (bool_decide _)|].
  rewrite rev_app_distr. simpl.
  destruct (rev kept ++ [x]) eqn:E; [by destruct (rev kept)|done].
Qed.

Lemma trim_strip (s : list N) : Js.trim s = strip s.
Proof.
  unfold Js.trim, strip. by rewrite trimEnd_dropBlanksEnd, trimStart_dropBlanks.
Qed.

Lemma trimStart_head (s : list N) :
  Js.trimStart s = s ↔ ∀ c, head s = Some c → ¬ blank c.
Proof.
  rewrite trimStart_fixed. split.
  - intros [->|(c & r & -> & Hc)] c'; [done|].
    intros [= <-]. rewrite <- isWhiteSpace_blank. congruence.
  - intros H. destruct s as [|c r]; [by left|right].
    exists c, r. split; [done|].
    destruct (Js.isWhiteSpace c) eqn:E; [|done].
    exfalso. apply (H c); [done|]. by apply isWhiteSpace_blank.
Qed.

Lemma trimEnd_last (s : list N) :
  Js.trimEnd s = s ↔ ∀ c, last s = Some c → ¬ blank c.
Proof.
  assert (Hrev : ∀ l : list N, head (rev l) = last l).
  { intros l. rewrite rev_alt. apply head_reverse. }
  rewrite <- Hrev, <- trimStart_head. unfold Js.trimEnd. split.
  - intros H. rewrite <- H at 2. by rewrite rev_involutive.
  - intros H. by rewrite H, rev_involutive.
Qed.

(** A string is trimmed exactly when [trim] leaves it alone. *)
Lemma trimmed_trim (s : list N) : trimmed s ↔ Js.trim s = s.
Proof.
  unfold trimmed. rewrite <- trimStart_head, <- trimEnd_last. unfold Js.trim.
  split.
  - intros [H1 H2]. by rewrite H1, H2.
  - intros H. rewrite <- H. split.
    + apply trimStart_trimEnd, trimStart_idem.
    + apply trimEnd_idem.
Qed.

Lemma trim_trimmed (s : list N) : trimmed (Js.trim s).
Proof. apply trimmed_trim, trim_idem. Qed.

Lemma trimStart_blanks (s : list N) :
  ∃ before, s = before ++ Js.trimStart s ∧ Forall blank before.
Proof.
  induction s as [|c s (pre & IH & Hpre)]; [by exists []|].
  simpl. destruct (Js.isWhiteSpace c) eqn:Hc.
  - exists (c :: pre). split; [by rewrite IH at 1|].
    constructor; [by apply isWhiteSpace_blank|done].
  - by exists [].
Qed.

Lemma trimEnd_blanks (s : list N) :
  ∃ after, s = Js.trimEnd s ++ after ∧ Forall blank after.
Proof.
  unfold Js.trimEnd. destruct (trimStart_blanks (rev s)) as (pre & H & Hpre).
  exists (rev pre). split.
  - rewrite <- rev_app_distr, <- H. by rewrite rev_involutive.
  - rewrite rev_alt. by apply Forall_reverse.
Qed.

(** [trim] answers the string without the white space at its two ends. *)
Lemma trim_stripOf (s : list N) : stripOf s (Js.trim s).
Proof.
  split; [apply trim_trimmed|].
  destruct (trimStart_blanks s) as (before & Hs & Hb).
  destruct (trimEnd_blanks (Js.trimStart s)) as (after & Ht & Ha).
  exists before, after. split; [|done].
  unfold Js.trim. by rewrite <- Ht.
Qed.

(** There is one such string only. *)
Lemma stripOf_unique (raw s : list N) : stripOf raw s → s = Js.trim raw.
Proof.
  intros (Ht & before & after & -> & Hb & Ha).
  assert (Hstart : ∀ l r, Forall blank l → Js.trimStart (l ++ r) = Js.trimStart r).
  { intros l r Hl. induction Hl as [|c l Hc _ IH]; [done|].
    simpl. apply isWhiteSpace_blank in Hc. by rewrite Hc. }
  assert (Hend : ∀ l r, Forall blank r → Js.trimEnd (l ++ r) = Js.trimEnd l).
  { intros l r Hr. unfold Js.trimEnd. rewrite rev_app_distr.
    rewrite Hstart; [done|]. rewrite rev_alt. by apply Forall_reverse. }
  destruct Ht as [Hhead Hlast].
  apply trimStart_head in Hhead. apply trimEnd_last in Hlast.
  unfold Js.trim. rewrite Hstart by done.
  destruct s as [|c r].
  - simpl.
    assert (H : Js.trimStart after = []).
    { rewrite <- (app_nil_r after). by rewrite Hstart. }
    by rewrite H.
  - assert (Hc : Js.isWhiteSpace c = false).
    { apply trimStart_fixed in Hhead as [?|(c' & r' & [= <- <-] & ?)]; done. }
    change ((c :: r) ++ after) with (c :: (r ++ after)).
    cbn [Js.trimStart]. rewrite Hc.
    change (c :: r ++ after) with ((c :: r) ++ after).
    by rewrite Hend.
Qed.

(** *** The entries of a field *)

(** A string without the separator is its own single piece. *)
Lemma split_no_sep (sep : N) (s : list N) : sep ∉ s → Js.split sep s = [s].
Proof.
  induction s as [|c s IH]; [done|].
  intros Hn. apply not_elem_of_cons in Hn as [Hc Hs].
  simpl. destruct (N.eqb_spec c sep); [congruence|].
  by rewrite IH.
Qed.

Lemma split_nonempty (sep : N) (s : list N) : Js.split sep s ≠ [].
Proof.
  destruct s as [|c s]; [done|]. simpl.
  destruct (c =? sep); [done|]. by destruct (Js.split sep s).
Qed.

Lemma split_entriesFrom (current field : list N) :
  entriesFrom current field
  = match Js.split 44 field with
    | p :: ps => (current ++ p) :: ps
    | [] => [current]
    end.
Proof.
  revert current. induction field as [|c rest IH]; intros current; simpl.
  - by rewrite app_nil_r.
  - destruct (N.eqb_spec c 44) as [->|Hc].
    + rewrite bool_decide_eq_true_2 by done. rewrite app_nil_r, (IH []).
      destruct (Js.split 44 rest) eqn:E; [by apply split_nonempty in E|done].
    + rewrite bool_decide_eq_false_2 by done. rewrite IH.
      destruct (Js.split 44 rest); [done|]. by rewrite <- app_assoc.
Qed.

Lemma entriesFrom_entriesOf (current field : list N) :
  44 ∉ current → entriesOf (current ++ field) (entriesFrom current field).
Proof.
  revert current. induction field as [|c rest IH]; intros current Hc; cbn [entriesFrom app].
  - rewrite app_nil_r. by constructor.
  - case_bool_decide as Hcomma.
    + subst c. constructor; [done|]. apply (IH []). apply not_elem_of_nil.
    + replace (current ++ c :: rest) with ((current ++ [c]) ++ rest)
        by (by rewrite <- app_assoc).
      apply IH. rewrite elem_of_app, list_elem_of_singleton.
      intros [?|?]; [done|]. by apply Hcomma.
Qed.

Lemma entriesFrom_no_comma (current e : list N) :
  44 ∉ e → entriesFrom current e = [current ++ e].
Proof.
  revert current. induction e as [|c e IH]; intros current He; cbn [entriesFrom app].
  - by rewrite app_nil_r.
  - apply not_elem_of_cons in He as [Hc He].
    rewrite bool_decide_eq_false_2 by done.
    rewrite IH by done. by rewrite <- app_assoc.
Qed.

Lemma entriesFrom_comma (current e rest : list N) :
  44 ∉ e →
  entriesFrom current (e ++ 44 :: rest) = (current ++ e) :: entriesFrom [] rest.
Proof.
  revert current. induction e as [|c e IH]; intros current He; cbn [entriesFrom app].
  - rewrite bool_decide_eq_true_2 by done. by rewrite app_nil_r.
  - apply not_elem_of_cons in He as [Hc He].
    rewrite bool_decide_eq_false_2 by done.
    rewrite IH by done. by rewrite <- app_assoc.
Qed.

(** The entries of a field are determined by the field. *)
Lemma entriesOf_unique (field : list N) (es : list (list N)) :
  entriesOf field es ↔ es = entriesFrom [] field.
Proof.
  split.
  - induction 1 as [e He|e rest es He _ IH].
    + by rewrite entriesFrom_no_comma.
    + by rewrite entriesFrom_comma, IH.
  - intros ->. apply (entriesFrom_entriesOf []). apply not_elem_of_nil.
Qed.

Lemma strip_stripOf (raw : list N) : stripOf raw (strip raw).
Proof. rewrite <- trim_strip. apply trim_stripOf. Qed.

(** The labels of a reservation are determined by its slot field. *)
Lemma occupiesLabels_unique (b : Booking.t) (labels : list (list N)) :
  occupiesLabels b labels ↔ labels = labelsOf b.
Proof.
  unfold occupiesLabels, labelsOf. split.
  - intros (es & Hes & Hall). apply entriesOf_unique in Hes as <-.
    induction Hall as [|e l es ls He _ IH]; [done|].
    simpl. rewrite <- IH. f_equal.
    rewrite <- trim_strip. by apply stripOf_unique.
  - intros ->. exists (entriesFrom [] (Booking.slot b)).
    split; [by apply entriesOf_unique|].
    apply Forall2_fmap_r, Forall_Forall2_diag, Forall_forall.
    intros e _. apply strip_stripOf.
Qed.

(** The labels the code reads off a reservation are those the
    specification says it occupies. *)
Lemma bookedSlots_labelsOf (b : Booking.t) : bookedSlots b = labelsOf b.
Proof.
  unfold bookedSlots, labelsOf. rewrite split_entriesFrom.
  destruct (Js.split 44 (Booking.slot b)) eqn:E; [by apply split_nonempty in E|].
  cbn [app]. apply map_ext. intros s. apply trim_strip.
Qed.


(** ** Sorting *)

Section SortFacts.
Context {A : Type} (leb : A → A → bool).

Lemma sort_insert_perm (x : A) (l : list A) : Js.sort_insert leb x l ≡ₚ x :: l.
Proof.
  induction l as [|y l IH]; [done|].
  simpl. destruct (leb x y); [done|].
  rewrite IH. apply Permutation_swap.
Qed.

Lemma sort_by_perm (l : list A) : Js.sort_by leb l ≡ₚ l.
Proof.
  induction l as [|x l IH]; [done|].
  simpl. by rewrite sort_insert_perm, IH.
Qed.

Lemma elem_of_sort_by (x : A) (l : list A) : x ∈ Js.sort_by leb l ↔ x ∈ l.
Proof. by rewrite sort_by_perm. Qed.

Lemma sort_by_singleton (x : A) : Js.sort_by leb [x] = [x].
Proof. done. Qed.

End SortFacts.

Section SortedBy.
Context {A : Type} (leb : A → A → bool).
Hypothesis leb_total : ∀ a b, leb a b = false → leb b a = true.
Hypothesis leb_trans : ∀ a b c, leb a b = true → leb b c = true → leb a c = true.

Lemma sort_insert_sorted_by (x : A) (l : list A) :
  StronglySorted (fun a b => leb a b = true) l →
  StronglySorted (fun a b => leb a b = true) (Js.sort_insert leb x l).
Proof.
  induction 1 as [|y l Hs IH Hall]; simpl.
  - repeat constructor.
  - destruct (leb x y) eqn:Hxy.
    + constructor; [by constructor|]. constructor; [done|].
      eapply Forall_impl; [exact Hall|]. intros z Hyz. by eapply leb_trans.
    + constructor; [done|].
      rewrite sort_insert_perm. constructor; [by apply leb_total|done].
Qed.

Lemma sort_by_sorted (l : list A) :
  StronglySorted (fun a b => leb a b = true) (Js.sort_by leb l).
Proof.
  induction l as [|x l IH]; simpl; [constructor|].
  by apply sort_insert_sorted_by.
Qed.

End SortedBy.

Lemma StronglySorted_filter {A} (R : A → A → Prop) (f : A → bool) (l : list A) :
  StronglySorted R l → StronglySorted R (List.filter f l).
Proof.
  induction 1 as [|x l Hs IH Hall]; simpl; [constructor|].
  destruct (f x); [|done]. constructor; [done|].
  rewrite Forall_forall in Hall |- *. intros y Hy.
  apply Hall. apply list_elem_of_In, filter_In in Hy as [Hy _].
  by apply list_elem_of_In.
Qed.

Lemma StronglySorted_weaken {A} (R R' : A → A → Prop) (P : A → Prop) (l : list A) :
  (∀ a b, P a → P b → R a b → R' a b) →
  Forall P l → StronglySorted R l → StronglySorted R' l.
Proof.
  intros Himp Hp Hs. induction Hs as [|x l Hs IH Hall]; [constructor|].
  apply Forall_cons in Hp as [Hx Hp]. constructor; [by apply IH|].
  rewrite Forall_forall in Hall, Hp |- *. intros y Hy.
  apply Himp; [done|by apply Hp|by apply Hall].
Qed.

(** *** The order of strings *)

Lemma str_ltb_irrefl (a : list N) : Js.str_ltb a a = false.
Proof.
  induction a as [|x a IH]; [done|]. simpl.
  by rewrite N.ltb_irrefl.
Qed.

Lemma str_ltb_asym (a b : list N) : Js.str_ltb a b = true → Js.str_ltb b a = false.
Proof.
  revert b. induction a as [|x a IH]; intros [|y b]; simpl; try done.
  destruct (N.ltb_spec x y), (N.ltb_spec y x); try done; try lia.
  apply IH.
Qed.

(** If [a < c] then any [b] is above [a] or below [c]. *)
Lemma str_ltb_between (a b c : list N) :
  Js.str_ltb a c = true → Js.str_ltb a b = true ∨ Js.str_ltb b c = true.
Proof.
  revert b c. induction a as [|x a IH]; intros [|y b] [|z c]; simpl; try done;
    try (intros _; by left); try (intros _; by right).
  destruct (N.ltb_spec x z), (N.ltb_spec z x), (N.ltb_spec x y),
    (N.ltb_spec y x), (N.ltb_spec y z), (N.ltb_spec z y);
    try done; try lia; try (intros _; by left); try (intros _; by right).
  apply IH.
Qed.

Lemma str_ltb_total (a b : list N) :
  Js.str_ltb a b = false → Js.str_ltb b a = false → a = b.
Proof.
  revert b. induction a as [|x a IH]; intros [|y b]; simpl; try done.
  destruct (N.ltb_spec x y), (N.ltb_spec y x); try done; try lia.
  intros H1 H2. assert (x = y) as -> by lia. f_equal. by apply IH.
Qed.

(** The comparison of the language is the order on code units. *)
Lemma str_ltb_codeUnitsLe (a b : list N) : Js.str_ltb b a = false ↔ codeUnitsLe a b.
Proof.
  revert b. induction a as [|x a IH]; intros b.
  - split; [constructor|]. by destruct b.
  - destruct b as [|y b]; [split; [done|inversion 1]|]. simpl.
    destruct (N.ltb_spec y x), (N.ltb_spec x y); try lia.
    + split; [done|]. inversion 1; subst; lia.
    + split; [by constructor|done].
    + assert (x = y) as -> by lia. rewrite IH. split; [by constructor|].
      inversion 1; subst; [lia|done].
Qed.

Lemma sort_default_sorted (l : list (list N)) :
  StronglySorted codeUnitsLe (Js.sort_default l).
Proof.
  unfold Js.sort_default.
  apply (StronglySorted_weaken
           (fun a b => negb (Js.str_ltb b a) = true) _ (fun _ => True)).
  - intros a b _ _ H. apply str_ltb_codeUnitsLe. by apply negb_true_iff.
  - by apply Forall_forall.
  - apply sort_by_sorted.
    + intros a b H. apply negb_false_iff in H.
      apply negb_true_iff. by apply str_ltb_asym.
    + intros a b c H1 H2. apply negb_true_iff in H1, H2. apply negb_true_iff.
      destruct (Js.str_ltb c a) eqn:H3; [|done].
      destruct (str_ltb_between _ b _ H3); congruence.
Qed.


Lemma sort_insert_sorted (x : Z) (l : list Z) :
  StronglySorted Z.le l → StronglySorted Z.le (Js.sort_insert Z.leb x l).
Proof.
  induction 1 as [|y l Hs IH Hall]; simpl.
  - repeat constructor.
  - destruct (Z.leb_spec x y).
    + constructor; [by constructor|].
      constructor; [done|].
      eapply Forall_impl; [exact Hall|]. intros; simpl in *; lia.
    + constructor; [done|].
      rewrite sort_insert_perm. constructor; [lia|done].
Qed.

Lemma sort_numeric_sorted (l : list Z) : StronglySorted Z.le (Js.sort_numeric l).
Proof.
  unfold Js.sort_numeric. induction l as [|x l IH]; simpl.
  - constructor.
  - by apply sort_insert_sorted.
Qed.

(** The loop of step 4d finds a pair exactly when two neighbours differ
    by one. *)
Lemma hasConsecutive_adjacent (l : list Z) :
  hasConsecutive l = true ↔ adjacentStep l.
Proof.
  unfold adjacentStep. induction l as [|a rest IH]; simpl.
  - split; [done|]. by intros (i & x & H & _).
  - destruct rest as [|b r].
    + split; [done|]. intros (i & x & _ & H). by destruct i.
    + destruct (Z.eqb_spec b (a + 1)) as [->|Hne].
      * split; [|done]. intros _. by exists 0%nat, a.
      * rewrite IH. split.
        -- intros (i & x & H1 & H2). by exists (S i), x.
        -- intros (i & x & H1 & H2). destruct i as [|i].
           ++ simpl in *. congruence.
           ++ by exists i, x.
Qed.

(** On a sorted list, two neighbours differ by one as soon as the list
    holds some number together with its successor. *)
Lemma sorted_adjacent (l : list Z) :
  StronglySorted Z.le l →
  (adjacentStep l ↔ ∃ x, x ∈ l ∧ (x + 1)%Z ∈ l).
Proof.
  intros Hs. split.
  - intros (i & a & H1 & H2). exists a.
    split; eapply list_elem_of_lookup_2; eauto.
  - rewrite <- hasConsecutive_adjacent.
    induction Hs as [|a rest Hs IH Hall]; intros (x & Hx & Hx1).
    + by apply elem_of_nil in Hx.
    + simpl. destruct rest as [|b r].
      * apply list_elem_of_singleton in Hx, Hx1. lia.
      * destruct (Z.eqb_spec b (a + 1)) as [|Hne]; [done|].
        apply IH. rewrite Forall_forall in Hall.
        assert (Hb : (a ≤ b)%Z) by (apply Hall; left).
        assert (Hmin : ∀ y, y ∈ b :: r → (b ≤ y)%Z).
        { intros y Hy. apply elem_of_cons in Hy as [->|Hy]; [lia|].
          apply StronglySorted_inv in Hs as [_ Hr].
          rewrite Forall_forall in Hr. by apply Hr. }
        assert (Hx1r : (x + 1)%Z ∈ b :: r).
        { apply elem_of_cons in Hx1 as [Heq|]; [|done].
          apply elem_of_cons in Hx as [->|Hx]; [lia|].
          apply Hall in Hx. lia. }
        exists x. split; [|done].
        apply elem_of_cons in Hx as [->|]; [|done].
        apply Hmin in Hx1r. assert (b = a) as -> by lia. left.
Qed.

(** ** [indexOf] and [Set] *)

Lemma indexOf_from_spec (a : list (list N)) (x : list N) (i : Z) :
  (0 ≤ i)%Z →
  (Js.indexOf_from a x i = (-1)%Z ∧ x ∉ a) ∨
  ((i ≤ Js.indexOf_from a x i)%Z
   ∧ a !! Z.to_nat (Js.indexOf_from a x i - i) = Some x).
Proof.
  revert i. induction a as [|y a IH]; intros i Hi; simpl.
  - left. split; [done|]. apply not_elem_of_nil.
  - case_bool_decide as Hy.
    + right. split; [lia|]. by rewrite Z.sub_diag, Hy.
    + destruct (IH (i + 1)%Z) as [[H1 H2]|[H1 H2]]; [lia| |].
      * left. split; [done|]. rewrite not_elem_of_cons. by split.
      * right. split; [lia|].
        replace (Z.to_nat (Js.indexOf_from a x (i + 1) - i))
          with (S (Z.to_nat (Js.indexOf_from a x (i + 1) - (i + 1)))) by lia.
        done.
Qed.

Lemma indexOf_found (a : list (list N)) (x : list N) :
  Js.indexOf a x ≠ (-1)%Z →
  (0 ≤ Js.indexOf a x)%Z ∧ a !! Z.to_nat (Js.indexOf a x) = Some x.
Proof.
  unfold Js.indexOf. intros Hne.
  destruct (indexOf_from_spec a x 0) as [[H1 _]|[H1 H2]]; [lia|done|].
  split; [done|]. by rewrite Z.sub_0_r in H2.
Qed.

Lemma indexOf_from_first (a : list (list N)) (x : list N) (i : Z) (k : nat) :
  NoDup a → a !! k = Some x → Js.indexOf_from a x i = (i + Z.of_nat k)%Z.
Proof.
  intros Hnd. revert i k. induction Hnd as [|y a Hy Hnd IH]; intros i k Hk.
  - done.
  - simpl. destruct k as [|k]; simpl in Hk.
    + injection Hk as ->. rewrite bool_decide_eq_true_2 by done. lia.
    + rewrite bool_decide_eq_false_2.
      * rewrite (IH _ k) by done. lia.
      * intros ->. apply Hy. eapply list_elem_of_lookup_2; eauto.
Qed.

Lemma TIME_SLOTS_NoDup : NoDup TIME_SLOTS.
Proof. apply (bool_decide_unpack (NoDup TIME_SLOTS)). by vm_compute. Qed.

(** [indexOf] on the catalog answers the position of a label, and [-1]
    for anything else. *)
Lemma indexOf_position (s : list N) (z : Z) :
  positionOf s z ↔ Js.indexOf TIME_SLOTS s = z ∧ z ≠ (-1)%Z.
Proof.
  unfold positionOf. split.
  - intros [Hz Hk]. unfold Js.indexOf.
    rewrite (indexOf_from_first _ _ _ _ TIME_SLOTS_NoDup Hk). lia.
  - intros [<- Hne]. by apply indexOf_found.
Qed.

Lemma elem_of_Set_fold (acc a : list (list N)) (x : list N) :
  x ∈ foldl Js.Set_add acc a ↔ x ∈ acc ∨ x ∈ a.
Proof.
  revert acc. induction a as [|y a IH]; intros acc; simpl.
  - rewrite elem_of_nil. tauto.
  - rewrite IH, elem_of_cons. unfold Js.Set_add.
    case_bool_decide as Hy.
    + split; [tauto|]. intros [?|[->|?]]; tauto.
    + rewrite elem_of_app, list_elem_of_singleton. tauto.
Qed.

Lemma elem_of_new_Set (a : list (list N)) (x : list N) :
  x ∈ Js.new_Set a ↔ x ∈ a.
Proof.
  unfold Js.new_Set. rewrite elem_of_Set_fold, elem_of_nil. tauto.
Qed.

(** ** The slot index *)

Lemma SlotInfo_eq (a b : SlotInfo) :
  count a = count b → hasLeader a = hasLeader b → a = b.
Proof. destruct a, b; simpl; congruence. Qed.

Lemma occurrences_cons (s p : list N) (parts : list (list N)) :
  occurrences s (p :: parts)
  = ((if bool_decide (p = s) then 1 else 0) + occurrences s parts)%nat.
Proof. unfold occurrences. simpl. by case_bool_decide. Qed.

Lemma occurrences_pos (s : list N) (parts : list (list N)) :
  (0 < occurrences s parts)%nat ↔ s ∈ parts.
Proof.
  induction parts as [|p parts IH].
  - unfold occurrences; simpl. rewrite elem_of_nil. lia.
  - rewrite occurrences_cons, elem_of_cons.
    case_bool_decide as Hp.
    + split; [intros _; by left|lia].
    + rewrite <- IH. split; [intros H; right; lia|]. intros [?|?]; [done|lia].
Qed.

Lemma occurrences_singleton (s p : list N) :
  occurrences s [p] = if bool_decide (p = s) then 1%nat else 0%nat.
Proof. rewrite occurrences_cons. unfold occurrences; simpl. lia. Qed.

Lemma bump_lookup (isLeader : bool) (st : gmap (list N) SlotInfo) (p s : list N) :
  bump isLeader st p !! s =
  if decide (p = s)
  then Some {| count := S (count (getOrZero st s));
               hasLeader := hasLeader (getOrZero st s) || isLeader |}
  else st !! s.
Proof.
  unfold bump. case_decide as H.
  - subst. by rewrite lookup_insert_eq.
  - by rewrite lookup_insert_ne.
Qed.

Lemma getOrZero_bump (isLeader : bool) (st : gmap (list N) SlotInfo) (p s : list N) :
  getOrZero (bump isLeader st p) s =
  if decide (p = s)
  then {| count := S (count (getOrZero st s));
          hasLeader := hasLeader (getOrZero st s) || isLeader |}
  else getOrZero st s.
Proof.
  unfold getOrZero at 1. rewrite bump_lookup. by case_decide.
Qed.

Lemma fold_bump_get (isLeader : bool) (parts : list (list N))
    (st : gmap (list N) SlotInfo) (s : list N) :
  getOrZero (foldl (bump isLeader) st parts) s =
  {| count := count (getOrZero st s) + occurrences s parts;
     hasLeader := hasLeader (getOrZero st s)
                  || (isLeader && (0 <? occurrences s parts)%nat) |}.
Proof.
  revert st. induction parts as [|p parts IH]; intros st.
  - simpl. apply SlotInfo_eq; simpl.
    + unfold occurrences; simpl; lia.
    + by rewrite andb_false_r, orb_false_r.
  - simpl. rewrite IH, occurrences_cons, getOrZero_bump.
    case_decide as Hp.
    + rewrite bool_decide_eq_true_2 by done. apply SlotInfo_eq; simpl; [lia|].
      by destruct isLeader, (hasLeader (getOrZero st s)).
    + rewrite bool_decide_eq_false_2 by done. by apply SlotInfo_eq.
Qed.

Lemma fold_bump_dom (isLeader : bool) (parts : list (list N))
    (st : gmap (list N) SlotInfo) (s : list N) :
  is_Some (foldl (bump isLeader) st parts !! s) ↔ is_Some (st !! s) ∨ s ∈ parts.
Proof.
  revert st. induction parts as [|p parts IH]; intros st; simpl.
  - rewrite elem_of_nil. tauto.
  - rewrite IH, bump_lookup, elem_of_cons. case_decide as Hp.
    + subst. split; [intros _; right; by left|intros _; left; eauto].
    + split; [tauto|]. intros [?|[->|?]]; [tauto|done|tauto].
Qed.

(** The loop over the reservations of the day, from any starting map. *)
Lemma fold_bookings_get (bs : list Booking.t) (st : gmap (list N) SlotInfo)
    (s : list N) :
  getOrZero
    (foldl (fun st b =>
              foldl (bump (bool_decide (Booking.members b = Js.lit "leader")))
                st (bookedSlots b)) st bs) s =
  {| count := count (getOrZero st s)
              + sum_list_with (fun b => occurrences s (bookedSlots b)) bs;
     hasLeader := hasLeader (getOrZero st s)
                  || List.existsb
                       (fun b => bool_decide (Booking.members b = Js.lit "leader")
                                 && (0 <? occurrences s (bookedSlots b))%nat) bs |}.
Proof.
  revert st. induction bs as [|b bs IH]; intros st.
  - simpl. apply SlotInfo_eq; simpl; [lia|by rewrite orb_false_r].
  - simpl. rewrite IH, fold_bump_get. apply SlotInfo_eq; simpl; [lia|].
    by rewrite orb_assoc.
Qed.

Lemma fold_bookings_dom (bs : list Booking.t) (st : gmap (list N) SlotInfo)
    (s : list N) :
  is_Some
    (foldl (fun st b =>
              foldl (bump (bool_decide (Booking.members b = Js.lit "leader")))
                st (bookedSlots b)) st bs !! s)
  ↔ is_Some (st !! s) ∨ ∃ b, b ∈ bs ∧ s ∈ bookedSlots b.
Proof.
  revert st. induction bs as [|b bs IH]; intros st; simpl.
  - split; [tauto|]. intros [?|(b & Hb & _)]; [done|]. by apply elem_of_nil in Hb.
  - rewrite IH, fold_bump_dom. split.
    + intros [[?|?]|(b' & Hb' & ?)]; [tauto| |].
      * right. exists b. split; [left|done].
      * right. exists b'. split; [by right|done].
    + intros [?|(b' & Hb' & ?)]; [tauto|].
      apply elem_of_cons in Hb' as [->|?]; [tauto|]. right. eauto.
Qed.

(** The initialisation of the map with the catalog. *)
Lemma fold_init_lookup (labels : list (list N)) (st : gmap (list N) SlotInfo)
    (s : list N) :
  foldl (fun st t => <[t := no_info]> st) st labels !! s =
  if decide (s ∈ labels) then Some no_info else st !! s.
Proof.
  revert st. induction labels as [|t labels IH]; intros st; cbn [foldl].
  - rewrite decide_False; [done|apply not_elem_of_nil].
  - rewrite IH. destruct (decide (s ∈ labels)) as [H1|H1].
    + rewrite decide_True; [done|by right].
    + destruct (decide (s = t)) as [->|Hne].
      * rewrite lookup_insert_eq, decide_True; [done|left].
      * rewrite lookup_insert_ne by done. rewrite decide_False; [done|].
        rewrite not_elem_of_cons. by split.
Qed.

Lemma sum_filter_date (bs : list Booking.t) (date s : list N) :
  sum_list_with (fun b => occurrences s (bookedSlots b))
    (List.filter (fun b => bool_decide (Booking.date b = date)) bs)
  = occupantCount bs date s.
Proof.
  unfold occupantCount, occupies. induction bs as [|b bs IH]; [done|].
  simpl. rewrite <- bookedSlots_labelsOf. case_bool_decide; simpl; lia.
Qed.

Lemma existsb_filter_date (bs : list Booking.t) (date s : list N) :
  List.existsb
    (fun b => bool_decide (Booking.members b = Js.lit "leader")
              && (0 <? occurrences s (bookedSlots b))%nat)
    (List.filter (fun b => bool_decide (Booking.date b = date)) bs)
  = leaderPresent bs date s.
Proof.
  unfold leaderPresent, occupies. induction bs as [|b bs IH]; [done|].
  simpl. rewrite <- bookedSlots_labelsOf.
  case_bool_decide; simpl; rewrite IH; [done|].
  by rewrite andb_false_r.
Qed.

Lemma occupantCount_pos (bs : list Booking.t) (date s : list N) :
  (0 < occupantCount bs date s)%nat
  ↔ ∃ b, b ∈ bs ∧ Booking.date b = date ∧ s ∈ bookedSlots b.
Proof.
  setoid_rewrite bookedSlots_labelsOf.
  unfold occupantCount, occupies. induction bs as [|b bs IH]; simpl.
  - split; [lia|]. intros (b & Hb & _). by apply elem_of_nil in Hb.
  - split.
    + intros H. case_bool_decide as Hd.
      * destruct (decide (0 < occurrences s (labelsOf b))%nat) as [Ho|Ho].
        -- exists b. rewrite occurrences_pos in Ho. split; [left|done].
        -- destruct IH as [IH _]. destruct IH as (b' & ? & ?); [lia|].
           exists b'. split; [by right|done].
      * destruct IH as [IH _]. destruct IH as (b' & ? & ?); [lia|].
        exists b'. split; [by right|done].
    + intros (b' & Hb' & Hd & Hs). apply elem_of_cons in Hb' as [->|Hb'].
      * rewrite bool_decide_eq_true_2 by done.
        apply occurrences_pos in Hs. lia.
      * destruct IH as [_ IH]. assert (0 < sum_list_with
          (λ b0 : Booking.t, if bool_decide (Booking.date b0 = date)
             then occurrences s (labelsOf b0) else 0%nat) bs)%nat by eauto.
        lia.
Qed.

(** The map of the source holds, label by label, the numbers of the
    specification. *)
Lemma slotStatus_get (bs : list Booking.t) (date s : list N) :
  getOrZero (slotStatus bs date) s =
  {| count := occupantCount bs date s; hasLeader := leaderPresent bs date s |}.
Proof.
  unfold slotStatus. rewrite fold_bookings_get.
  rewrite sum_filter_date, existsb_filter_date.
  unfold getOrZero at 1 2. rewrite fold_init_lookup.
  case_decide; by apply SlotInfo_eq.
Qed.

Lemma slotStatus_dom (bs : list Booking.t) (date s : list N) :
  is_Some (slotStatus bs date !! s)
  ↔ s ∈ TIME_SLOTS ∨ (0 < occupantCount bs date s)%nat.
Proof.
  unfold slotStatus. rewrite fold_bookings_dom, fold_init_lookup.
  rewrite occupantCount_pos. split.
  - intros [H|(b & Hb & Hs)].
    + case_decide; [by left|]. by destruct H.
    + right. exists b. apply list_elem_of_In, filter_In in Hb as [Hb Hd].
      apply bool_decide_eq_true in Hd. by rewrite list_elem_of_In.
  - intros [H|(b & Hb & Hd & Hs)].
    + left. rewrite decide_True by done. eauto.
    + right. exists b. split; [|done].
      apply list_elem_of_In, filter_In. rewrite <- list_elem_of_In.
      split; [done|]. by apply bool_decide_eq_true.
Qed.

Lemma slotStatus_lookup (bs : list Booking.t) (date s : list N) :
  slotStatus bs date !! s =
  if decide (s ∈ TIME_SLOTS ∨ (0 < occupantCount bs date s)%nat)
  then Some {| count := occupantCount bs date s;
               hasLeader := leaderPresent bs date s |}
  else None.
Proof.
  pose proof (slotStatus_get bs date s) as Hg.
  pose proof (slotStatus_dom bs date s) as Hd.
  unfold getOrZero in Hg. case_decide as H.
  - apply Hd in H as [o Ho]. rewrite Ho in Hg |- *. simpl in Hg. by subst.
  - destruct (slotStatus bs date !! s) eqn:E; [|done].
    exfalso. apply H, Hd. eauto.
Qed.

Lemma filter_date_idem (bs : list Booking.t) (date : list N) :
  List.filter (fun b => bool_decide (Booking.date b = date))
    (List.filter (fun b => bool_decide (Booking.date b = date)) bs)
  = List.filter (fun b => bool_decide (Booking.date b = date)) bs.
Proof.
  induction bs as [|b bs IH]; [done|]. simpl.
  destruct (bool_decide (Booking.date b = date)) eqn:E; [|done].
  simpl. by rewrite E, IH.
Qed.

Lemma occupantCount_snoc (bs : list Booking.t) (b : Booking.t) (date s : list N) :
  occupantCount (bs ++ [b]) date s
  = (occupantCount bs date s + occupies b date s)%nat.
Proof.
  unfold occupantCount. rewrite sum_list_with_app. simpl. lia.
Qed.

Lemma leaderPresent_snoc (bs : list Booking.t) (b : Booking.t) (date s : list N) :
  leaderPresent (bs ++ [b]) date s
  = leaderPresent bs date s
    || (bool_decide (Booking.members b = Js.lit "leader")
        && (0 <? occupies b date s)%nat).
Proof.
  unfold leaderPresent. rewrite existsb_app. simpl. by rewrite orb_false_r.
Qed.

Lemma leaderPresent_true (bs : list Booking.t) (date s : list N) :
  leaderPresent bs date s = true
  ↔ ∃ b, b ∈ bs ∧ Booking.date b = date
         ∧ Booking.members b = Js.lit "leader" ∧ s ∈ bookedSlots b.
Proof.
  setoid_rewrite bookedSlots_labelsOf.
  unfold leaderPresent. rewrite existsb_exists. split.
  - intros (b & Hb & H). apply andb_true_iff in H as [Hm Ho].
    apply bool_decide_eq_true in Hm. apply Nat.ltb_lt in Ho.
    unfold occupies in Ho. case_bool_decide as Hd; [|lia].
    apply occurrences_pos in Ho. exists b. by rewrite list_elem_of_In.
  - intros (b & Hb & Hd & Hm & Hs). exists b.
    split; [by apply list_elem_of_In|].
    apply andb_true_iff. split; [by apply bool_decide_eq_true|].
    apply Nat.ltb_lt. unfold occupies. rewrite bool_decide_eq_true_2 by done.
    by apply occurrences_pos.
Qed.

(** C7. For every reservation list and every date, the map computed by
    [slotStatus] has an entry for each label of the catalog; the entry is
    occupantCount 0 and hasLeader false when no reservation matches; the map
    is built only from the reservations of that date; and each further
    reservation of that date adds one to the count of every label it
    occupies and ors hasLeader with whether its role is leader.  The labels
    a reservation occupies are the entries of its slot field between commas,
    each without the white space around it. *)
Theorem slotStatus_index (reservations : list Booking.t) (date : list N) :
  Forall (fun s =>
            slotStatus reservations date !! s
            = Some {| count := occupantCount reservations date s;
                      hasLeader := leaderPresent reservations date s |})
         TIME_SLOTS
  ∧ Forall (fun s =>
              slotStatus [] date !! s = Some {| count := 0; hasLeader := false |})
           TIME_SLOTS
  ∧ slotStatus reservations date
    = slotStatus
        (List.filter (fun b => bool_decide (Booking.date b = date)) reservations)
        date
  ∧ (∀ (b : Booking.t) (s : list N),
       getOrZero (slotStatus (reservations ++ [b]) date) s
       = {| count := count (getOrZero (slotStatus reservations date) s)
                     + occupies b date s;
            hasLeader := hasLeader (getOrZero (slotStatus reservations date) s)
                         || (bool_decide (Booking.members b = Js.lit "leader")
                             && (0 <? occupies b date s)%nat) |})
  ∧ ∀ (b : Booking.t) (s : list N),
      (∃ labels, occupiesLabels b labels)
      ∧ ∀ labels, occupiesLabels b labels →
          occupies b date s
          = if bool_decide (Booking.date b = date) then occurrences s labels
            else 0%nat.
Proof.
  split; [|split; [|split; [|split]]].
  - apply Forall_forall. intros s Hs. rewrite slotStatus_lookup.
    rewrite decide_True; [done|by left].
  - apply Forall_forall. intros s Hs. rewrite slotStatus_lookup.
    rewrite decide_True; [done|by left].
  - unfold slotStatus. by rewrite filter_date_idem.
  - intros b s. rewrite !slotStatus_get. simpl.
    by rewrite occupantCount_snoc, leaderPresent_snoc.
  - intros b s. split.
    + exists (labelsOf b). by apply occupiesLabels_unique.
    + intros labels Hl. apply occupiesLabels_unique in Hl as ->. done.
Qed.

(** ** Consecutive leadership *)

Lemma elem_of_existingLeaderSlots (bs : list Booking.t) (date name s : list N) :
  s ∈ existingLeaderSlots bs date name
  ↔ ∃ b, b ∈ bs ∧ Booking.date b = date ∧ Booking.leader b = Js.trim name
         ∧ Booking.members b = Js.lit "leader" ∧ s ∈ bookedSlots b.
Proof.
  unfold existingLeaderSlots. rewrite list_elem_of_In, in_flat_map. split.
  - intros (b & Hb & Hs). apply filter_In in Hb as [Hb Hc].
    apply andb_true_iff in Hc as [Hc Hm]. apply andb_true_iff in Hc as [Hd Hl].
    apply bool_decide_eq_true in Hd, Hl, Hm.
    exists b. by rewrite !list_elem_of_In.
  - intros (b & Hb & Hd & Hl & Hm & Hs). exists b.
    rewrite filter_In, <- !list_elem_of_In. repeat split; [done| |done].
    rewrite !andb_true_iff. repeat split; by apply bool_decide_eq_true.
Qed.

Lemma elem_of_existingLeaderSlots_spec (bs : list Booking.t)
    (date name s : list N) :
  s ∈ existingLeaderSlots bs date name
  ↔ ∃ b, b ∈ bs ∧ Booking.date b = date ∧ Booking.leader b = strip name
         ∧ Booking.members b = Js.lit "leader" ∧ s ∈ labelsOf b.
Proof.
  rewrite elem_of_existingLeaderSlots, trim_strip.
  by setoid_rewrite bookedSlots_labelsOf.
Qed.

Lemma elem_of_leaderIndices (bs : list Booking.t) (date name : list N)
    (sel : list (list N)) (z : Z) :
  z ∈ leaderIndices bs date name sel
  ↔ ∃ s, projectedLeaderSlot bs date name sel s ∧ positionOf s z.
Proof.
  unfold leaderIndices, Js.sort_numeric. rewrite elem_of_sort_by.
  rewrite list_elem_of_In, filter_In, in_map_iff. split.
  - intros [(s & Hi & Hs) Hz]. exists s.
    apply negb_true_iff, Z.eqb_neq in Hz.
    split; [|by apply indexOf_position].
    apply list_elem_of_In, elem_of_new_Set, elem_of_app in Hs as [Hs|Hs].
    + right. by apply elem_of_existingLeaderSlots_spec.
    + by left.
  - intros (s & Hp & Hz). apply indexOf_position in Hz as [Hi Hz].
    split; [|by apply negb_true_iff, Z.eqb_neq].
    exists s. split; [done|].
    apply list_elem_of_In, elem_of_new_Set, elem_of_app.
    destruct Hp as [?|Hp]; [by right|left].
    by apply elem_of_existingLeaderSlots_spec.
Qed.

Lemma leaderIndices_sorted (bs : list Booking.t) (date name : list N)
    (sel : list (list N)) :
  StronglySorted Z.le (leaderIndices bs date name sel).
Proof. apply sort_numeric_sorted. Qed.

(** What the loop of step 3 can answer. *)
Lemma checkSlots_reason (status : gmap (list N) SlotInfo) (role : Role)
    (sel : list (list N)) (r : Reason) :
  checkSlots status role sel = Some r →
  ∃ s o, s ∈ sel ∧ status !! s = Some o ∧
    ((r = SlotFull s ∧ (MAX_CAPACITY ≤ count o)%nat)
     ∨ (r = LeaderConflict s ∧ role = Leader ∧ hasLeader o = true)).
Proof.
  induction sel as [|s sel IH]; cbn [checkSlots]; [done|].
  destruct (status !! s) as [o|] eqn:Ho.
  - destruct (Nat.leb_spec MAX_CAPACITY (count o)).
    + intros [= <-]. exists s, o. split; [left|]. split; [done|]. by left.
    + destruct (is_leader role && hasLeader o) eqn:Hl.
      * intros [= <-]. exists s, o. split; [left|]. split; [done|]. right.
        apply andb_true_iff in Hl as [Hr Hl]. by destruct role.
      * intros Hr. destruct (IH Hr) as (s' & o' & ? & ?).
        exists s', o'. split; [by right|done].
  - intros Hr. destruct (IH Hr) as (s' & o' & ? & ?).
    exists s', o'. split; [by right|done].
Qed.

(** The loop of step 3 on one slot of the catalog, in the numbers of the
    specification. *)
Lemma checkSlots_single (bs : list Booking.t) (date : list N) (role : Role)
    (s : list N) :
  s ∈ TIME_SLOTS →
  checkSlots (slotStatus bs date) role [s] =
  if (MAX_CAPACITY <=? occupantCount bs date s)%nat then Some (SlotFull s)
  else if is_leader role && leaderPresent bs date s then Some (LeaderConflict s)
       else None.
Proof.
  intros Hs. cbn [checkSlots]. rewrite slotStatus_lookup.
  rewrite decide_True by (by left). cbn [count hasLeader].
  destruct (_ <=? _)%nat; [done|]. by destruct (_ && _).
Qed.

(** C2. For a leader request, the positions the stage looks at are the
    sorted catalog positions of the slots the history already records the
    booker as leading on that date together with the requested ones; the
    stage rejects with ConsecutiveLeadership exactly when two neighbours of
    that sorted list differ by one.  In particular a booker who leads the
    slot at position [i] and asks to lead the one at position [i + 1] is
    rejected, and for that reason when the earlier stages pass.  For a
    member request the stage does nothing. *)
Theorem consecutive_leadership_stage (history : list Booking.t)
    (date name : list N) (selectedSlots : list (list N)) :
  let positions := leaderIndices history date name selectedSlots in
  StronglySorted Z.le positions
  ∧ (∀ z, z ∈ positions
          ↔ ∃ s, projectedLeaderSlot history date name selectedSlots s
                 ∧ positionOf s z)
  ∧ (checkConsecutive history date Leader name selectedSlots
       = Some ConsecutiveLeadership ↔ adjacentStep positions)
  ∧ (checkConsecutive history date Leader name selectedSlots = None
       ↔ ¬ adjacentStep positions)
  ∧ checkConsecutive history date Member name selectedSlots = None
  ∧ validate history date Member name selectedSlots ≠ Some ConsecutiveLeadership
  ∧ ∀ (b : Booking.t) (i : nat) (held wanted : list N),
      b ∈ history → Booking.date b = date → Booking.leader b = Js.trim name →
      Booking.members b = Js.lit "leader" →
      TIME_SLOTS !! i = Some held → held ∈ bookedSlots b →
      TIME_SLOTS !! S i = Some wanted → selectedSlots = [wanted] →
      validate history date Leader name selectedSlots ≠ None
      ∧ (Js.trim name ≠ [] →
         (occupantCount history date wanted < MAX_CAPACITY)%nat →
         leaderPresent history date wanted = false →
         validate history date Leader name selectedSlots
         = Some ConsecutiveLeadership).
Proof.
  cbv zeta.
  assert (Hstage : checkConsecutive history date Leader name selectedSlots
                   = if hasConsecutive (leaderIndices history date name selectedSlots)
                     then Some ConsecutiveLeadership else None) by done.
  split; [apply leaderIndices_sorted|].
  split; [apply elem_of_leaderIndices|].
  split.
  { rewrite Hstage, <- hasConsecutive_adjacent. by destruct (hasConsecutive _). }
  split.
  { rewrite Hstage, <- hasConsecutive_adjacent. by destruct (hasConsecutive _). }
  split; [done|].
  split.
  { unfold validate. destruct (length selectedSlots =? 0)%nat; [done|].
    case_bool_decide; [done|].
    destruct (checkSlots _ _ _) as [r|] eqn:Hc.
    - apply checkSlots_reason in Hc as (s & o & _ & _ & [[-> _]|[-> _]]); done.
    - simpl. by destruct (isDuplicate _ _ _ _). }
  intros b i held wanted Hb Hd Hl Hm Hheld Hin Hwanted ->.
  assert (Hadj : hasConsecutive (leaderIndices history date name [wanted]) = true).
  { apply hasConsecutive_adjacent, sorted_adjacent; [apply leaderIndices_sorted|].
    exists (Z.of_nat i). rewrite !elem_of_leaderIndices. split.
    - exists held. split.
      + right. exists b. by rewrite <- trim_strip, <- bookedSlots_labelsOf.
      + split; [lia|]. by rewrite Nat2Z.id.
    - exists wanted. split.
      + left. apply list_elem_of_singleton. done.
      + split; [lia|]. by replace (Z.to_nat (Z.of_nat i + 1)) with (S i) by lia. }
  assert (Hw : wanted ∈ TIME_SLOTS) by (eapply list_elem_of_lookup_2; eauto).
  unfold validate. cbn [length Nat.eqb].
  rewrite (checkSlots_single _ _ _ _ Hw), Hstage, Hadj.
  split.
  - case_bool_decide; [done|].
    destruct (_ <=? _)%nat; [done|]. by destruct (_ && _).
  - intros Hn Hc Hp. rewrite bool_decide_eq_false_2 by done.
    destruct (Nat.leb_spec MAX_CAPACITY (occupantCount history date wanted));
      [lia|]. by rewrite Hp.
Qed.

Lemma isDuplicate_true (bs : list Booking.t) (date name : list N)
    (sel : list (list N)) :
  isDuplicate bs date name sel = true
  ↔ ∃ b, b ∈ bs ∧ Booking.date b = date ∧ Booking.leader b = Js.trim name
         ∧ ∃ s, s ∈ bookedSlots b ∧ s ∈ sel.
Proof.
  unfold isDuplicate. rewrite existsb_exists. split.
  - intros (b & Hb & H). exists b. apply list_elem_of_In in Hb.
    case_bool_decide as Hd; [|done]. case_bool_decide as Hl; [|done].
    simpl in H. apply existsb_exists in H as (s & Hs & Hi).
    apply bool_decide_eq_true in Hi. apply list_elem_of_In in Hs. eauto 10.
  - intros (b & Hb & Hd & Hl & s & Hs & Hi). exists b.
    split; [by apply list_elem_of_In|].
    rewrite !bool_decide_eq_true_2 by done. simpl.
    apply existsb_exists. exists s. split; [by apply list_elem_of_In|].
    by apply bool_decide_eq_true.
Qed.

(** ** The order of the checks *)

Lemma firstFailure_None (results : list (option Reason)) :
  firstFailure results = None ↔ Forall (fun o => o = None) results.
Proof.
  induction results as [|[r|] results IH]; simpl.
  - split; [constructor|done].
  - split; [done|]. intros H. by apply Forall_cons in H as [? _].
  - rewrite IH. split; [by constructor|]. intros H. by apply Forall_cons in H as [_ ?].
Qed.

Lemma firstFailure_first (passed later : list (option Reason)) (r : Reason) :
  Forall (fun o => o = None) passed →
  firstFailure (passed ++ Some r :: later) = Some r.
Proof.
  induction 1 as [|o passed -> _ IH]; simpl; done.
Qed.

(** The loop of step 3 on one slot, in the numbers of the specification:
    a label without an entry in the map counts nobody. *)
Lemma checkSlots_one (bs : list Booking.t) (date : list N) (role : Role)
    (s : list N) :
  checkSlots (slotStatus bs date) role [s] =
  if (MAX_CAPACITY <=? occupantCount bs date s)%nat then Some (SlotFull s)
  else if is_leader role && leaderPresent bs date s then Some (LeaderConflict s)
       else None.
Proof.
  cbn [checkSlots]. rewrite slotStatus_lookup. case_decide as H.
  - cbn [count hasLeader]. destruct (_ <=? _)%nat; [done|]. by destruct (_ && _).
  - assert (Hc : occupantCount bs date s = 0%nat) by lia.
    assert (Hl : leaderPresent bs date s = false).
    { destruct (leaderPresent bs date s) eqn:E; [|done].
      apply leaderPresent_true in E as (b & Hb & Hd & _ & Hs).
      assert (0 < occupantCount bs date s)%nat; [|lia].
      apply occupantCount_pos. eauto. }
    rewrite Hc, Hl. simpl. by rewrite andb_false_r.
Qed.

Lemma projectedAt_spec (history : list Booking.t) (date : list N)
    (req : BookingRequest) (p : nat) :
  projectedAt history date req p = true
  ↔ ∃ s, TIME_SLOTS !! p = Some s
         ∧ projectedLeaderSlot history date (bookerName req) (selectionOf req) s.
Proof.
  unfold projectedAt, projectedLeaderSlot.
  destruct (TIME_SLOTS !! p) as [s|]; [|split; [done|by intros (? & ? & _)]].
  rewrite orb_true_iff, bool_decide_eq_true, existsb_exists.
  assert (Hsel : requestSlot req = Some s ↔ s ∈ selectionOf req).
  { unfold selectionOf. destruct (requestSlot req) as [s0|].
    - rewrite list_elem_of_singleton. split; [by intros [= ->]|by intros ->].
    - split; [done|]. intros H. by apply elem_of_nil in H. }
  rewrite Hsel. split.
  - intros [H|(b & Hb & H)]; exists s; (split; [done|]); [by left|right].
    rewrite !andb_true_iff, !bool_decide_eq_true in H.
    exists b. rewrite list_elem_of_In. tauto.
  - intros (s' & [= <-] & [H|(b & Hb & H)]); [by left|right].
    exists b. rewrite !andb_true_iff, !bool_decide_eq_true, <- list_elem_of_In.
    tauto.
Qed.

(** Stage 4 of the specification is step 4 of the handler. *)
Lemma stageConsecutive_check (history : list Booking.t) (date : list N)
    (req : BookingRequest) :
  checkConsecutive history date (requestRole req) (bookerName req) (selectionOf req)
  = stageConsecutive history date req.
Proof.
  unfold checkConsecutive, stageConsecutive.
  destruct (requestRole req); [|done].
  set (sel := selectionOf req). set (name := bookerName req).
  assert (H : hasConsecutive (leaderIndices history date name sel)
              = List.existsb
                  (fun p => projectedAt history date req p
                            && projectedAt history date req (S p))
                  (seq 0 (length TIME_SLOTS))); [|by rewrite H].
  apply eq_true_iff_eq.
  rewrite hasConsecutive_adjacent, sorted_adjacent by apply leaderIndices_sorted.
  rewrite existsb_exists. split.
  - intros (x & Hx & Hx1).
    apply elem_of_leaderIndices in Hx as (s1 & H1 & Hp1 & Hl1).
    apply elem_of_leaderIndices in Hx1 as (s2 & H2 & Hp2 & Hl2).
    replace (Z.to_nat (x + 1)) with (S (Z.to_nat x)) in Hl2 by lia.
    exists (Z.to_nat x). split.
    + apply in_seq. apply lookup_lt_Some in Hl1. lia.
    + apply andb_true_iff. rewrite !projectedAt_spec. split; eauto.
  - intros (p & _ & H). apply andb_true_iff in H as [H1 H2].
    apply projectedAt_spec in H1 as (s1 & Hl1 & H1).
    apply projectedAt_spec in H2 as (s2 & Hl2 & H2).
    exists (Z.of_nat p). rewrite !elem_of_leaderIndices. split.
    + exists s1. split; [done|]. split; [lia|]. by rewrite Nat2Z.id.
    + exists s2. split; [done|]. split; [lia|].
      by replace (Z.to_nat (Z.of_nat p + 1)) with (S p) by lia.
Qed.

Lemma elem_of_holdingsOf (bs : list Booking.t) (date name s : list N)
    (b : Booking.t) :
  b ∈ holdingsOf bs date name s
  ↔ b ∈ bs ∧ Booking.date b = date ∧ Booking.leader b = name ∧ s ∈ labelsOf b.
Proof.
  unfold holdingsOf. rewrite list_elem_of_In, filter_In, <- list_elem_of_In.
  rewrite !andb_true_iff, !bool_decide_eq_true. tauto.
Qed.

(** Stage 5 of the specification is step 5 of the handler. *)
Lemma stageDuplicate_check (history : list Booking.t) (date : list N)
    (req : BookingRequest) :
  (if isDuplicate history date (bookerName req) (selectionOf req)
   then Some DuplicateBooking else None)
  = stageDuplicate history date req.
Proof.
  unfold stageDuplicate, selectionOf.
  destruct (requestSlot req) as [s|].
  - destruct (holdingsOf history date (strip (bookerName req)) s) as [|b l] eqn:E.
    + destruct (isDuplicate _ _ _ _) eqn:Hd; [|done].
      apply isDuplicate_true in Hd as (b & Hb & Hdate & Hname & s' & Hs & Hi).
      apply list_elem_of_singleton in Hi as ->.
      assert (Hin : b ∈ holdingsOf history date (strip (bookerName req)) s).
      { apply elem_of_holdingsOf.
        by rewrite <- trim_strip, <- bookedSlots_labelsOf. }
      rewrite E in Hin. by apply elem_of_nil in Hin.
    + assert (Hin : b ∈ holdingsOf history date (strip (bookerName req)) s)
        by (rewrite E; left).
      apply elem_of_holdingsOf in Hin as (Hb & Hdate & Hname & Hs).
      assert (Hd : isDuplicate history date (bookerName req) [s] = true);
        [|by rewrite Hd].
      apply isDuplicate_true. exists b.
      rewrite trim_strip, bookedSlots_labelsOf.
      split; [done|]. split; [done|]. split; [done|].
      exists s. split; [done|]. by apply list_elem_of_singleton.
  - destruct (isDuplicate _ _ _ _) eqn:Hd; [|done].
    apply isDuplicate_true in Hd as (b & _ & _ & _ & s' & _ & Hi).
    by apply elem_of_nil in Hi.
Qed.

Lemma validate_firstFailure (history : list Booking.t) (date : list N)
    (req : BookingRequest) :
  validate history date (requestRole req) (bookerName req) (selectionOf req)
  = firstFailure (stages history date req).
Proof.
  unfold validate, stages.
  rewrite <- stageConsecutive_check, <- stageDuplicate_check.
  unfold stageWellFormed, stageCapacity, stageRoleUnique, selectionOf.
  destruct (requestSlot req) as [s|]; cbn [length Nat.eqb firstFailure]; [|done].
  rewrite trim_strip. case_bool_decide; [done|]. cbn [firstFailure].
  rewrite checkSlots_one.
  destruct (MAX_CAPACITY <=? _)%nat; [done|]. cbn [firstFailure].
  destruct (is_leader _ && _); [done|]. cbn [firstFailure].
  destruct (checkConsecutive _ _ _ _ _); [done|]. cbn [firstFailure].
  by destruct (isDuplicate _ _ _ _).
Qed.

(** C1. For every booking request the checks of the handler give the
    verdict of the five stages of the specification taken in the order
    well-formedness (slot, then name), capacity, role uniqueness,
    consecutive leadership, duplicate: the reason is that of the first stage
    that fails, whatever the later stages say, and the request passes only
    if every stage does. *)
Theorem validate_stage_order (history : list Booking.t) (date : list N)
    (req : BookingRequest) :
  let verdict :=
    validate history date (requestRole req) (bookerName req) (selectionOf req) in
  verdict = firstFailure (stages history date req)
  ∧ (verdict = None ↔ Forall (fun o => o = None) (stages history date req))
  ∧ ∀ (passed later : list (option Reason)) (r : Reason),
      stages history date req = passed ++ Some r :: later →
      Forall (fun o => o = None) passed →
      verdict = Some r.
Proof.
  cbv zeta. rewrite validate_firstFailure. split; [done|]. split.
  - apply firstFailure_None.
  - intros passed later r -> Hp. by apply firstFailure_first.
Qed.

(** ** The page as a state machine *)

Lemma catalog_label_single (s : list N) :
  s ∈ TIME_SLOTS → List.map Js.trim (Js.split 44 s) = [s].
Proof.
  unfold TIME_SLOTS. rewrite !elem_of_cons, elem_of_nil.
  intros [->|[->|[->|[]]]]; by vm_compute.
Qed.

Lemma newRow_single (date name : list N) (role : Role) (s : list N) :
  newRow date role name [s]
  = {| Row.date := date; Row.leader := Js.trim name;
       Row.members := role_str role; Row.slot := s |}.
Proof. done. Qed.

Lemma bookedSlots_stored (id : Z) (ca date name : list N) (role : Role) (s : list N) :
  s ∈ TIME_SLOTS →
  bookedSlots (stored id ca (newRow date role name [s])) = [s].
Proof. intros Hs. unfold bookedSlots. simpl. by apply catalog_label_single. Qed.

Lemma labelsOf_stored (id : Z) (ca date name : list N) (role : Role) (s : list N) :
  s ∈ TIME_SLOTS →
  labelsOf (stored id ca (newRow date role name [s])) = [s].
Proof. intros Hs. rewrite <- bookedSlots_labelsOf. by apply bookedSlots_stored. Qed.

Lemma occupies_stored (id : Z) (ca date name : list N) (role : Role)
    (s date' s' : list N) :
  s ∈ TIME_SLOTS →
  occupies (stored id ca (newRow date role name [s])) date' s'
  = if bool_decide (date = date' ∧ s = s') then 1%nat else 0%nat.
Proof.
  intros Hs. unfold occupies. rewrite labelsOf_stored by done.
  rewrite occurrences_singleton. simpl.
  repeat case_bool_decide; try done; intuition congruence.
Qed.

Lemma select_perm (table : list Booking.t) : select_by_date_desc table ≡ₚ table.
Proof. apply sort_by_perm. Qed.

Lemma occupantCount_perm (bs bs' : list Booking.t) (date s : list N) :
  bs ≡ₚ bs' → occupantCount bs date s = occupantCount bs' date s.
Proof. intros H. unfold occupantCount. by rewrite H. Qed.

Lemma leaderPresent_perm (bs bs' : list Booking.t) (date s : list N) :
  bs ≡ₚ bs' → leaderPresent bs date s = leaderPresent bs' date s.
Proof.
  intros H. apply eq_true_iff_eq. rewrite !leaderPresent_true.
  by setoid_rewrite H.
Qed.

(** The answer of the demo client brings the page up to date. *)
Lemma demoSelect_upToDate (examEndDate : list N) (w : World) :
  upToDate (step examEndDate w (Fetched (demoSelect (table w)))).
Proof. apply select_perm. Qed.

Lemma mounted_selectionOk (defaultDate : list N) (table0 : list Booking.t) :
  selectionOk (mounted defaultDate table0).
Proof. by left. Qed.

Lemma toggleSlot_cases (status : gmap (list N) SlotInfo) (sel : list (list N))
    (slot : list N) :
  toggleSlot status sel slot = sel
  ∨ toggleSlot status sel slot = []
  ∨ (toggleSlot status sel slot = [slot]
     ∧ ∃ o, status !! slot = Some o ∧ (count o < MAX_CAPACITY)%nat).
Proof.
  unfold toggleSlot. destruct (status !! slot) as [o|]; [|by left].
  destruct (Nat.leb_spec MAX_CAPACITY (count o)); [by left|].
  destruct (Js.includes sel slot); [tauto|]. right; right. eauto.
Qed.

(** An event either leaves the table alone or is an admitted submission of
    one catalog slot, which appends the record of the form. *)
Lemma step_table (examEndDate : list N) (w : World) (e : Event) :
  selectionOk w →
  table (step examEndDate w e) = table w
  ∨ ∃ id ca s,
      e = Submit (InsertOk id ca)
      ∧ s ∈ TIME_SLOTS
      ∧ Form.selectedSlots (form w) = [s]
      ∧ validate (bookings w) (Form.date (form w)) (Form.role (form w))
          (Form.name (form w)) [s] = None
      ∧ table (step examEndDate w e)
        = table w ++ [stored id ca (newRow (Form.date (form w))
                                      (Form.role (form w))
                                      (Form.name (form w)) [s])].
Proof.
  intros Hsel. destruct e as [d|r|n|k|reply| |reply]; simpl; try by left.
  - destruct (TIME_SLOTS !! k); by left.
  - unfold handleSubmit.
    destruct (validate _ _ _ _ _) eqn:Hv; [by left|].
    destruct reply as [id ca|msg]; [|by left].
    destruct Hsel as [Hnil|(s & Hs & Hsel)].
    + rewrite Hnil in Hv. done.
    + right. exists id, ca, s. rewrite Hsel in Hv |- *. done.
Qed.

Lemma step_selectionOk (examEndDate : list N) (w : World) (e : Event) :
  selectionOk w → selectionOk (step examEndDate w e).
Proof.
  intros Hsel. destruct e as [d|r|n|k|reply| |reply]; simpl; try exact Hsel.
  - by left.
  - destruct (TIME_SLOTS !! k) as [slot|] eqn:Hk; [|exact Hsel].
    assert (Hslot : slot ∈ TIME_SLOTS) by (eapply list_elem_of_lookup_2; eauto).
    unfold selectionOk. simpl.
    destruct (toggleSlot_cases (slotStatus (bookings w) (Form.date (form w)))
                (Form.selectedSlots (form w)) slot)
      as [-> | [-> | [-> _]]]; [done|by left|right; eauto].
  - unfold handleSubmit. destruct (validate _ _ _ _ _); [exact Hsel|].
    destruct reply as [id ca|msg]; [by left|exact Hsel].
Qed.

Lemma run_selectionOk (examEndDate : list N) (es : list Event) (w : World) :
  selectionOk w → selectionOk (run examEndDate w es).
Proof.
  unfold run. revert w. induction es as [|e es IH]; intros w Hw; [done|].
  simpl. by apply IH, step_selectionOk.
Qed.

(** Induction over the events of a run. *)
Lemma run_induction (examEndDate : list N) (P : World → Prop) :
  (∀ w e, selectionOk w → P w → P (step examEndDate w e)) →
  ∀ es w, selectionOk w → P w → P (run examEndDate w es).
Proof.
  intros Hstep es. unfold run. induction es as [|e es IH]; intros w Hw Hp; [done|].
  simpl. apply IH; [by apply step_selectionOk|by apply Hstep].
Qed.

(** Induction over the events of a run whose submissions are made while
    the page is up to date. *)
Lemma run_invariant (examEndDate : list N) (P : World → Prop) :
  (∀ w e, selectionOk w → (∀ reply, e = Submit reply → upToDate w) →
          P w → P (step examEndDate w e)) →
  ∀ es w, selectionOk w → submitsUpToDate examEndDate w es →
          P w → P (run examEndDate w es).
Proof.
  intros Hstep es. unfold run.
  induction es as [|e es IH]; intros w Hw Hf Hp; [done|].
  cbn [foldl]. cbn [submitsUpToDate] in Hf. destruct Hf as [He Hf].
  apply IH; [by apply step_selectionOk|done|].
  apply Hstep; [done| |done]. by intros reply ->.
Qed.

(** Everything a run adds to the table was written by the form. *)
Lemma run_table_added (examEndDate : list N) (es : list Event) (w : World) :
  selectionOk w →
  ∃ added, table (run examEndDate w es) = table w ++ added
           ∧ Forall writtenByForm added.
Proof.
  intros Hw.
  apply (run_induction examEndDate
           (fun w' => ∃ added, table w' = table w ++ added
                               ∧ Forall writtenByForm added)); [|done|].
  - intros w' e Hw' (added & Ht & Ha).
    destruct (step_table examEndDate w' e Hw')
      as [Hs|(id & ca & s & _ & Hs & _ & _ & Ht')]; [rewrite Hs; eauto|].
    rewrite Ht'.
    exists (added ++ [stored id ca (newRow (Form.date (form w'))
                        (Form.role (form w')) (Form.name (form w')) [s])]).
    split; [by rewrite Ht, app_assoc|].
    apply Forall_app. split; [done|]. constructor; [|done].
    unfold writtenByForm. eauto 10.
  - exists []. by rewrite app_nil_r.
Qed.

(** ** Capacity *)

(** What an admitted request for one catalog slot has passed. *)
Lemma validate_admitted (bs : list Booking.t) (date : list N) (role : Role)
    (name s : list N) :
  s ∈ TIME_SLOTS →
  validate bs date role name [s] = None →
  Js.trim name ≠ []
  ∧ (occupantCount bs date s < MAX_CAPACITY)%nat
  ∧ (role = Leader → leaderPresent bs date s = false)
  ∧ checkConsecutive bs date role name [s] = None
  ∧ isDuplicate bs date name [s] = false.
Proof.
  intros Hs. unfold validate. cbn [length Nat.eqb].
  case_bool_decide as Hn; [done|].
  rewrite (checkSlots_single _ _ _ _ Hs).
  destruct (Nat.leb_spec MAX_CAPACITY (occupantCount bs date s)); [done|].
  destruct (is_leader role && leaderPresent bs date s) eqn:Hl; [done|].
  destruct (checkConsecutive bs date role name [s]); [done|].
  destruct (isDuplicate bs date name [s]); [done|].
  intros _. repeat split; try done.
  intros ->. done.
Qed.

(** A request for a slot that the index shows full never reaches the
    store; the message is that of the capacity check, unless the name is
    blank, which is checked first. *)
Lemma full_slot_rejected (examEndDate : list N) (reply : InsertReply)
    (w : World) (slot : list N) (o : SlotInfo) :
  Form.selectedSlots (form w) = [slot] →
  slotStatus (bookings w) (Form.date (form w)) !! slot = Some o →
  (MAX_CAPACITY ≤ count o)%nat →
  table (handleSubmit examEndDate reply w) = table w
  ∧ Form.error (form (handleSubmit examEndDate reply w))
    = Some (Rejected (if bool_decide (Js.trim (Form.name (form w)) = [])
                      then MissingName else SlotFull slot)).
Proof.
  intros Hsel Ho Hfull.
  assert (Hv : validate (bookings w) (Form.date (form w)) (Form.role (form w))
                 (Form.name (form w)) (Form.selectedSlots (form w))
               = Some (if bool_decide (Js.trim (Form.name (form w)) = [])
                       then MissingName else SlotFull slot)).
  { rewrite Hsel. unfold validate. cbn [length Nat.eqb checkSlots].
    case_bool_decide; [done|]. rewrite Ho.
    destruct (Nat.leb_spec MAX_CAPACITY (count o)); [done|lia]. }
  unfold handleSubmit. by rewrite Hv.
Qed.

Lemma capacity_step (examEndDate : list N) (date s : list N) (w : World) (e : Event) :
  selectionOk w → (∀ reply, e = Submit reply → upToDate w) →
  (occupantCount (table w) date s ≤ MAX_CAPACITY)%nat →
  (occupantCount (table (step examEndDate w e)) date s ≤ MAX_CAPACITY)%nat.
Proof.
  intros Hw Hfresh Hc.
  destruct (step_table examEndDate w e Hw)
    as [Ht|(id & ca & s0 & He & Hs0 & _ & Hv & Ht)]; rewrite Ht; [done|].
  apply validate_admitted in Hv as (_ & Hlt & _); [|done].
  rewrite occupantCount_snoc, occupies_stored by done.
  case_bool_decide as Heq; [|lia]. destruct Heq as [<- <-].
  rewrite (occupantCount_perm _ _ _ _ (Hfresh _ He)) in Hlt. lia.
Qed.

(** C3, as amended. Starting from a history in which the pair (date, slot)
    holds at most C = 3 occupants, after any sequence of events of the page
    in which every submission is made while the page is up to date, the
    count derived for the pair from the table is still at most C, and so is
    the count the page derives whenever it is up to date.  This is because
    a request for a slot whose derived count has reached C writes nothing:
    it is rejected with SlotFull, or with MissingName when the name is
    blank. *)
Theorem capacity_invariant (examEndDate defaultDate : list N)
    (table0 : list Booking.t) (es : list Event) (date s : list N) :
  (count (getOrZero (slotStatus table0 date) s) ≤ MAX_CAPACITY)%nat →
  submitsUpToDate examEndDate (mounted defaultDate table0) es →
  let w := run examEndDate (mounted defaultDate table0) es in
  (count (getOrZero (slotStatus (table w) date) s) ≤ MAX_CAPACITY)%nat
  ∧ (upToDate w →
     (count (getOrZero (slotStatus (bookings w) date) s) ≤ MAX_CAPACITY)%nat)
  ∧ ∀ (reply : InsertReply) (w' : World) (slot : list N) (o : SlotInfo),
      Form.selectedSlots (form w') = [slot] →
      slotStatus (bookings w') (Form.date (form w')) !! slot = Some o →
      (MAX_CAPACITY ≤ count o)%nat →
      table (handleSubmit examEndDate reply w') = table w'
      ∧ Form.error (form (handleSubmit examEndDate reply w'))
        = Some (Rejected (if bool_decide (Js.trim (Form.name (form w')) = [])
                          then MissingName else SlotFull slot)).
Proof.
  rewrite slotStatus_get. cbn [count]. intros H0 Hfresh.
  set (w := run examEndDate (mounted defaultDate table0) es).
  assert (Ht : (occupantCount (table w) date s ≤ MAX_CAPACITY)%nat).
  { apply (run_invariant examEndDate
             (fun w => (occupantCount (table w) date s ≤ MAX_CAPACITY)%nat));
      [intros; by apply capacity_step|apply mounted_selectionOk|done|done]. }
  rewrite !slotStatus_get. cbn [count].
  split; [done|]. split.
  - intros Hsync. by rewrite (occupantCount_perm _ _ _ _ Hsync).
  - intros reply w' slot o. apply full_slot_rejected.
Qed.

(** C3 as stated fails in two ways.  A history that is already over
    capacity stays so: from four reservations on the first slot of a day, a
    submission for the third slot, made while the page is up to date, is
    admitted and the first slot still counts four.  And the handler only
    starts the read that refreshes the bookings, so a second submission made
    before its answer is checked against the old list: from two members on
    the first slot, two more are admitted one after the other, and the slot
    counts four. *)
Lemma capacity_counterexample :
  (let es := Sample.read Sample.crowded :: Sample.submit 5 "E" Member 2 in
   let w := run EXAM_END_DATE (mounted Sample.day Sample.crowded) es in
   submitsUpToDate EXAM_END_DATE (mounted Sample.day Sample.crowded) es
   ∧ table w = Sample.crowded ++ [Sample.row 5 "E" Member Sample.S3]
   ∧ ¬ (count (getOrZero (slotStatus (table w) Sample.day) Sample.S1)
        ≤ MAX_CAPACITY)%nat)
  ∧ (let table0 := [Sample.row 1 "P" Member Sample.S1;
                    Sample.row 2 "Q" Member Sample.S1] in
     let w := run EXAM_END_DATE (mounted Sample.day table0)
                (Sample.read table0
                 :: Sample.submit 3 "R" Member 0
                 ++ Sample.submit 4 "T" Member 0) in
     table w = table0 ++ [Sample.row 3 "R" Member Sample.S1;
                          Sample.row 4 "T" Member Sample.S1]
     ∧ ¬ (count (getOrZero (slotStatus (table w) Sample.day) Sample.S1)
          ≤ MAX_CAPACITY)%nat).
Proof.
  cbv zeta.
  assert (H1 : count (getOrZero
                 (slotStatus
                    (table (run EXAM_END_DATE (mounted Sample.day Sample.crowded)
                       (Sample.read Sample.crowded
                        :: Sample.submit 5 "E" Member 2))) Sample.day) Sample.S1)
               = 4%nat) by (by vm_compute).
  assert (H2 : count (getOrZero
                 (slotStatus
                    (table (run EXAM_END_DATE
                       (mounted Sample.day [Sample.row 1 "P" Member Sample.S1;
                                            Sample.row 2 "Q" Member Sample.S1])
                       (Sample.read [Sample.row 1 "P" Member Sample.S1;
                                     Sample.row 2 "Q" Member Sample.S1]
                        :: Sample.submit 3 "R" Member 0
                        ++ Sample.submit 4 "T" Member 0))) Sample.day) Sample.S1)
               = 4%nat) by (by vm_compute).
  split; [split; [|split]|split].
  - vm_compute. repeat split; reflexivity.
  - by vm_compute.
  - rewrite H1. unfold MAX_CAPACITY. lia.
  - by vm_compute.
  - rewrite H2. unfold MAX_CAPACITY. lia.
Qed.

(** The amended C3 at work: two members are booked on the first slot, a
    third is admitted, a fourth is refused once the page has read the table
    again, and the count stays within the capacity. *)
Lemma capacity_invariant_witness :
  let table0 := [Sample.row 1 "P" Member Sample.S1;
                 Sample.row 2 "Q" Member Sample.S1] in
  let es := Sample.read table0
            :: Sample.submit 3 "R" Member 0
            ++ Sample.read (table0 ++ [Sample.row 3 "R" Member Sample.S1])
            :: Sample.submit 4 "T" Member 0 in
  let w := run EXAM_END_DATE (mounted Sample.day table0) es in
  (count (getOrZero (slotStatus (table w) Sample.day) Sample.S1)
   ≤ MAX_CAPACITY)%nat.
Proof.
  cbv zeta.
  pose proof (capacity_invariant EXAM_END_DATE Sample.day
                [Sample.row 1 "P" Member Sample.S1;
                 Sample.row 2 "Q" Member Sample.S1]
                (Sample.read [Sample.row 1 "P" Member Sample.S1;
                              Sample.row 2 "Q" Member Sample.S1]
                 :: Sample.submit 3 "R" Member 0
                 ++ Sample.read ([Sample.row 1 "P" Member Sample.S1;
                                  Sample.row 2 "Q" Member Sample.S1]
                                 ++ [Sample.row 3 "R" Member Sample.S1])
                 :: Sample.submit 4 "T" Member 0)
                Sample.day Sample.S1) as H.
  cbv zeta in H. destruct H as (H & _).
  - vm_compute. lia.
  - vm_compute. repeat split; reflexivity.
  - exact H.
Defined.

(** ** One leader per slot *)

Lemma leadersOf_snoc (bs : list Booking.t) (b : Booking.t) (date s : list N) :
  leadersOf (bs ++ [b]) date s
  = leadersOf bs date s
    ++ (if bool_decide (Booking.date b = date)
           && bool_decide (Booking.members b = Js.lit "leader")
           && bool_decide (s ∈ labelsOf b)
        then [b] else []).
Proof. unfold leadersOf. rewrite List.filter_app. simpl. by destruct (_ && _). Qed.

Lemma leadersOf_absent (bs : list Booking.t) (date s : list N) :
  leaderPresent bs date s = false → leadersOf bs date s = [].
Proof.
  intros Hp. destruct (leadersOf bs date s) as [|b l] eqn:E; [done|].
  assert (Hb : In b (leadersOf bs date s)) by (rewrite E; by left).
  apply filter_In in Hb as [Hb Hc].
  apply andb_true_iff in Hc as [Hc Hs]. apply andb_true_iff in Hc as [Hd Hm].
  apply bool_decide_eq_true in Hd, Hm, Hs.
  assert (leaderPresent bs date s = true); [|congruence].
  apply leaderPresent_true. exists b.
  by rewrite list_elem_of_In, bookedSlots_labelsOf.
Qed.

Lemma role_str_leader (role : Role) : role_str role = Js.lit "leader" ↔ role = Leader.
Proof. destruct role; split; done. Qed.

Lemma leader_step (examEndDate : list N) (date s : list N) (w : World) (e : Event) :
  selectionOk w → (∀ reply, e = Submit reply → upToDate w) →
  (length (leadersOf (table w) date s) ≤ 1)%nat →
  (length (leadersOf (table (step examEndDate w e)) date s) ≤ 1)%nat.
Proof.
  intros Hw Hfresh Hc.
  destruct (step_table examEndDate w e Hw)
    as [Ht|(id & ca & s0 & He & Hs0 & _ & Hv & Ht)]; rewrite Ht; [done|].
  apply validate_admitted in Hv as (_ & _ & Hl & _); [|done].
  rewrite leadersOf_snoc, labelsOf_stored by done.
  destruct (_ && _) eqn:Hcond; [|by rewrite app_nil_r].
  apply andb_true_iff in Hcond as [Hcond Hs].
  apply andb_true_iff in Hcond as [Hd Hm].
  apply bool_decide_eq_true in Hd, Hm, Hs. simpl in Hd, Hm.
  apply list_elem_of_singleton in Hs as ->.
  apply role_str_leader in Hm. specialize (Hl Hm).
  rewrite (leaderPresent_perm _ _ _ _ (Hfresh _ He)), Hd in Hl.
  by rewrite (leadersOf_absent _ _ _ Hl).
Qed.

(** The invariant from any table that has it. *)
Lemma leader_unique_from (examEndDate defaultDate : list N)
    (table0 : list Booking.t) (es : list Event) (date s : list N) :
  (length (leadersOf table0 date s) ≤ 1)%nat →
  submitsUpToDate examEndDate (mounted defaultDate table0) es →
  (length (leadersOf (table (run examEndDate (mounted defaultDate table0) es))
             date s) ≤ 1)%nat.
Proof.
  intros H0 Hfresh.
  apply (run_invariant examEndDate
           (fun w => (length (leadersOf (table w) date s) ≤ 1)%nat));
    [intros; by apply leader_step|apply mounted_selectionOk|done|done].
Qed.

(** A leader request for a slot that has a leader never reaches the store;
    the message is that of the first check that fails. *)
Lemma led_slot_rejected (examEndDate : list N) (reply : InsertReply)
    (w : World) (slot : list N) (o : SlotInfo) :
  Form.selectedSlots (form w) = [slot] →
  Form.role (form w) = Leader →
  slotStatus (bookings w) (Form.date (form w)) !! slot = Some o →
  hasLeader o = true →
  table (handleSubmit examEndDate reply w) = table w
  ∧ Form.error (form (handleSubmit examEndDate reply w))
    = Some (Rejected
              (if bool_decide (Js.trim (Form.name (form w)) = [])
               then MissingName
               else if (MAX_CAPACITY <=? count o)%nat then SlotFull slot
                    else LeaderConflict slot)).
Proof.
  intros Hsel Hrole Ho Hl.
  assert (Hv : validate (bookings w) (Form.date (form w)) (Form.role (form w))
                 (Form.name (form w)) (Form.selectedSlots (form w))
               = Some (if bool_decide (Js.trim (Form.name (form w)) = [])
                       then MissingName
                       else if (MAX_CAPACITY <=? count o)%nat then SlotFull slot
                            else LeaderConflict slot)).
  { rewrite Hsel, Hrole. unfold validate. cbn [length Nat.eqb checkSlots].
    case_bool_decide; [done|]. rewrite Ho, Hl.
    by destruct (MAX_CAPACITY <=? count o)%nat. }
  unfold handleSubmit. by rewrite Hv.
Qed.

Lemma member_no_conflict (history : list Booking.t) (date name : list N)
    (sel : list (list N)) (s : list N) :
  validate history date Member name sel ≠ Some (LeaderConflict s).
Proof.
  unfold validate. destruct (length sel =? 0)%nat; [done|].
  case_bool_decide; [done|].
  destruct (checkSlots _ _ _) as [r|] eqn:Hc.
  - apply checkSlots_reason in Hc as (s' & o & _ & _ & [[-> _]|(_ & ? & _)]); done.
  - simpl. by destruct (isDuplicate _ _ _ _).
Qed.

(** C4, as amended. In every table reached from the empty one by events of
    the page in which every submission is made while the page is up to
    date, each (date, slot) pair has at most one reservation with role
    leader.  A leader request for a slot whose index entry has hasLeader
    writes nothing: it is rejected, with LeaderConflict when the name is not
    blank and the slot is below capacity, with MissingName or SlotFull
    otherwise, those checks coming first; a member request is never rejected
    with LeaderConflict. *)
Theorem leader_unique (examEndDate defaultDate : list N) (es : list Event)
    (date s : list N) :
  (submitsUpToDate examEndDate (mounted defaultDate []) es →
   (length (leadersOf (table (run examEndDate (mounted defaultDate []) es))
              date s) ≤ 1)%nat)
  ∧ (∀ (reply : InsertReply) (w : World) (slot : list N) (o : SlotInfo),
       Form.selectedSlots (form w) = [slot] →
       Form.role (form w) = Leader →
       slotStatus (bookings w) (Form.date (form w)) !! slot = Some o →
       hasLeader o = true →
       table (handleSubmit examEndDate reply w) = table w
       ∧ Form.error (form (handleSubmit examEndDate reply w))
         = Some (Rejected
                   (if bool_decide (Js.trim (Form.name (form w)) = [])
                    then MissingName
                    else if (MAX_CAPACITY <=? count o)%nat then SlotFull slot
                         else LeaderConflict slot)))
  ∧ ∀ (history : list Booking.t) (name : list N) (sel : list (list N))
      (slot : list N),
      validate history date Member name sel ≠ Some (LeaderConflict slot).
Proof.
  split; [|split].
  - apply leader_unique_from. simpl. lia.
  - intros reply w slot o. apply led_slot_rejected.
  - intros history name sel slot. apply member_no_conflict.
Qed.

(** C4 as stated fails in two ways.  On a slot that has a leader and is
    full, the leader request is rejected with SlotFull, not with
    LeaderConflict.  And two leader requests for the same slot, the second
    made before the read started by the first has answered, are both
    admitted. *)
Lemma leader_unique_counterexample :
  (let w := Sample.page [Sample.row 1 "X" Leader Sample.S1;
                         Sample.row 2 "P" Member Sample.S1;
                         Sample.row 3 "Q" Member Sample.S1]
              Leader "Y" [Sample.S1] in
   slotStatus (bookings w) (Form.date (form w)) !! Sample.S1
   = Some {| count := 3; hasLeader := true |}
   ∧ Form.role (form w) = Leader
   ∧ Form.error (form (handleSubmit EXAM_END_DATE (InsertOk 4 Sample.stamp) w))
     = Some (Rejected (SlotFull Sample.S1))
   ∧ Form.error (form (handleSubmit EXAM_END_DATE (InsertOk 4 Sample.stamp) w))
     ≠ Some (Rejected (LeaderConflict Sample.S1)))
  ∧ (let w := run EXAM_END_DATE (mounted Sample.day [])
                (Sample.submit 1 "X" Leader 0 ++ Sample.submit 2 "Y" Leader 0) in
     leadersOf (table w) Sample.day Sample.S1
     = [Sample.row 1 "X" Leader Sample.S1; Sample.row 2 "Y" Leader Sample.S1]
     ∧ ¬ (length (leadersOf (table w) Sample.day Sample.S1) ≤ 1)%nat).
Proof.
  cbv zeta.
  assert (H : Form.error
                (form (handleSubmit EXAM_END_DATE (InsertOk 4 Sample.stamp)
                         (Sample.page [Sample.row 1 "X" Leader Sample.S1;
                                       Sample.row 2 "P" Member Sample.S1;
                                       Sample.row 3 "Q" Member Sample.S1]
                            Leader "Y" [Sample.S1])))
              = Some (Rejected (SlotFull Sample.S1))) by (by vm_compute).
  assert (H2 : leadersOf
                 (table (run EXAM_END_DATE (mounted Sample.day [])
                           (Sample.submit 1 "X" Leader 0
                            ++ Sample.submit 2 "Y" Leader 0)))
                 Sample.day Sample.S1
               = [Sample.row 1 "X" Leader Sample.S1;
                  Sample.row 2 "Y" Leader Sample.S1]) by (by vm_compute).
  split; [split; [|split; [|split]]|split].
  - by vm_compute.
  - done.
  - done.
  - by rewrite H.
  - done.
  - rewrite H2. simpl. lia.
Qed.

(** ** Duplicate submissions *)

(** A list that holds the record of an admitted submission collides with
    the same name, date and slot. *)
Lemma resubmission_is_duplicate (reloaded : list Booking.t) (id : Z)
    (ca date name s : list N) (role : Role) :
  s ∈ TIME_SLOTS →
  stored id ca (newRow date role name [s]) ∈ reloaded →
  isDuplicate reloaded date name [s] = true.
Proof.
  intros Hs Hin. apply isDuplicate_true.
  exists (stored id ca (newRow date role name [s])).
  split; [done|]. split; [done|]. split; [done|].
  exists s. rewrite bookedSlots_stored by done.
  split; by apply list_elem_of_singleton.
Qed.

(** Step 5 in the words of the specification. *)
Lemma isDuplicate_spec (history : list Booking.t) (date name slot : list N) :
  isDuplicate history date name [slot] = true
  ↔ ∃ b, b ∈ history ∧ Booking.leader b = strip name
         ∧ Booking.date b = date ∧ slot ∈ labelsOf b.
Proof.
  rewrite isDuplicate_true, trim_strip. setoid_rewrite bookedSlots_labelsOf.
  split.
  - intros (b & ? & ? & ? & s' & ? & Hi).
    apply list_elem_of_singleton in Hi as ->. eauto 10.
  - intros (b & ? & ? & ? & ?). exists b. repeat split; try done.
    exists slot. split; [done|]. by apply list_elem_of_singleton.
Qed.

(** C5, as amended. When a submission for a catalog slot is admitted and
    the page has read the table again, a second submission with the same
    name, date and slot is rejected whatever its role: with SlotFull when
    the first insert filled the slot; otherwise with DuplicateBooking when
    the second request is made as member, and with LeaderConflict when both
    requests are made as leader, because that stage comes first.  The
    handler itself leaves the bookings of the page as they were.  Step 5
    rejects exactly when some reservation of the list has the name of the
    request after trimming, the same date, and occupies the chosen slot,
    whatever the roles. *)
Theorem duplicate_submission (examEndDate : list N) (w : World) (id : Z)
    (ca s : list N) (role2 : Role) (reloaded : list Booking.t) :
  s ∈ TIME_SLOTS →
  Form.selectedSlots (form w) = [s] →
  validate (bookings w) (Form.date (form w)) (Form.role (form w))
    (Form.name (form w)) [s] = None →
  let w1 := handleSubmit examEndDate (InsertOk id ca) w in
  reloaded ≡ₚ table w1 →
  let second :=
    validate reloaded (Form.date (form w)) role2 (Form.name (form w)) [s] in
  let occupants := occupantCount reloaded (Form.date (form w)) s in
  second ≠ None
  ∧ ((MAX_CAPACITY ≤ occupants)%nat → second = Some (SlotFull s))
  ∧ ((occupants < MAX_CAPACITY)%nat → role2 = Member →
     second = Some DuplicateBooking)
  ∧ ((occupants < MAX_CAPACITY)%nat → Form.role (form w) = Leader →
     role2 = Leader → second = Some (LeaderConflict s))
  ∧ bookings w1 = bookings w
  ∧ (∀ (history : list Booking.t) (date name slot : list N),
       isDuplicate history date name [slot] = true
       ↔ ∃ b, b ∈ history ∧ Booking.leader b = strip name
              ∧ Booking.date b = date ∧ slot ∈ labelsOf b).
Proof.
  intros Hs Hsel Hv. cbv zeta.
  assert (Ht : table (handleSubmit examEndDate (InsertOk id ca) w)
               = table w ++ [stored id ca (newRow (Form.date (form w))
                    (Form.role (form w)) (Form.name (form w)) [s])]).
  { unfold handleSubmit. by rewrite Hsel, Hv. }
  assert (Hb : bookings (handleSubmit examEndDate (InsertOk id ca) w)
               = bookings w).
  { unfold handleSubmit. by rewrite Hsel, Hv. }
  rewrite Ht, Hb. intros Hre.
  assert (Hin : stored id ca (newRow (Form.date (form w)) (Form.role (form w))
                  (Form.name (form w)) [s]) ∈ reloaded).
  { rewrite Hre, elem_of_app, list_elem_of_singleton. by right. }
  apply validate_admitted in Hv as (Hn & _); [|done].
  pose proof (resubmission_is_duplicate reloaded id ca (Form.date (form w))
                (Form.name (form w)) s (Form.role (form w)) Hs Hin) as Hdup.
  unfold validate. cbn [length Nat.eqb].
  rewrite bool_decide_eq_false_2 by done.
  rewrite (checkSlots_single _ _ _ _ Hs), Hdup.
  split; [|split; [|split; [|split; [|split]]]].
  - destruct (_ <=? _)%nat; [done|]. destruct (_ && _); [done|].
    by destruct (checkConsecutive _ _ _ _ _).
  - intros Hfull.
    destruct (Nat.leb_spec MAX_CAPACITY
                (occupantCount reloaded (Form.date (form w)) s)); [done|lia].
  - intros Hlt ->.
    destruct (Nat.leb_spec MAX_CAPACITY
                (occupantCount reloaded (Form.date (form w)) s)); [lia|done].
  - intros Hlt Hr1 ->.
    destruct (Nat.leb_spec MAX_CAPACITY
                (occupantCount reloaded (Form.date (form w)) s)); [lia|].
    assert (Hl : leaderPresent reloaded (Form.date (form w)) s = true).
    { apply leaderPresent_true.
      exists (stored id ca (newRow (Form.date (form w)) (Form.role (form w))
                (Form.name (form w)) [s])).
      split; [done|]. split; [done|]. split.
      - simpl. by rewrite Hr1.
      - rewrite bookedSlots_stored by done. by apply list_elem_of_singleton. }
    by rewrite Hl.
  - done.
  - apply isDuplicate_spec.
Qed.

(** C5 as stated fails in two ways.  The same leader request sent twice,
    the page having read the table in between, is admitted and then stopped
    by the role stage before the duplicate stage.  And the identical request
    sent a second time before the read started by the first has answered is
    admitted too, so that the booker holds the pair twice. *)
Lemma duplicate_submission_counterexample :
  (let w1 := run EXAM_END_DATE (mounted Sample.day [])
               (Sample.submit 1 "A" Leader 0) in
   let w2 := run EXAM_END_DATE w1
               (Sample.read (table w1) :: Sample.submit 2 "A" Leader 0) in
   table w1 = [Sample.row 1 "A" Leader Sample.S1]
   ∧ Form.error (form w2) = Some (Rejected (LeaderConflict Sample.S1))
   ∧ Form.error (form w2) ≠ Some (Rejected DuplicateBooking)
   ∧ table w2 = table w1)
  ∧ (let w := run EXAM_END_DATE (mounted Sample.day [])
                (Sample.submit 1 "Z" Member 1 ++ Sample.submit 2 "Z" Member 1) in
     table w = [Sample.row 1 "Z" Member Sample.S2;
                Sample.row 2 "Z" Member Sample.S2]
     ∧ Form.error (form w) = None
     ∧ Form.error (form w) ≠ Some (Rejected DuplicateBooking)).
Proof.
  cbv zeta.
  assert (H : Form.error (form (run EXAM_END_DATE
                (run EXAM_END_DATE (mounted Sample.day [])
                   (Sample.submit 1 "A" Leader 0))
                (Sample.read
                   (table (run EXAM_END_DATE (mounted Sample.day [])
                             (Sample.submit 1 "A" Leader 0)))
                 :: Sample.submit 2 "A" Leader 0)))
              = Some (Rejected (LeaderConflict Sample.S1))) by (by vm_compute).
  assert (H2 : Form.error (form (run EXAM_END_DATE (mounted Sample.day [])
                 (Sample.submit 1 "Z" Member 1 ++ Sample.submit 2 "Z" Member 1)))
               = None) by (by vm_compute).
  split; [split; [|split; [|split]]|split; [|split]].
  - by vm_compute.
  - done.
  - by rewrite H.
  - by vm_compute.
  - by vm_compute.
  - done.
  - by rewrite H2.
Qed.

(** ** The handler and the store *)

Lemma app_singleton_neq {A} (l : list A) (x : A) : l ++ [x] ≠ l.
Proof.
  intros H. apply (f_equal length) in H. rewrite length_app in H. simpl in H. lia.
Qed.

(** C6. For the request the form carries, the table changes exactly when
    each of the five stages of the specification passes and the store
    accepts the row.  When a stage fails, the table, the bookings and the
    fields of the form are left as they were and the reason of the first
    failing stage is shown.  When all pass and the store accepts, exactly
    one record is appended: it carries the date of the form, the chosen
    slot, the name of the request without the white space at its ends, and
    the role; when the store refuses, nothing is written and its message is
    shown. *)
Theorem submit_writes_iff_valid (examEndDate : list N) (reply : InsertReply)
    (w : World) (req : BookingRequest) :
  Form.role (form w) = requestRole req →
  Form.name (form w) = bookerName req →
  Form.selectedSlots (form w) = selectionOf req →
  let f := form w in
  let results := stages (bookings w) (Form.date f) req in
  let w' := handleSubmit examEndDate reply w in
  (table w' ≠ table w
   ↔ Forall (fun o => o = None) results
     ∧ ∃ id created_at, reply = InsertOk id created_at)
  ∧ match firstFailure results with
    | Some r =>
        table w' = table w ∧ bookings w' = bookings w
        ∧ Form.error (form w') = Some (Rejected r)
        ∧ Form.selectedSlots (form w') = Form.selectedSlots f
        ∧ Form.name (form w') = Form.name f
        ∧ Form.role (form w') = Form.role f
    | None => bookings w' = bookings w
    end
  ∧ (Forall (fun o => o = None) results →
     ∀ id created_at, reply = InsertOk id created_at →
       ∃ slot name,
         requestSlot req = Some slot
         ∧ stripOf (bookerName req) name
         ∧ table w'
           = table w
             ++ [ {| Booking.id := id; Booking.created_at := created_at;
                     Booking.date := Form.date f;
                     Booking.slot := slot;
                     Booking.leader := name;
                     Booking.members := role_str (requestRole req) |} ])
  ∧ (Forall (fun o => o = None) results →
     ∀ message, reply = InsertFailed message →
       table w' = table w
       ∧ Form.error (form w') = Some (StoreError (insertErrorMessage message))).
Proof.
  intros Hr Hn Hs. cbv zeta.
  pose proof (validate_firstFailure (bookings w) (Form.date (form w)) req) as Hv.
  rewrite <- Hr, <- Hn, <- Hs in Hv.
  rewrite <- firstFailure_None, <- Hv.
  unfold handleSubmit.
  destruct (validate (bookings w) (Form.date (form w)) (Form.role (form w))
              (Form.name (form w)) (Form.selectedSlots (form w))) as [r|] eqn:E.
  - simpl. split; [split; [intros Hne; by destruct Hne|by intros [? _]]|].
    split; [done|]. split; done.
  - split; [|split; [|split]].
    + destruct reply as [id ca|msg]; simpl.
      * split; [eauto|]. intros _. apply app_singleton_neq.
      * split; [done|]. by intros [_ (? & ? & ?)].
    + by destruct reply.
    + intros _ id ca ->. simpl.
      destruct (requestSlot req) as [slot|] eqn:Hslot.
      * exists slot, (Js.trim (bookerName req)).
        split; [done|]. split; [apply trim_stripOf|].
        unfold selectionOf in Hs. rewrite Hslot in Hs.
        by rewrite Hs, Hn, Hr.
      * unfold selectionOf in Hs. rewrite Hslot in Hs. rewrite Hs in E. done.
    + by intros _ message ->.
Qed.

(** ** One slot per record *)

Lemma toggleSlot_open (status : gmap (list N) SlotInfo) (slot : list N)
    (o : SlotInfo) (sel : list (list N)) :
  status !! slot = Some o → (count o < MAX_CAPACITY)%nat →
  toggleSlot status sel slot = if Js.includes sel slot then [] else [slot].
Proof.
  intros Ho Hc. unfold toggleSlot. rewrite Ho.
  destruct (Nat.leb_spec MAX_CAPACITY (count o)); [lia|done].
Qed.

Lemma writtenByForm_single (b : Booking.t) :
  writtenByForm b →
  Booking.slot b ∈ TIME_SLOTS ∧ bookedSlots b = [Booking.slot b]
  ∧ trimmed (Booking.leader b).
Proof.
  intros (id & ca & date & name & role & s & Hs & ->).
  split; [done|]. split; [by apply bookedSlots_stored|]. apply trim_trimmed.
Qed.

(** C8. Along every run of the page the selection holds at most one label;
    every record the run adds to the table carries one label of the catalog
    (the sorted, joined selection is that label) and occupies exactly that
    one.  Selecting the selected slot again clears the selection, selecting
    an open slot replaces another selected slot, selecting a full slot
    changes nothing, and the checks reject an empty selection first. *)
Theorem single_slot_records (examEndDate defaultDate : list N)
    (table0 : list Booking.t) (es : list Event) :
  let w := run examEndDate (mounted defaultDate table0) es in
  (length (Form.selectedSlots (form w)) ≤ 1)%nat
  ∧ Forall (fun s => s ∈ TIME_SLOTS) (Form.selectedSlots (form w))
  ∧ (∃ added, table w = table0 ++ added
              ∧ Forall (fun b => Booking.slot b ∈ TIME_SLOTS
                                 ∧ bookedSlots b = [Booking.slot b]) added)
  ∧ (∀ history date role name,
       validate history date role name [] = Some MissingSlot)
  ∧ (∀ date role name s, Row.slot (newRow date role name [s]) = s)
  ∧ (∀ (k : nat) (slot : list N),
       TIME_SLOTS !! k = Some slot →
       Form.selectedSlots (form w) = [slot] →
       Form.selectedSlots (form (step examEndDate w (ClickSlot k)))
       = if (MAX_CAPACITY
             <=? count (getOrZero (slotStatus (bookings w) (Form.date (form w)))
                          slot))%nat
         then [slot] else [])
  ∧ (∀ (status : gmap (list N) SlotInfo) (slot other : list N) (o : SlotInfo),
       status !! slot = Some o → (count o < MAX_CAPACITY)%nat →
       toggleSlot status [] slot = [slot]
       ∧ toggleSlot status [slot] slot = []
       ∧ (other ≠ slot → toggleSlot status [other] slot = [slot]))
  ∧ (∀ (status : gmap (list N) SlotInfo) (slot : list N) (o : SlotInfo)
       (sel : list (list N)),
       status !! slot = Some o → (MAX_CAPACITY ≤ count o)%nat →
       toggleSlot status sel slot = sel).
Proof.
  cbv zeta.
  pose proof (run_selectionOk examEndDate es _
                (mounted_selectionOk defaultDate table0)) as Hsel.
  split; [|split; [|split; [|split; [|split; [|split; [|split]]]]]].
  - destruct Hsel as [->|(s & _ & ->)]; simpl; lia.
  - destruct Hsel as [->|(s & Hs & ->)]; [constructor|].
    constructor; [done|constructor].
  - destruct (run_table_added examEndDate es _
                (mounted_selectionOk defaultDate table0)) as (added & Ht & Ha).
    exists added. split; [done|].
    eapply Forall_impl; [exact Ha|]. intros b Hb.
    apply writtenByForm_single in Hb as (? & ? & _). done.
  - done.
  - done.
  - intros k slot Hk Hs.
    assert (Hslot : slot ∈ TIME_SLOTS) by (eapply list_elem_of_lookup_2; eauto).
    set (w := run examEndDate (mounted defaultDate table0) es) in *.
    assert (Hstep : Form.selectedSlots (form (step examEndDate w (ClickSlot k)))
                    = toggleSlot (slotStatus (bookings w) (Form.date (form w)))
                        (Form.selectedSlots (form w)) slot).
    { simpl. by rewrite Hk. }
    rewrite Hstep, Hs, slotStatus_get. cbn [count]. unfold toggleSlot.
    rewrite slotStatus_lookup, decide_True by (by left). cbn [count].
    destruct (_ <=? _)%nat; [done|].
    unfold Js.includes. rewrite bool_decide_eq_true_2; [done|].
    by apply list_elem_of_singleton.
  - intros status slot other o Ho Hc.
    rewrite !(toggleSlot_open _ _ _ _ Ho Hc). unfold Js.includes.
    split; [|split].
    + rewrite bool_decide_eq_false_2; [done|apply not_elem_of_nil].
    + rewrite bool_decide_eq_true_2; [done|left].
    + intros Hne. rewrite bool_decide_eq_false_2; [done|].
      rewrite list_elem_of_singleton. congruence.
  - intros status slot o sel Ho Hc. unfold toggleSlot. rewrite Ho.
    destruct (Nat.leb_spec MAX_CAPACITY (count o)); [done|lia].
Qed.

(** ** The celebration date *)

Lemma step_sameButCelebration (e1 e2 : list N) (w1 w2 : World) (e : Event) :
  sameButCelebration w1 w2 → sameButCelebration (step e1 w1 e) (step e2 w2 e).
Proof.
  destruct w1 as [[d1 r1 n1 s1 i1 er1 c1] b1 t1].
  destruct w2 as [[d2 r2 n2 s2 i2 er2 c2] b2 t2].
  unfold sameButCelebration. simpl.
  intros (-> & -> & -> & -> & -> & -> & -> & ->).
  destruct e as [d|r|n|k|reply| |reply]; simpl; try done.
  - by destruct (TIME_SLOTS !! k).
  - unfold handleSubmit. simpl.
    destruct (validate b2 d2 r2 n2 s2); [done|]. by destruct reply.
Qed.

Lemma run_sameButCelebration (e1 e2 : list N) (es : list Event) (w1 w2 : World) :
  sameButCelebration w1 w2 → sameButCelebration (run e1 w1 es) (run e2 w2 es).
Proof.
  unfold run. revert w1 w2. induction es as [|e es IH]; intros w1 w2 H; [done|].
  simpl. by apply IH, step_sameButCelebration.
Qed.

(** C9. Two pages configured with different celebration dates go through
    the same events with the same verdicts, the same messages and the same
    table: they can differ only in whether the celebration is shown.  The
    handler compares the date of the form with the celebration date only
    after a successful insert; otherwise the flag is left as it was. *)
Theorem celebration_date_irrelevant (examEndDate1 examEndDate2 : list N)
    (w : World) (es : list Event) :
  sameButCelebration (run examEndDate1 w es) (run examEndDate2 w es)
  ∧ ∀ (reply : InsertReply),
      Form.showCelebration (form (handleSubmit examEndDate1 reply w))
      = match validate (bookings w) (Form.date (form w)) (Form.role (form w))
                (Form.name (form w)) (Form.selectedSlots (form w)), reply with
        | None, InsertOk _ _ =>
            if bool_decide (Form.date (form w) = examEndDate1) then true
            else Form.showCelebration (form w)
        | _, _ => Form.showCelebration (form w)
        end.
Proof.
  split.
  - apply run_sameButCelebration. by repeat split.
  - intros reply. unfold handleSubmit.
    destruct (validate _ _ _ _ _); [done|]. by destruct reply.
Qed.

(** ** Trimmed names *)

(** C10. Every record that a run of the page adds to the table stores a
    name with no white space at either end: the handler writes the name of
    the form without the white space around it.  So comparing the stored
    name as it is with the trimmed name of a request, as steps 4 and 5 of
    the handler do, is comparing trimmed with trimmed. *)
Theorem stored_names_trimmed (examEndDate defaultDate : list N)
    (table0 : list Booking.t) (es : list Event) :
  (∃ added,
     table (run examEndDate (mounted defaultDate table0) es) = table0 ++ added
     ∧ Forall (fun b =>
                 trimmed (Booking.leader b)
                 ∧ ∀ name : list N,
                     bool_decide (Booking.leader b = Js.trim name)
                     = bool_decide (strip (Booking.leader b) = strip name))
              added)
  ∧ (∀ (id : Z) (ca date name : list N) (role : Role) (sel : list (list N)),
       stripOf name (Booking.leader (stored id ca (newRow date role name sel))))
  ∧ ∀ (history : list Booking.t) (date name : list N) (sel : list (list N)),
      (∀ s, s ∈ existingLeaderSlots history date name
            ↔ ∃ b, b ∈ history ∧ Booking.date b = date
                   ∧ Booking.leader b = strip name
                   ∧ Booking.members b = Js.lit "leader" ∧ s ∈ labelsOf b)
      ∧ (isDuplicate history date name sel = true
         ↔ ∃ b, b ∈ history ∧ Booking.date b = date
                ∧ Booking.leader b = strip name
                ∧ ∃ s, s ∈ labelsOf b ∧ s ∈ sel).
Proof.
  split; [|split].
  - destruct (run_table_added examEndDate es _
                (mounted_selectionOk defaultDate table0)) as (added & Ht & Ha).
    exists added. split; [done|].
    eapply Forall_impl; [exact Ha|]. intros b Hb.
    apply writtenByForm_single in Hb as (_ & _ & Hb).
    split; [done|]. intros name.
    apply trimmed_trim in Hb. by rewrite <- !trim_strip, Hb.
  - intros id ca date name role sel. apply trim_stripOf.
  - intros history date name sel. split.
    + intros s. apply elem_of_existingLeaderSlots_spec.
    + rewrite isDuplicate_true, trim_strip.
      by setoid_rewrite bookedSlots_labelsOf.
Qed.

(** ** The scenarios of the specification, by evaluation *)

(** Scenario A: "A" leads the first slot, is refused the second and
    admitted to the third, the page reading the table after the first
    admission. *)
Example scenario_A :
  let w1 := run EXAM_END_DATE (mounted Sample.day []) (Sample.submit 1 "A" Leader 0) in
  let w2 := run EXAM_END_DATE w1
              (Sample.read (table w1) :: Sample.submit 2 "A" Leader 1) in
  let w3 := run EXAM_END_DATE w2 [ClickSlot 2; Submit (InsertOk 3 Sample.stamp)] in
  table w1 = [Sample.row 1 "A" Leader Sample.S1]
  ∧ Form.error (form w2) = Some (Rejected ConsecutiveLeadership)
  ∧ table w2 = table w1
  ∧ Form.error (form w3) = None
  ∧ table w3 = [Sample.row 1 "A" Leader Sample.S1;
                Sample.row 3 "A" Leader Sample.S3].
Proof. by vm_compute. Qed.

(** Scenario B: three members hold the first slot. *)
Example scenario_B :
  validate [Sample.row 1 "P" Member Sample.S1; Sample.row 2 "Q" Member Sample.S1;
            Sample.row 3 "R" Member Sample.S1]
    Sample.day Member (Js.lit "D") [Sample.S1]
  = Some (SlotFull Sample.S1).
Proof. by vm_compute. Qed.

(** Scenario C: "X" leads the first slot. *)
Example scenario_C :
  validate [Sample.row 1 "X" Leader Sample.S1] Sample.day Leader (Js.lit "Y")
    [Sample.S1] = Some (LeaderConflict Sample.S1)
  ∧ validate [Sample.row 1 "X" Leader Sample.S1] Sample.day Member (Js.lit "Y")
      [Sample.S1] = None.
Proof. by vm_compute. Qed.

(** Scenario D: "Z" is a member of the second slot. *)
Example scenario_D :
  validate [Sample.row 1 "Z" Member Sample.S2] Sample.day Member (Js.lit "Z")
    [Sample.S2] = Some DuplicateBooking.
Proof. by vm_compute. Qed.

(** The name is compared after trimming the request only: a stored name
    with a leading blank is another name. *)
Example stored_name_not_trimmed :
  validate [Sample.row 1 " Z" Member Sample.S2] Sample.day Member (Js.lit " Z ")
    [Sample.S2] = None
  ∧ validate [Sample.row 1 "Z" Member Sample.S2] Sample.day Member (Js.lit " Z ")
      [Sample.S2] = Some DuplicateBooking.
Proof. by vm_compute. Qed.

(** The loop of step 3 goes slot by slot: on a selection of two labels,
    which the form never holds, the role check of the first label comes
    before the capacity check of the second. *)
Example checkSlots_slot_by_slot :
  checkSlots
    (slotStatus
       [Sample.row 1 "X" Leader Sample.S1; Sample.row 2 "P" Member Sample.S2;
        Sample.row 3 "Q" Member Sample.S2; Sample.row 4 "R" Member Sample.S2]
       Sample.day)
    Leader [Sample.S1; Sample.S2]
  = Some (LeaderConflict Sample.S1).
Proof. by vm_compute. Qed.

(** ** The scenarios of the specification, through the theorems *)

(** Scenarios C, A and D through C1: the leader request of "Y" fails the
    third stage; the second leader request of "A" passes three stages and
    fails the fourth; the second request of "Z" passes four stages and fails
    the fifth. *)
Lemma validate_stage_order_witness :
  validate [Sample.row 1 "X" Leader Sample.S1] Sample.day Leader (Js.lit "Y")
    [Sample.S1]
  = Some (LeaderConflict Sample.S1)
  ∧ validate [Sample.row 1 "A" Leader Sample.S1] Sample.day Leader (Js.lit "A")
      [Sample.S2]
    = Some ConsecutiveLeadership
  ∧ validate [Sample.row 1 "Z" Member Sample.S2] Sample.day Member (Js.lit "Z")
      [Sample.S2]
    = Some DuplicateBooking.
Proof.
  split; [|split].
  - pose proof (validate_stage_order [Sample.row 1 "X" Leader Sample.S1]
                  Sample.day (Sample.request Leader "Y" Sample.S1)) as H.
    cbv zeta in H. destruct H as (_ & _ & H).
    apply (H [None; None] [None; None] (LeaderConflict Sample.S1)).
    + vm_compute. reflexivity.
    + repeat constructor.
  - pose proof (validate_stage_order [Sample.row 1 "A" Leader Sample.S1]
                  Sample.day (Sample.request Leader "A" Sample.S2)) as H.
    cbv zeta in H. destruct H as (_ & _ & H).
    apply (H [None; None; None] [None] ConsecutiveLeadership).
    + vm_compute. reflexivity.
    + repeat constructor.
  - pose proof (validate_stage_order [Sample.row 1 "Z" Member Sample.S2]
                  Sample.day (Sample.request Member "Z" Sample.S2)) as H.
    cbv zeta in H. destruct H as (_ & _ & H).
    apply (H [None; None; None; None] [] DuplicateBooking).
    + vm_compute. reflexivity.
    + repeat constructor.
Defined.

(** Scenario A through C2: "A" leads the first slot and asks for the second. *)
Lemma consecutive_leadership_stage_witness :
  validate [Sample.row 1 "A" Leader Sample.S1] Sample.day Leader (Js.lit "A")
    [Sample.S2]
  = Some ConsecutiveLeadership.
Proof.
  pose proof (consecutive_leadership_stage [Sample.row 1 "A" Leader Sample.S1]
                Sample.day (Js.lit "A") [Sample.S2]) as H.
  cbv zeta in H. destruct H as (_ & _ & _ & _ & _ & _ & H).
  apply (H (Sample.row 1 "A" Leader Sample.S1) 0%nat Sample.S1 Sample.S2).
  - apply list_elem_of_here.
  - reflexivity.
  - vm_compute. reflexivity.
  - reflexivity.
  - reflexivity.
  - vm_compute. apply list_elem_of_here.
  - reflexivity.
  - reflexivity.
  - vm_compute. discriminate.
  - vm_compute. lia.
  - vm_compute. reflexivity.
Defined.

(** Scenario C through C4: "Y" asks to lead the first slot, which "X" leads;
    and a run in which the page reads the table before each submission
    keeps one leader on the slot. *)
Lemma leader_unique_witness :
  Form.error
    (form (handleSubmit EXAM_END_DATE (InsertOk 2 Sample.stamp)
             (Sample.page [Sample.row 1 "X" Leader Sample.S1] Leader "Y"
                [Sample.S1])))
  = Some (Rejected (LeaderConflict Sample.S1))
  ∧ (length
       (leadersOf
          (table (run EXAM_END_DATE (mounted Sample.day [])
                    (Sample.submit 1 "X" Leader 0
                     ++ Sample.read [Sample.row 1 "X" Leader Sample.S1]
                     :: Sample.submit 2 "Y" Leader 0)))
          Sample.day Sample.S1) ≤ 1)%nat.
Proof.
  pose proof (leader_unique EXAM_END_DATE Sample.day
                (Sample.submit 1 "X" Leader 0
                 ++ Sample.read [Sample.row 1 "X" Leader Sample.S1]
                 :: Sample.submit 2 "Y" Leader 0) Sample.day Sample.S1)
    as (Hrun & H & _).
  split.
  - destruct (H (InsertOk 2 Sample.stamp)
                (Sample.page [Sample.row 1 "X" Leader Sample.S1] Leader "Y"
                   [Sample.S1])
                Sample.S1 {| count := 1; hasLeader := true |}) as [_ He].
    + reflexivity.
    + reflexivity.
    + vm_compute. reflexivity.
    + reflexivity.
    + rewrite He. vm_compute. reflexivity.
  - apply Hrun. vm_compute. repeat split; reflexivity.
Defined.

(** Scenario D through C5: "Z" books the second slot as member and, the
    page having read the table again, sends the same request. *)
Lemma duplicate_submission_witness :
  validate [Sample.row 1 "Z" Member Sample.S2]
    Sample.day Member (Js.lit "Z") [Sample.S2]
  = Some DuplicateBooking.
Proof.
  pose proof (duplicate_submission EXAM_END_DATE
                (Sample.page [] Member "Z" [Sample.S2]) 1 Sample.stamp
                Sample.S2 Member [Sample.row 1 "Z" Member Sample.S2]) as H.
  cbv zeta in H. destruct H as (_ & _ & H & _).
  - apply list_elem_of_further, list_elem_of_here.
  - reflexivity.
  - vm_compute. reflexivity.
  - vm_compute. reflexivity.
  - apply H.
    + vm_compute. lia.
    + reflexivity.
Defined.

(** C6 on scenario D: the first request of "Z", typed with blanks around
    the name, is written with the name alone; the second is rejected and
    writes nothing. *)
Lemma submit_writes_iff_valid_witness :
  table (handleSubmit EXAM_END_DATE (InsertOk 1 Sample.stamp)
           (Sample.page [] Member " Z  " [Sample.S2]))
  = [Sample.row 1 "Z" Member Sample.S2]
  ∧ table (handleSubmit EXAM_END_DATE (InsertOk 2 Sample.stamp)
             (Sample.page [Sample.row 1 "Z" Member Sample.S2] Member "Z"
                [Sample.S2]))
    = [Sample.row 1 "Z" Member Sample.S2]
  ∧ Form.error
      (form (handleSubmit EXAM_END_DATE (InsertOk 2 Sample.stamp)
               (Sample.page [Sample.row 1 "Z" Member Sample.S2] Member "Z"
                  [Sample.S2])))
    = Some (Rejected DuplicateBooking).
Proof.
  split.
  - pose proof (submit_writes_iff_valid EXAM_END_DATE (InsertOk 1 Sample.stamp)
                  (Sample.page [] Member " Z  " [Sample.S2])
                  (Sample.request Member " Z  " Sample.S2)) as H.
    cbv zeta in H.
    destruct H as (_ & _ & H & _); [reflexivity|reflexivity|reflexivity|].
    destruct (H ltac:(vm_compute; repeat constructor) 1%Z Sample.stamp eq_refl)
      as (slot & name & Hslot & Hname & Ht).
    rewrite Ht. cbn [requestSlot Sample.request] in Hslot.
    injection Hslot as <-.
    apply stripOf_unique in Hname as ->. vm_compute. reflexivity.
  - pose proof (submit_writes_iff_valid EXAM_END_DATE (InsertOk 2 Sample.stamp)
                  (Sample.page [Sample.row 1 "Z" Member Sample.S2] Member "Z"
                     [Sample.S2])
                  (Sample.request Member "Z" Sample.S2)) as H.
    cbv zeta in H.
    destruct H as (_ & H & _); [reflexivity|reflexivity|reflexivity|].
    assert (E : firstFailure
                  (stages
                     (bookings (Sample.page [Sample.row 1 "Z" Member Sample.S2]
                                  Member "Z" [Sample.S2]))
                     (Form.date (form (Sample.page
                        [Sample.row 1 "Z" Member Sample.S2] Member "Z"
                        [Sample.S2])))
                     (Sample.request Member "Z" Sample.S2))
                = Some DuplicateBooking) by (vm_compute; reflexivity).
    rewrite E in H. destruct H as (Ht & _ & He & _). by split.
Defined.

(** C7 on a day with a leader on the first slot and a member whose record
    names the first and the third slot. *)
Lemma slotStatus_index_witness :
  let rows := [Sample.row 1 "X" Leader Sample.S1;
               Sample.row 2 "P" Member (Js.lit "9:00-13:00, 19:00-22:30")] in
  slotStatus rows Sample.day !! Sample.S1 = Some {| count := 2; hasLeader := true |}
  ∧ slotStatus rows Sample.day !! Sample.S2 = Some {| count := 0; hasLeader := false |}
  ∧ slotStatus rows Sample.day !! Sample.S3 = Some {| count := 1; hasLeader := false |}.
Proof.
  cbv zeta.
  pose proof (slotStatus_index
                [Sample.row 1 "X" Leader Sample.S1;
                 Sample.row 2 "P" Member (Js.lit "9:00-13:00, 19:00-22:30")]
                Sample.day) as (H & _).
  apply Forall_cons in H as [H1 H]. apply Forall_cons in H as [H2 H].
  apply Forall_cons in H as [H3 _].
  split; [|split].
  - etransitivity; [exact H1|]. vm_compute. reflexivity.
  - etransitivity; [exact H2|]. vm_compute. reflexivity.
  - etransitivity; [exact H3|]. vm_compute. reflexivity.
Defined.

(** C8 on an empty day: with the second slot selected, selecting the first
    replaces it. *)
Lemma single_slot_records_witness :
  toggleSlot (slotStatus [] Sample.day) [Sample.S2] Sample.S1 = [Sample.S1].
Proof.
  pose proof (single_slot_records EXAM_END_DATE Sample.day [] []) as H.
  cbv zeta in H. destruct H as (_ & _ & _ & _ & _ & _ & H & _).
  apply (H (slotStatus [] Sample.day) Sample.S1 Sample.S2 no_info).
  - vm_compute. reflexivity.
  - vm_compute. lia.
  - vm_compute. discriminate.
Defined.

(** C10 on a name typed with blanks around it: the record holds the name
    alone, which has no white space at its ends. *)
Lemma stored_names_trimmed_witness :
  let es := [SetName (Js.lit "  Z "); ClickSlot 1;
             Submit (InsertOk 1 Sample.stamp)] in
  table (run EXAM_END_DATE (mounted Sample.day []) es)
  = [Sample.row 1 "Z" Member Sample.S2]
  ∧ trimmed (Js.lit "Z").
Proof.
  cbv zeta.
  pose proof (stored_names_trimmed EXAM_END_DATE Sample.day []
                [SetName (Js.lit "  Z "); ClickSlot 1;
                 Submit (InsertOk 1 Sample.stamp)]) as (H & _).
  destruct H as (added & Ht & Hall).
  assert (E : table (run EXAM_END_DATE (mounted Sample.day [])
                       [SetName (Js.lit "  Z "); ClickSlot 1;
                        Submit (InsertOk 1 Sample.stamp)])
              = [Sample.row 1 "Z" Member Sample.S2]) by (vm_compute; reflexivity).
  split; [exact E|].
  rewrite E in Ht. simpl in Ht. subst added.
  apply Forall_cons in Hall as [[Hz _] _]. exact Hz.
Defined.

(** * Further properties of the code *)

(** ** What the verdict depends on *)

Lemma slotStatus_ext (bs bs' : list Booking.t) (date : list N) :
  (∀ s, occupantCount bs date s = occupantCount bs' date s) →
  (∀ s, leaderPresent bs date s = leaderPresent bs' date s) →
  slotStatus bs date = slotStatus bs' date.
Proof.
  intros Ho Hl. apply map_eq. intros s.
  rewrite !slotStatus_lookup, Ho, Hl. done.
Qed.

Lemma hasConsecutive_ext (l l' : list Z) :
  StronglySorted Z.le l → StronglySorted Z.le l' →
  (∀ z, z ∈ l ↔ z ∈ l') → hasConsecutive l = hasConsecutive l'.
Proof.
  intros Hs Hs' H. apply eq_true_iff_eq.
  rewrite !hasConsecutive_adjacent, !sorted_adjacent by done.
  by setoid_rewrite H.
Qed.

(** The verdict only looks at the index of the day and at which
    reservations of the day there are. *)
Lemma validate_ext (bs bs' : list Booking.t) (date : list N) (role : Role)
    (name : list N) (sel : list (list N)) :
  slotStatus bs date = slotStatus bs' date →
  (∀ b, Booking.date b = date → (b ∈ bs ↔ b ∈ bs')) →
  validate bs date role name sel = validate bs' date role name sel.
Proof.
  intros Hst Hin. unfold validate. rewrite Hst.
  assert (Hc : checkConsecutive bs date role name sel
               = checkConsecutive bs' date role name sel).
  { destruct role; [|done]. unfold checkConsecutive.
    rewrite (hasConsecutive_ext _ (leaderIndices bs' date name sel));
      [done|apply leaderIndices_sorted|apply leaderIndices_sorted|].
    intros z. rewrite !elem_of_leaderIndices. unfold projectedLeaderSlot.
    split; intros (s & [Hs|(b & Hb & Hd & Hrest)] & Hp); exists s;
      (split; [|done]); [by left| |by left|].
    - right. exists b. split; [by apply Hin|done].
    - right. exists b. split; [by apply Hin|done]. }
  assert (Hd : isDuplicate bs date name sel = isDuplicate bs' date name sel).
  { apply eq_true_iff_eq. rewrite !isDuplicate_true.
    split; intros (b & Hb & Hd & Hrest); exists b;
      (split; [by apply Hin|done]). }
  by rewrite Hc, Hd.
Qed.

(** X1. The verdict does not depend on the order in which the store
    returns the reservations. *)
Theorem validate_order_independent (bs bs' : list Booking.t) (date : list N)
    (role : Role) (name : list N) (sel : list (list N)) :
  bs ≡ₚ bs' →
  validate bs date role name sel = validate bs' date role name sel
  ∧ slotStatus bs date = slotStatus bs' date.
Proof.
  intros Hp.
  assert (Hst : slotStatus bs date = slotStatus bs' date).
  { apply slotStatus_ext; intros s;
      [by apply occupantCount_perm|by apply leaderPresent_perm]. }
  split; [|done]. apply validate_ext; [done|].
  intros b _. by rewrite Hp.
Qed.

Lemma validate_order_independent_witness :
  validate [Sample.row 2 "P" Member Sample.S1; Sample.row 1 "X" Leader Sample.S1]
    Sample.day Leader (Js.lit "Y") [Sample.S1]
  = validate [Sample.row 1 "X" Leader Sample.S1; Sample.row 2 "P" Member Sample.S1]
      Sample.day Leader (Js.lit "Y") [Sample.S1].
Proof.
  apply (validate_order_independent
           [Sample.row 2 "P" Member Sample.S1; Sample.row 1 "X" Leader Sample.S1]
           [Sample.row 1 "X" Leader Sample.S1; Sample.row 2 "P" Member Sample.S1]).
  apply Permutation_swap.
Defined.

Lemma elem_of_filter_date (bs : list Booking.t) (date : list N) (b : Booking.t) :
  b ∈ List.filter (fun b => bool_decide (Booking.date b = date)) bs
  ↔ b ∈ bs ∧ Booking.date b = date.
Proof.
  rewrite list_elem_of_In, filter_In, <- list_elem_of_In.
  by rewrite bool_decide_eq_true.
Qed.

(** X2. Reservations of other days never influence the verdict: the checks
    give the same answer on the reservations of the request date alone. *)
Theorem validate_only_same_day (bs : list Booking.t) (date : list N)
    (role : Role) (name : list N) (sel : list (list N)) :
  validate bs date role name sel
  = validate (List.filter (fun b => bool_decide (Booking.date b = date)) bs)
      date role name sel.
Proof.
  apply validate_ext.
  - unfold slotStatus. by rewrite filter_date_idem.
  - intros b Hb. rewrite elem_of_filter_date. tauto.
Qed.

(** X3. Blanks around the typed name change nothing: two names with the
    same trimmed form get the same verdict and the same row. *)
Theorem validate_name_up_to_trim (bs : list Booking.t) (date : list N)
    (role : Role) (name name' : list N) (sel : list (list N)) :
  Js.trim name = Js.trim name' →
  validate bs date role name sel = validate bs date role name' sel
  ∧ newRow date role name sel = newRow date role name' sel
  ∧ validate bs date role (Js.trim name) sel = validate bs date role name sel.
Proof.
  intros H.
  assert (Hgen : ∀ n n', Js.trim n = Js.trim n' →
            validate bs date role n sel = validate bs date role n' sel).
  { intros n n' Hn.
    unfold validate, checkConsecutive, leaderIndices, existingLeaderSlots,
      isDuplicate. by rewrite Hn. }
  split; [by apply Hgen|]. split.
  - unfold newRow. by rewrite H.
  - apply Hgen. apply trim_idem.
Qed.

Lemma validate_name_up_to_trim_witness :
  validate [Sample.row 1 "Z" Member Sample.S2] Sample.day Member
    (Js.lit "  Z ") [Sample.S2]
  = validate [Sample.row 1 "Z" Member Sample.S2] Sample.day Member
      (Js.lit "Z") [Sample.S2].
Proof.
  apply (validate_name_up_to_trim [Sample.row 1 "Z" Member Sample.S2]
           Sample.day Member (Js.lit "  Z ") (Js.lit "Z") [Sample.S2]).
  vm_compute. reflexivity.
Defined.

(** ** Neighbouring slots, in either order *)

Lemma projected_leads (history : list Booking.t) (date name : list N)
    (sel : list (list N)) (s : list N) :
  projectedLeaderSlot history date name sel s
  ↔ s ∈ sel ∨ leads history date (Js.trim name) s.
Proof. unfold projectedLeaderSlot, leads. by rewrite trim_strip. Qed.

Lemma checkConsecutive_slots (history : list Booking.t) (date name : list N)
    (sel : list (list N)) :
  checkConsecutive history date Leader name sel = Some ConsecutiveLeadership
  ↔ ∃ s1 s2 p,
      projectedLeaderSlot history date name sel s1
      ∧ projectedLeaderSlot history date name sel s2
      ∧ positionOf s1 p ∧ positionOf s2 (p + 1)%Z.
Proof.
  unfold checkConsecutive.
  destruct (hasConsecutive (leaderIndices history date name sel)) eqn:Hc.
  - split; [intros _|done].
    apply hasConsecutive_adjacent, sorted_adjacent in Hc
      as (p & Hp & Hp1); [|apply leaderIndices_sorted].
    apply elem_of_leaderIndices in Hp as (s1 & ? & ?).
    apply elem_of_leaderIndices in Hp1 as (s2 & ? & ?).
    by exists s1, s2, p.
  - split; [done|]. intros (s1 & s2 & p & H1 & H2 & Hp1 & Hp2).
    assert (hasConsecutive (leaderIndices history date name sel) = true);
      [|congruence].
    apply hasConsecutive_adjacent, sorted_adjacent; [apply leaderIndices_sorted|].
    exists p. rewrite !elem_of_leaderIndices. split; eauto.
Qed.

Lemma positionOf_inj (s : list N) (p q : Z) : positionOf s p → positionOf s q → p = q.
Proof.
  intros Hp Hq. apply indexOf_position in Hp as [<- _].
  by apply indexOf_position in Hq as [<- _].
Qed.

(** X4. The consecutive-leadership check rejects a leader request exactly
    when two of the slots involved (those the booker already leads on that
    date and those requested) are neighbours in the catalog, whichever was
    booked first: the holder of position [i + 1] asking for position [i] is
    rejected like the holder of [i] asking for [i + 1], and a booker whose
    only led slot is not a neighbour of the wanted one passes the check. *)
Theorem consecutive_either_order (history : list Booking.t) (date name : list N) :
  (∀ sel,
     checkConsecutive history date Leader name sel = Some ConsecutiveLeadership
     ↔ ∃ s1 s2 p,
         projectedLeaderSlot history date name sel s1
         ∧ projectedLeaderSlot history date name sel s2
         ∧ positionOf s1 p ∧ positionOf s2 (p + 1)%Z)
  ∧ (∀ (held wanted : list N) (i : Z),
       leads history date (Js.trim name) held →
       positionOf wanted i → positionOf held (i + 1)%Z →
       validate history date Leader name [wanted] ≠ None)
  ∧ (∀ (held wanted : list N) (i j : Z),
       (∀ s, leads history date (Js.trim name) s → s = held) →
       positionOf held i → positionOf wanted j →
       j ≠ (i + 1)%Z → i ≠ (j + 1)%Z →
       checkConsecutive history date Leader name [wanted] = None).
Proof.
  split; [intros sel; apply checkConsecutive_slots|]. split.
  - intros held wanted i Hl Hw Hh.
    assert (Hc : checkConsecutive history date Leader name [wanted]
                 = Some ConsecutiveLeadership).
    { apply checkConsecutive_slots. exists wanted, held, i.
      repeat split; try done; try apply Hw; try apply Hh.
      - left. by apply list_elem_of_singleton.
      - apply projected_leads. by right. }
    unfold validate. cbn [length Nat.eqb].
    case_bool_decide; [done|].
    destruct (checkSlots _ _ _); [done|]. by rewrite Hc.
  - intros held wanted i j Honly Hi Hj Hne1 Hne2.
    destruct (checkConsecutive history date Leader name [wanted]) as [r|] eqn:Hc;
      [|done].
    assert (r = ConsecutiveLeadership) as ->.
    { unfold checkConsecutive in Hc. destruct (hasConsecutive _); congruence. }
    exfalso.
    apply checkConsecutive_slots in Hc as (s1 & s2 & p & H1 & H2 & Hp1 & Hp2).
    assert (Hpos : ∀ s q, projectedLeaderSlot history date name [wanted] s →
                     positionOf s q → q = i ∨ q = j).
    { intros s q Hs Hq. apply projected_leads in Hs as [Hs|Hs].
      - apply list_elem_of_singleton in Hs as ->. right.
        by apply (positionOf_inj wanted).
      - apply Honly in Hs as ->. left. by apply (positionOf_inj held). }
    destruct (Hpos _ _ H1 Hp1), (Hpos _ _ H2 Hp2); lia.
Qed.

(** Scenario A in the other order: "A" leads the second slot and asks for
    the first. *)
Lemma consecutive_either_order_witness :
  validate [Sample.row 1 "A" Leader Sample.S2] Sample.day Leader (Js.lit "A")
    [Sample.S1] ≠ None.
Proof.
  pose proof (consecutive_either_order [Sample.row 1 "A" Leader Sample.S2]
                Sample.day (Js.lit "A")) as (_ & H & _).
  apply (H Sample.S2 Sample.S1 0%Z).
  - exists (Sample.row 1 "A" Leader Sample.S2).
    split; [apply list_elem_of_here|]. split; [reflexivity|].
    split; [vm_compute; reflexivity|]. split; [reflexivity|].
    vm_compute. apply list_elem_of_here.
  - split; [lia|reflexivity].
  - split; [lia|reflexivity].
Defined.

(** ** What a sequence of submissions keeps true *)

Lemma holdingsOf_snoc (bs : list Booking.t) (b : Booking.t) (date name s : list N) :
  holdingsOf (bs ++ [b]) date name s
  = holdingsOf bs date name s
    ++ (if bool_decide (Booking.date b = date)
           && bool_decide (Booking.leader b = name)
           && bool_decide (s ∈ labelsOf b)
        then [b] else []).
Proof. unfold holdingsOf. rewrite List.filter_app. simpl. by destruct (_ && _). Qed.

Lemma holdingsOf_absent (bs : list Booking.t) (date name s : list N) :
  isDuplicate bs date name [s] = false → holdingsOf bs date (Js.trim name) s = [].
Proof.
  intros Hd. destruct (holdingsOf bs date (Js.trim name) s) as [|b l] eqn:E; [done|].
  assert (Hb : b ∈ holdingsOf bs date (Js.trim name) s) by (rewrite E; left).
  apply elem_of_holdingsOf in Hb as (Hb & Hdt & Hn & Hs).
  assert (isDuplicate bs date name [s] = true); [|congruence].
  apply isDuplicate_true. exists b. rewrite bookedSlots_labelsOf.
  repeat split; try done. exists s. split; [done|]. by apply list_elem_of_singleton.
Qed.

Lemma isDuplicate_perm (bs bs' : list Booking.t) (date name : list N)
    (sel : list (list N)) :
  bs ≡ₚ bs' → isDuplicate bs date name sel = isDuplicate bs' date name sel.
Proof.
  intros H. apply eq_true_iff_eq. rewrite !isDuplicate_true. by setoid_rewrite H.
Qed.

Lemma holdings_step (examEndDate : list N) (date name s : list N) (w : World)
    (e : Event) :
  selectionOk w → (∀ reply, e = Submit reply → upToDate w) →
  (length (holdingsOf (table w) date name s) ≤ 1)%nat →
  (length (holdingsOf (table (step examEndDate w e)) date name s) ≤ 1)%nat.
Proof.
  intros Hw Hfresh Hc.
  destruct (step_table examEndDate w e Hw)
    as [Ht|(id & ca & s0 & He & Hs0 & _ & Hv & Ht)]; rewrite Ht; [done|].
  apply validate_admitted in Hv as (_ & _ & _ & _ & Hdup); [|done].
  rewrite holdingsOf_snoc, labelsOf_stored by done.
  destruct (_ && _) eqn:Hcond; [|by rewrite app_nil_r].
  apply andb_true_iff in Hcond as [Hcond Hs].
  apply andb_true_iff in Hcond as [Hd Hn].
  apply bool_decide_eq_true in Hd, Hn, Hs. simpl in Hd, Hn.
  apply list_elem_of_singleton in Hs as ->.
  rewrite (isDuplicate_perm _ _ _ _ _ (Hfresh _ He)), Hd in Hdup.
  apply holdingsOf_absent in Hdup. rewrite Hn in Hdup. by rewrite Hdup.
Qed.

(** X5. No booker comes to hold two reservations on the same date and slot:
    if a table has at most one reservation of a name on a pair, it still has
    after any sequence of events of the page in which every submission is
    made while the page is up to date. *)
Theorem one_reservation_per_booker (examEndDate defaultDate : list N)
    (table0 : list Booking.t) (es : list Event) (date name s : list N) :
  (length (holdingsOf table0 date name s) ≤ 1)%nat →
  submitsUpToDate examEndDate (mounted defaultDate table0) es →
  (length (holdingsOf (table (run examEndDate (mounted defaultDate table0) es))
             date name s) ≤ 1)%nat.
Proof.
  intros H0 Hfresh.
  apply (run_invariant examEndDate
           (fun w => (length (holdingsOf (table w) date name s) ≤ 1)%nat));
    [intros; by apply holdings_step|apply mounted_selectionOk|done|done].
Qed.

Lemma one_reservation_per_booker_witness :
  (length
     (holdingsOf
        (table (run EXAM_END_DATE
                  (mounted Sample.day [Sample.row 1 "Z" Member Sample.S2])
                  (Sample.read [Sample.row 1 "Z" Member Sample.S2]
                   :: Sample.submit 2 "Z" Member 1
                   ++ Sample.submit 3 "Z" Leader 1)))
        Sample.day (Js.lit "Z") Sample.S2) ≤ 1)%nat.
Proof.
  apply (one_reservation_per_booker EXAM_END_DATE Sample.day
           [Sample.row 1 "Z" Member Sample.S2]).
  - vm_compute. lia.
  - vm_compute. repeat split; reflexivity.
Defined.

Lemma leads_snoc (bs : list Booking.t) (b : Booking.t) (date name s : list N) :
  leads (bs ++ [b]) date name s
  ↔ leads bs date name s
    ∨ (Booking.date b = date ∧ Booking.leader b = name
       ∧ Booking.members b = Js.lit "leader" ∧ s ∈ labelsOf b).
Proof.
  unfold leads. split.
  - intros (b' & Hb & H). apply elem_of_app in Hb as [Hb|Hb]; [left; eauto|].
    apply list_elem_of_singleton in Hb as ->. by right.
  - intros [(b' & Hb & H)|H].
    + exists b'. split; [apply elem_of_app; by left|done].
    + exists b. split; [|done]. apply elem_of_app. right.
      by apply list_elem_of_singleton.
Qed.

Lemma leads_perm (bs bs' : list Booking.t) (date name s : list N) :
  bs ≡ₚ bs' → (leads bs date name s ↔ leads bs' date name s).
Proof. intros H. unfold leads. by setoid_rewrite H. Qed.

Lemma consecutive_step (examEndDate : list N) (date name : list N) (w : World)
    (e : Event) :
  selectionOk w → (∀ reply, e = Submit reply → upToDate w) →
  ¬ leadsConsecutive (table w) date name →
  ¬ leadsConsecutive (table (step examEndDate w e)) date name.
Proof.
  intros Hw Hfresh Hc.
  destruct (step_table examEndDate w e Hw)
    as [Ht|(id & ca & s0 & He & Hs0 & _ & Hv & Ht)]; rewrite Ht; [done|].
  apply validate_admitted in Hv as (_ & _ & _ & Hcons & _); [|done].
  intros (s1 & s2 & p & H1 & H2 & Hp1 & Hp2).
  rewrite leads_snoc in H1, H2. rewrite labelsOf_stored in H1, H2 by done.
  simpl in H1, H2.
  destruct (decide (Form.date (form w) = date ∧ Js.trim (Form.name (form w)) = name
                    ∧ role_str (Form.role (form w)) = Js.lit "leader"))
    as [(Hd & Hn & Hr)|Hnot].
  - apply role_str_leader in Hr. rewrite Hr in Hcons.
    assert (Hrej : checkConsecutive (bookings w) (Form.date (form w)) Leader
                     (Form.name (form w)) [s0] = Some ConsecutiveLeadership);
      [|congruence].
    pose proof (Hfresh _ He) as Hsync.
    assert (Hproj : ∀ s,
              leads (table w) date name s
              ∨ (Form.date (form w) = date ∧ Js.trim (Form.name (form w)) = name
                 ∧ role_str (Form.role (form w)) = Js.lit "leader" ∧ s ∈ [s0]) →
              projectedLeaderSlot (bookings w) (Form.date (form w))
                (Form.name (form w)) [s0] s).
    { intros s [Hl|(_ & _ & _ & Hs)]; apply projected_leads; [|by left].
      right. rewrite Hd, Hn. by apply (leads_perm _ _ _ _ _ Hsync). }
    apply checkConsecutive_slots. exists s1, s2, p.
    split; [by apply Hproj|]. split; [by apply Hproj|]. by split.
  - apply Hc. exists s1, s2, p.
    assert (Hold : ∀ s,
              leads (table w) date name s
              ∨ (Form.date (form w) = date ∧ Js.trim (Form.name (form w)) = name
                 ∧ role_str (Form.role (form w)) = Js.lit "leader" ∧ s ∈ [s0]) →
              leads (table w) date name s).
    { intros s [Hl|(Hd & Hn & Hr & _)]; [done|].
      exfalso. by apply Hnot. }
    split; [by apply Hold|]. split; [by apply Hold|]. by split.
Qed.

(** X6. No booker comes to lead two neighbouring slots of one day: if no
    reservation pair of a table does, none does after any sequence of
    events of the page in which every submission is made while the page is
    up to date. *)
Theorem no_consecutive_leaders (examEndDate defaultDate : list N)
    (table0 : list Booking.t) (es : list Event) (date name : list N) :
  ¬ leadsConsecutive table0 date name →
  submitsUpToDate examEndDate (mounted defaultDate table0) es →
  ¬ leadsConsecutive (table (run examEndDate (mounted defaultDate table0) es))
      date name.
Proof.
  intros H0 Hfresh.
  apply (run_invariant examEndDate
           (fun w => ¬ leadsConsecutive (table w) date name));
    [intros; by apply consecutive_step|apply mounted_selectionOk|done|done].
Qed.

Lemma no_consecutive_leaders_witness :
  ¬ leadsConsecutive
      (table (run EXAM_END_DATE (mounted Sample.day [])
                (Sample.submit 1 "A" Leader 0
                 ++ Sample.read [Sample.row 1 "A" Leader Sample.S1]
                 :: Sample.submit 2 "A" Leader 1)))
      Sample.day (Js.lit "A").
Proof.
  apply (no_consecutive_leaders EXAM_END_DATE Sample.day []).
  - intros (s1 & s2 & p & (b & Hb & _) & _). by apply elem_of_nil in Hb.
  - vm_compute. repeat split; reflexivity.
Defined.

(** Why the submissions have to be made while the page is up to date: "A"
    asks to lead the first slot and then the second before the read started
    by the first admission has answered; both requests are admitted. *)
Example consecutive_stale_bookings :
  table (run EXAM_END_DATE (mounted Sample.day [])
           (Sample.submit 1 "A" Leader 0 ++ Sample.submit 2 "A" Leader 1))
  = [Sample.row 1 "A" Leader Sample.S1; Sample.row 2 "A" Leader Sample.S2].
Proof. by vm_compute. Qed.

Lemma checkSlots_not_full (bs : list Booking.t) (date : list N) (role : Role)
    (s s' : list N) :
  s ∈ TIME_SLOTS → (occupantCount bs date s < MAX_CAPACITY)%nat →
  checkSlots (slotStatus bs date) role [s] ≠ Some (SlotFull s').
Proof.
  intros Hs Hc. rewrite checkSlots_single by done.
  destruct (Nat.leb_spec MAX_CAPACITY (occupantCount bs date s)); [lia|].
  by destruct (_ && _).
Qed.

Lemma validate_not_full (w : World) (s : list N) :
  selectionOk w → selectionOpen w →
  validate (bookings w) (Form.date (form w)) (Form.role (form w))
    (Form.name (form w)) (Form.selectedSlots (form w)) ≠ Some (SlotFull s).
Proof.
  intros Hsel Hopen. unfold selectionOpen in Hopen.
  destruct Hsel as [Hnil|(s0 & Hs0 & Hsel)].
  - by rewrite Hnil.
  - rewrite Hsel in Hopen |- *. unfold validate. cbn [length Nat.eqb].
    case_bool_decide; [done|].
    destruct (checkSlots _ _ _) as [r|] eqn:Hc.
    + intros [= ->]. revert Hc. apply checkSlots_not_full; [done|].
      apply Hopen. by apply list_elem_of_singleton.
    + destruct (checkConsecutive _ _ _ _ _) as [r|] eqn:Hcc.
      * unfold checkConsecutive in Hcc. destruct (Form.role (form w)); [|done].
        destruct (hasConsecutive _); congruence.
      * by destruct (isDuplicate _ _ _ _).
Qed.

(** As long as no read answers, a selected slot stays one that the page
    shows with a free place. *)
Lemma step_selectionOpen (examEndDate : list N) (w : World) (e : Event) :
  match e with Fetched _ => False | _ => True end →
  selectionOpen w → selectionOpen (step examEndDate w e).
Proof.
  intros He Hopen.
  assert (Hnil : ∀ w', Form.selectedSlots (form w') = [] → selectionOpen w').
  { intros w' E s Hs. rewrite E in Hs. by apply elem_of_nil in Hs. }
  destruct e as [d|r|n|k|reply| |reply]; simpl; try exact Hopen; [| | |done].
  - by apply Hnil.
  - destruct (TIME_SLOTS !! k) as [slot|] eqn:Hk; [|exact Hopen].
    assert (Hslot : slot ∈ TIME_SLOTS) by (eapply list_elem_of_lookup_2; eauto).
    intros s Hs. simpl in Hs |- *.
    destruct (toggleSlot_cases (slotStatus (bookings w) (Form.date (form w)))
                (Form.selectedSlots (form w)) slot)
      as [E | [E | [E (o & Ho & Hc)]]]; rewrite E in Hs.
    + by apply Hopen.
    + by apply elem_of_nil in Hs.
    + apply list_elem_of_singleton in Hs as ->.
      rewrite slotStatus_lookup, decide_True in Ho by (by left).
      injection Ho as <-. done.
  - unfold handleSubmit. destruct (validate _ _ _ _ _); [exact Hopen|].
    destruct reply as [id ca|msg]; [by apply Hnil|exact Hopen].
Qed.

(** X7. The second capacity check of the handler ("Double Check") only
    fires when the bookings of the page were replaced after the slot was
    selected: from a page whose selection is open, as it is when the page
    mounts or right after a click, no sequence of events without an answer
    to a read makes the handler show that the slot has just become full.
    With such an answer between the click and the submission the message
    is shown: the page mounts over a full first slot, the slot is selected
    before the first read answers, and the submission is made after. *)
Theorem slot_full_only_after_refresh (examEndDate : list N) :
  (∀ (w : World) (es : list Event) (s : list N),
     selectionOk w → selectionOpen w → noAnswer es →
     Form.error (form w) ≠ Some (Rejected (SlotFull s)) →
     Form.error (form (run examEndDate w es)) ≠ Some (Rejected (SlotFull s)))
  ∧ (∀ defaultDate table0,
       selectionOk (mounted defaultDate table0)
       ∧ selectionOpen (mounted defaultDate table0))
  ∧ let full := [Sample.row 1 "P" Member Sample.S1;
                 Sample.row 2 "Q" Member Sample.S1;
                 Sample.row 3 "R" Member Sample.S1] in
    Form.error
      (form (run examEndDate (mounted Sample.day full)
               [SetName (Js.lit "D"); ClickSlot 0; Sample.read full;
                Submit (InsertOk 4 Sample.stamp)]))
    = Some (Rejected (SlotFull Sample.S1)).
Proof.
  split; [|split].
  - intros w es s Hsel Hopen Hno. revert w Hsel Hopen.
    induction Hno as [|e es He _ IH]; intros w Hsel Hopen Herr; [done|].
    unfold run. cbn [foldl]. apply IH.
    + by apply step_selectionOk.
    + by apply step_selectionOpen.
    + destruct e as [d|r|n|k|reply| |reply]; simpl; try done.
      * by destruct (TIME_SLOTS !! k).
      * unfold handleSubmit.
        destruct (validate _ _ _ _ _) as [r|] eqn:Hv; simpl.
        -- intros [= ->]. by apply (validate_not_full w s).
        -- by destruct reply.
  - intros defaultDate table0. split; [by left|].
    intros s Hs. by apply elem_of_nil in Hs.
  - by vm_compute.
Qed.

Lemma slot_full_only_after_refresh_witness :
  Form.error
    (form (run EXAM_END_DATE
             (mounted Sample.day [Sample.row 1 "P" Member Sample.S1;
                                  Sample.row 2 "Q" Member Sample.S1;
                                  Sample.row 3 "R" Member Sample.S1])
             [SetName (Js.lit "D"); ClickSlot 0;
              Submit (InsertOk 4 Sample.stamp)]))
  ≠ Some (Rejected (SlotFull Sample.S1)).
Proof.
  pose proof (slot_full_only_after_refresh EXAM_END_DATE) as (H & Hm & _).
  apply H.
  - apply Hm.
  - apply Hm.
  - repeat constructor.
  - discriminate.
Defined.

(** ** The status card *)

Lemma foldl_map {A B C} (f : A → B → A) (g : C → B) (l : list C) (a : A) :
  foldl f a (List.map g l) = foldl (fun a x => f a (g x)) a l.
Proof. revert a. induction l as [|x l IH]; intros a; simpl; [done|apply IH]. Qed.

Lemma count_fmap_init (labels : list (list N)) (m : gmap (list N) nat)
    (st : gmap (list N) SlotInfo) :
  m = count <$> st →
  foldl (fun m t => <[t := 0%nat]> m) m labels
  = count <$> foldl (fun st t => <[t := no_info]> st) st labels.
Proof.
  revert m st. induction labels as [|t labels IH]; intros m st ->; simpl; [done|].
  apply IH. by rewrite fmap_insert.
Qed.

Lemma count_fmap_bump (isLeader : bool) (st : gmap (list N) SlotInfo) (k : list N) :
  <[k := S (default 0%nat ((count <$> st) !! k))]> (count <$> st)
  = count <$> bump isLeader st k.
Proof.
  unfold bump, getOrZero. rewrite fmap_insert, lookup_fmap. simpl.
  by destruct (st !! k).
Qed.

Lemma count_fmap_parts (isLeader : bool) (parts : list (list N))
    (st : gmap (list N) SlotInfo) :
  foldl (fun m s => <[Js.trim s := S (default 0%nat (m !! Js.trim s))]> m)
    (count <$> st) parts
  = count <$> foldl (bump isLeader) st (List.map Js.trim parts).
Proof.
  revert st. induction parts as [|p parts IH]; intros st; simpl; [done|].
  rewrite (count_fmap_bump isLeader). apply IH.
Qed.

Lemma slotCounts_slotStatus (bookings : list Booking.t) (d : list N) :
  slotCounts bookings d = count <$> slotStatus bookings d.
Proof.
  unfold slotCounts, slotStatus.
  generalize (List.filter (fun b => bool_decide (Booking.date b = d)) bookings).
  intros bs.
  rewrite (count_fmap_init TIME_SLOTS ∅ ∅) by (by rewrite fmap_empty).
  generalize (foldl (fun st t => <[t := no_info]> st)
                (∅ : gmap (list N) SlotInfo) TIME_SLOTS).
  induction bs as [|b bs IH]; intros st; simpl; [done|].
  unfold bookedSlots at 1.
  rewrite (count_fmap_parts (bool_decide (Booking.members b = Js.lit "leader"))).
  apply IH.
Qed.

Lemma slotCounts_default (bookings : list Booking.t) (d s : list N) :
  default 0%nat (slotCounts bookings d !! s) = occupantCount bookings d s.
Proof.
  rewrite slotCounts_slotStatus, lookup_fmap.
  pose proof (slotStatus_get bookings d s) as Hg. unfold getOrZero in Hg.
  destruct (slotStatus bookings d !! s) as [o|] eqn:Ho; simpl in *.
  - by rewrite Hg.
  - by injection Hg as <- _.
Qed.

(** X8. The status card and the form count alike: for every label the
    card's map holds the count of the form's index for the same day, which
    is the number of times the reservations of that day occupy the label. *)
Theorem card_counts_agree_with_form (bookings : list Booking.t) (d s : list N) :
  slotCounts bookings d !! s = count <$> (slotStatus bookings d !! s)
  ∧ default 0%nat (slotCounts bookings d !! s) = occupantCount bookings d s.
Proof.
  split; [by rewrite slotCounts_slotStatus, lookup_fmap|apply slotCounts_default].
Qed.

Lemma statusLists_fold (bookings : list Booking.t) (d : list N)
    (labels : list (list N)) (full : list (list N)) (avail : list AvailableSlot) :
  foldl (fun '(fullyBookedSlots, availableSlots) slot =>
           let count := default 0%nat (slotCounts bookings d !! slot) in
           if (MAX_CAPACITY <=? count)%nat
           then (fullyBookedSlots ++ [slot], availableSlots)
           else (fullyBookedSlots,
                 availableSlots
                 ++ [{| slotName := slot; remaining := MAX_CAPACITY - count |}]))
        (full, avail) labels
  = (full ++ List.filter
               (fun s => (MAX_CAPACITY <=? occupantCount bookings d s)%nat) labels,
     avail ++ List.map
                (fun s => {| slotName := s;
                             remaining := MAX_CAPACITY - occupantCount bookings d s |})
                (List.filter
                   (fun s => negb (MAX_CAPACITY <=? occupantCount bookings d s)%nat)
                   labels)).
Proof.
  revert full avail. induction labels as [|t labels IH]; intros full avail.
  - simpl. by rewrite !app_nil_r.
  - cbn [foldl List.filter].
    rewrite slotCounts_default.
    destruct (MAX_CAPACITY <=? occupantCount bookings d t)%nat; simpl;
      rewrite IH; by rewrite <- app_assoc.
Qed.

Lemma filter_split_perm {A} (f : A → bool) (l : list A) :
  List.filter f l ++ List.filter (fun x => negb (f x)) l ≡ₚ l.
Proof.
  induction l as [|x l IH]; [done|]. simpl. destruct (f x); simpl.
  - by rewrite IH.
  - rewrite <- Permutation_middle. by rewrite IH.
Qed.

Lemma statusLists_closed (bookings : list Booking.t) (d : list N) :
  fullyBookedSlots bookings d
  = List.filter (fun s => (MAX_CAPACITY <=? occupantCount bookings d s)%nat)
      TIME_SLOTS
  ∧ availableSlots bookings d
    = List.map
        (fun s => {| slotName := s;
                     remaining := MAX_CAPACITY - occupantCount bookings d s |})
        (List.filter
           (fun s => negb (MAX_CAPACITY <=? occupantCount bookings d s)%nat)
           TIME_SLOTS).
Proof.
  unfold fullyBookedSlots, availableSlots, statusLists.
  by rewrite statusLists_fold.
Qed.

Lemma elem_of_fullyBooked (bookings : list Booking.t) (d s : list N) :
  s ∈ fullyBookedSlots bookings d
  ↔ s ∈ TIME_SLOTS ∧ (MAX_CAPACITY ≤ occupantCount bookings d s)%nat.
Proof.
  rewrite (proj1 (statusLists_closed bookings d)).
  rewrite list_elem_of_In, filter_In, <- list_elem_of_In.
  by rewrite Nat.leb_le.
Qed.

Lemma elem_of_available (bookings : list Booking.t) (d : list N) (a : AvailableSlot) :
  a ∈ availableSlots bookings d
  ↔ slotName a ∈ TIME_SLOTS
    ∧ (occupantCount bookings d (slotName a) < MAX_CAPACITY)%nat
    ∧ remaining a = (MAX_CAPACITY - occupantCount bookings d (slotName a))%nat.
Proof.
  rewrite (proj2 (statusLists_closed bookings d)).
  rewrite list_elem_of_In, in_map_iff. split.
  - intros (s & <- & Hs). apply filter_In in Hs as [Hs Hc].
    apply negb_true_iff, Nat.leb_gt in Hc. simpl. by rewrite list_elem_of_In.
  - intros (Hs & Hc & Hr). exists (slotName a). split.
    + destruct a as [n r]. simpl in *. by rewrite Hr.
    + apply filter_In. rewrite <- list_elem_of_In. split; [done|].
      by apply negb_true_iff, Nat.leb_gt.
Qed.

(** X9. The status card sorts the catalog into two lists that keep the
    catalog order and together hold every label exactly once: the fully
    booked slots are those with at least three occupants, every other slot
    is listed as available with between one and three places left, the
    places left and the occupants adding up to the capacity; the card says
    that all is full exactly when every slot of the catalog is. *)
Theorem card_lists_partition (bookings : list Booking.t) (d : list N) :
  fullyBookedSlots bookings d
  = List.filter (fun s => (MAX_CAPACITY <=? occupantCount bookings d s)%nat)
      TIME_SLOTS
  ∧ List.map slotName (availableSlots bookings d)
    = List.filter
        (fun s => negb (MAX_CAPACITY <=? occupantCount bookings d s)%nat)
        TIME_SLOTS
  ∧ fullyBookedSlots bookings d ++ List.map slotName (availableSlots bookings d)
    ≡ₚ TIME_SLOTS
  ∧ Forall (fun a => (1 ≤ remaining a ≤ MAX_CAPACITY)%nat
                     ∧ (remaining a + occupantCount bookings d (slotName a)
                        = MAX_CAPACITY)%nat)
           (availableSlots bookings d)
  ∧ (isAllFull bookings d = true
     ↔ ∀ s, s ∈ TIME_SLOTS → (MAX_CAPACITY ≤ occupantCount bookings d s)%nat).
Proof.
  destruct (statusLists_closed bookings d) as [Hf Ha].
  assert (Hnames : List.map slotName (availableSlots bookings d)
                   = List.filter
                       (fun s => negb (MAX_CAPACITY <=? occupantCount bookings d s)%nat)
                       TIME_SLOTS).
  { rewrite Ha, List.map_map. simpl. apply List.map_id. }
  split; [done|]. split; [done|]. split.
  { rewrite Hf, Hnames. apply filter_split_perm. }
  split.
  { apply Forall_forall. intros a Ha'.
    apply elem_of_available in Ha' as (_ & Hc & ->). lia. }
  unfold isAllFull. rewrite Nat.eqb_eq. split.
  - intros Hlen s Hs.
    destruct (Nat.le_gt_cases MAX_CAPACITY (occupantCount bookings d s)) as [|Hlt];
      [done|].
    assert (Hin : {| slotName := s;
                     remaining := MAX_CAPACITY - occupantCount bookings d s |}
                  ∈ availableSlots bookings d) by (by apply elem_of_available).
    destruct (availableSlots bookings d); [by apply elem_of_nil in Hin|done].
  - intros Hall. destruct (availableSlots bookings d) as [|a l] eqn:E; [done|].
    assert (Hin : a ∈ availableSlots bookings d) by (rewrite E; left).
    apply elem_of_available in Hin as (Hs & Hc & _). apply Hall in Hs. lia.
Qed.

Lemma holdingsOf_nil_no_duplicate (bs : list Booking.t) (date name s : list N) :
  holdingsOf bs date (Js.trim name) s = [] → isDuplicate bs date name [s] = false.
Proof.
  intros Hh. destruct (isDuplicate bs date name [s]) eqn:Hd; [|done].
  apply isDuplicate_true in Hd as (b & Hb & Hdt & Hn & s' & Hs' & Hi).
  apply list_elem_of_singleton in Hi as ->.
  assert (Hin : b ∈ holdingsOf bs date (Js.trim name) s).
  { apply elem_of_holdingsOf. by rewrite <- bookedSlots_labelsOf. }
  rewrite Hh in Hin. by apply elem_of_nil in Hin.
Qed.

(** X10. The card and the form agree on the default day of the form: a
    slot the card lists as fully booked cannot be selected and no request
    for it is admitted; a slot the card lists as available admits, as
    member, any booker with a non-blank name who has no reservation on it. *)
Theorem card_matches_form (bookings : list Booking.t) (d : list N) :
  (∀ s, s ∈ fullyBookedSlots bookings d →
        ∀ (sel : list (list N)) (role : Role) (name : list N),
          toggleSlot (slotStatus bookings d) sel s = sel
          ∧ validate bookings d role name [s] ≠ None)
  ∧ (∀ a, a ∈ availableSlots bookings d →
          ∀ name : list N,
            Js.trim name ≠ [] →
            holdingsOf bookings d (Js.trim name) (slotName a) = [] →
            validate bookings d Member name [slotName a] = None).
Proof.
  split.
  - intros s Hs sel role name. apply elem_of_fullyBooked in Hs as [Hs Hc].
    split.
    + unfold toggleSlot. rewrite slotStatus_lookup, decide_True by (by left).
      cbn [count].
      destruct (Nat.leb_spec MAX_CAPACITY (occupantCount bookings d s)); [done|lia].
    + unfold validate. cbn [length Nat.eqb]. case_bool_decide; [done|].
      rewrite checkSlots_single by done.
      destruct (Nat.leb_spec MAX_CAPACITY (occupantCount bookings d s)); [done|lia].
  - intros a Ha name Hn Hh. apply elem_of_available in Ha as (Hs & Hc & _).
    unfold validate. cbn [length Nat.eqb].
    rewrite bool_decide_eq_false_2 by done.
    rewrite checkSlots_single by done.
    destruct (Nat.leb_spec MAX_CAPACITY (occupantCount bookings d (slotName a)));
      [lia|].
    cbn [is_leader andb checkConsecutive].
    by rewrite holdingsOf_nil_no_duplicate.
Qed.

(** Scenario B and its neighbour through X10: the first slot is full, the
    second is free for "D". *)
Lemma card_matches_form_witness :
  validate [Sample.row 1 "P" Member Sample.S1; Sample.row 2 "Q" Member Sample.S1;
            Sample.row 3 "R" Member Sample.S1]
    Sample.day Member (Js.lit "D") [Sample.S1] ≠ None
  ∧ validate [Sample.row 1 "P" Member Sample.S1; Sample.row 2 "Q" Member Sample.S1;
              Sample.row 3 "R" Member Sample.S1]
      Sample.day Member (Js.lit "D") [Sample.S2] = None.
Proof.
  pose proof (card_matches_form
                [Sample.row 1 "P" Member Sample.S1; Sample.row 2 "Q" Member Sample.S1;
                 Sample.row 3 "R" Member Sample.S1] Sample.day) as [Hfull Hopen].
  split.
  - apply (Hfull Sample.S1); [|exact []].
    vm_compute. apply list_elem_of_here.
  - apply (Hopen {| slotName := Sample.S2; remaining := 3 |}).
    + vm_compute. apply list_elem_of_here.
    + vm_compute. discriminate.
    + vm_compute. reflexivity.
Defined.

(** ** The slot buttons *)

(** X11. A click on a slot button changes the selection exactly when the
    button is enabled: on a full slot the button is disabled and the click
    handler leaves the selection alone; on any other catalog slot the button
    is enabled and the click selects the slot or clears the selection. *)
Theorem click_changes_iff_enabled (bookings : list Booking.t) (date : list N)
    (role : Role) (sel : list (list N)) (slot : list N) :
  slot ∈ TIME_SLOTS →
  let status := slotStatus bookings date in
  (buttonDisabled (slotButton status role sel slot) = false
   ↔ toggleSlot status sel slot ≠ sel)
  ∧ (buttonDisabled (slotButton status role sel slot) = true
     ↔ (MAX_CAPACITY ≤ occupantCount bookings date slot)%nat)
  ∧ (toggleSlot status sel slot = sel
     ∨ toggleSlot status sel slot = [] ∨ toggleSlot status sel slot = [slot]).
Proof.
  intros Hs. cbv zeta. unfold slotButton, toggleSlot.
  rewrite slotStatus_get, slotStatus_lookup, decide_True by (by left).
  cbn [count hasLeader]. unfold Js.includes.
  destruct (Nat.leb_spec MAX_CAPACITY (occupantCount bookings date slot)) as [Hc|Hc].
  - simpl. split; [|split; [|by left]].
    + split; [done|]. intros H. by destruct H.
    + by split.
  - case_bool_decide as Hin; simpl.
    + split; [|split; [|tauto]].
      * split; [|done]. intros _ Heq. rewrite <- Heq in Hin.
        by apply elem_of_nil in Hin.
      * split; [done|lia].
    + split; [|split; [|tauto]].
      * split; [|done]. intros _ Heq. apply Hin. rewrite <- Heq. left.
      * split; [done|lia].
Qed.

Lemma click_changes_iff_enabled_witness :
  toggleSlot (slotStatus [] Sample.day) [Sample.S2] Sample.S1 ≠ [Sample.S2].
Proof.
  pose proof (click_changes_iff_enabled [] Sample.day Member [Sample.S2] Sample.S1)
    as H.
  cbv zeta in H. destruct H as ([H _] & _).
  - apply list_elem_of_here.
  - apply H. vm_compute. reflexivity.
Defined.

Lemma checkSlots_led (status : gmap (list N) SlotInfo) (sel : list (list N))
    (s : list N) (o : SlotInfo) :
  s ∈ sel → status !! s = Some o → hasLeader o = true →
  checkSlots status Leader sel ≠ None.
Proof.
  intros Hs Ho Hl. induction sel as [|t sel IH]; [by apply elem_of_nil in Hs|].
  cbn [checkSlots]. apply elem_of_cons in Hs as [<-|Hs].
  - rewrite Ho, Hl. by destruct (_ <=? _)%nat.
  - destruct (status !! t) as [o'|]; [|by apply IH].
    destruct (_ <=? _)%nat; [done|]. destruct (_ && _); [done|by apply IH].
Qed.

(** X12. The amber note under the slot buttons is a reliable warning:
    whenever it is shown the submission will be rejected, and every
    rejection for a leader conflict was announced by it. *)
Theorem leader_warning_sound (bookings : list Booking.t) (date : list N)
    (role : Role) (name : list N) (sel : list (list N)) :
  (leaderWarning (slotStatus bookings date) role sel = true →
   validate bookings date role name sel ≠ None)
  ∧ (∀ s, validate bookings date role name sel = Some (LeaderConflict s) →
          leaderWarning (slotStatus bookings date) role sel = true).
Proof.
  split.
  - unfold leaderWarning. intros H. apply andb_true_iff in H as [Hr Hex].
    destruct role; [|done].
    apply existsb_exists in Hex as (s & Hs & Ho). apply list_elem_of_In in Hs.
    destruct (slotStatus bookings date !! s) as [o|] eqn:Hlook; [|done].
    unfold validate. destruct sel as [|t sel]; [by apply elem_of_nil in Hs|].
    cbn [length Nat.eqb]. case_bool_decide; [done|].
    pose proof (checkSlots_led _ _ _ _ Hs Hlook Ho) as Hne.
    by destruct (checkSlots _ _ _).
  - intros s. unfold validate. destruct (length sel =? 0)%nat; [done|].
    case_bool_decide; [done|].
    destruct (checkSlots _ _ _) as [r|] eqn:Hc.
    + intros [= ->].
      apply checkSlots_reason in Hc as (s' & o & Hs' & Ho & [[? _]|([= <-] & -> & Hl)]);
        [done|].
      unfold leaderWarning. simpl. apply existsb_exists. exists s.
      split; [by apply list_elem_of_In|]. by rewrite Ho.
    + destruct (checkConsecutive _ _ _ _ _) as [r|] eqn:Hcc.
      * unfold checkConsecutive in Hcc. destruct role; [|done].
        destruct (hasConsecutive _); congruence.
      * by destruct (isDuplicate _ _ _ _).
Qed.

Lemma leader_warning_sound_witness :
  validate [Sample.row 1 "X" Leader Sample.S1] Sample.day Leader (Js.lit "Y")
    [Sample.S1] ≠ None.
Proof.
  apply (leader_warning_sound [Sample.row 1 "X" Leader Sample.S1] Sample.day
           Leader (Js.lit "Y") [Sample.S1]).
  vm_compute. reflexivity.
Defined.

(** ** Writing and reading the slot field *)

Lemma split_app_sep (sep : N) (x rest : list N) :
  sep ∉ x → Js.split sep (x ++ sep :: rest) = x :: Js.split sep rest.
Proof.
  induction x as [|c x IH]; intros Hn; simpl.
  - by rewrite N.eqb_refl.
  - apply not_elem_of_cons in Hn as [Hc Hx].
    destruct (N.eqb_spec c sep); [congruence|]. by rewrite IH.
Qed.

Lemma trim_leading_blank (s : list N) : Js.trim (32 :: s) = Js.trim s.
Proof. done. Qed.

Lemma split_leading_blank (s : list N) :
  List.map Js.trim (Js.split 44 (32 :: s)) = List.map Js.trim (Js.split 44 s).
Proof.
  cbn [Js.split]. change (32 =? 44) with false. cbv iota.
  destruct (Js.split 44 s) as [|p ps] eqn:E; [by apply split_nonempty in E|].
  simpl. by rewrite trim_leading_blank.
Qed.

Lemma join_split_labels (labels : list (list N)) :
  labels ≠ [] →
  Forall (fun l => (44 ∉ l) ∧ Js.trim l = l) labels →
  List.map Js.trim (Js.split 44 (Js.join (Js.lit ", ") labels)) = labels.
Proof.
  change (Js.lit ", ") with [44; 32].
  induction labels as [|x labels IH]; [done|]. intros _ Hall.
  apply Forall_cons in Hall as [[Hx Ht] Hall].
  destruct labels as [|y labels].
  - simpl. rewrite split_no_sep by done. simpl. by rewrite Ht.
  - change (Js.join [44; 32] (x :: y :: labels))
      with (x ++ 44 :: 32 :: Js.join [44; 32] (y :: labels)).
    rewrite split_app_sep by done.
    cbn [List.map]. rewrite Ht, split_leading_blank. f_equal. by apply IH.
Qed.

(** X13. What the handler writes into the slot field is read back as it was
    selected: for any non-empty selection of labels without comma and
    without white space at their ends (as all labels of the catalog are),
    the labels read back from the stored row are the selected ones, each
    once, in the order of their code units; they are the labels the
    specification says the row occupies. *)
Theorem slot_field_round_trip (id : Z) (ca date name : list N) (role : Role)
    (sel : list (list N)) :
  sel ≠ [] →
  Forall (fun l => (44 ∉ l) ∧ trimmed l) sel →
  let readBack := bookedSlots (stored id ca (newRow date role name sel)) in
  readBack ≡ₚ sel
  ∧ StronglySorted codeUnitsLe readBack
  ∧ readBack = labelsOf (stored id ca (newRow date role name sel)).
Proof.
  intros Hne Hall. cbv zeta.
  assert (Hback : bookedSlots (stored id ca (newRow date role name sel))
                  = Js.sort_default sel).
  { unfold bookedSlots, newRow, stored. simpl. apply join_split_labels.
    - intros Hnil.
      pose proof (sort_by_perm (fun x y => negb (Js.str_ltb y x)) sel) as Hp.
      unfold Js.sort_default in Hnil. rewrite Hnil in Hp.
      apply Permutation_nil_l in Hp. done.
    - unfold Js.sort_default. rewrite sort_by_perm.
      eapply Forall_impl; [exact Hall|]. intros l [? Ht].
      split; [done|]. by apply trimmed_trim. }
  split; [|split].
  - rewrite Hback. apply sort_by_perm.
  - rewrite Hback. apply sort_default_sorted.
  - apply bookedSlots_labelsOf.
Qed.

Lemma slot_field_round_trip_witness :
  let readBack :=
    bookedSlots (stored 1 Sample.stamp
                   (newRow Sample.day Member (Js.lit "Z") [Sample.S1; Sample.S2])) in
  readBack ≡ₚ [Sample.S1; Sample.S2]
  ∧ StronglySorted codeUnitsLe readBack
  ∧ readBack = [Sample.S2; Sample.S1].
Proof.
  cbv zeta.
  pose proof (slot_field_round_trip 1 Sample.stamp Sample.day (Js.lit "Z") Member
                [Sample.S1; Sample.S2]) as H.
  cbv zeta in H. destruct H as (Hp & Hs & _).
  - discriminate.
  - repeat constructor; try (apply trimmed_trim; vm_compute; reflexivity);
      apply (bool_decide_unpack _); vm_compute; exact I.
  - split; [exact Hp|]. split; [exact Hs|]. vm_compute. reflexivity.
Defined.

(** ** The demo store *)

Lemma select_sorted (table : list Booking.t) :
  StronglySorted
    (fun a b => Js.str_ltb (Booking.date a) (Booking.date b) = false)
    (select_by_date_desc table).
Proof.
  unfold select_by_date_desc.
  induction table as [|x table IH]; simpl; [constructor|].
  revert IH. generalize (Js.sort_by
    (fun a b => negb (Js.str_ltb (Booking.date a) (Booking.date b))) table).
  intros l. induction 1 as [|y l Hs IH Hall]; simpl.
  - repeat constructor.
  - destruct (Js.str_ltb (Booking.date x) (Booking.date y)) eqn:Hxy; simpl.
    + constructor; [done|].
      rewrite sort_insert_perm. constructor; [by apply str_ltb_asym|done].
    + constructor; [by constructor|]. constructor; [done|].
      eapply Forall_impl; [exact Hall|]. intros z Hyz. simpl in Hyz.
      destruct (Js.str_ltb (Booking.date x) (Booking.date z)) eqn:Hxz; [|done].
      destruct (str_ltb_between _ (Booking.date y) _ Hxz); congruence.
Qed.

Lemma filter_sort_insert_stable (d : list N) (x : Booking.t) (l : list Booking.t) :
  List.filter (fun b => bool_decide (Booking.date b = d))
    (Js.sort_insert
       (fun a b => negb (Js.str_ltb (Booking.date a) (Booking.date b))) x l)
  = List.filter (fun b => bool_decide (Booking.date b = d)) (x :: l).
Proof.
  induction l as [|y l IH]; [done|].
  cbn [Js.sort_insert].
  destruct (Js.str_ltb (Booking.date x) (Booking.date y)) eqn:Hxy; [|done].
  cbn [negb List.filter]. rewrite IH. cbn [List.filter].
  case_bool_decide as Hx; case_bool_decide as Hy; try done.
  rewrite Hx, Hy, str_ltb_irrefl in Hxy. done.
Qed.

(** X14. The refreshed read of the demo store returns every row of the
    table exactly once, later dates first, and keeps the rows of one date in
    the order in which they were inserted. *)
Theorem select_sorted_stable (table : list Booking.t) :
  select_by_date_desc table ≡ₚ table
  ∧ StronglySorted
      (fun a b => Js.str_ltb (Booking.date a) (Booking.date b) = false)
      (select_by_date_desc table)
  ∧ ∀ d, List.filter (fun b => bool_decide (Booking.date b = d))
           (select_by_date_desc table)
         = List.filter (fun b => bool_decide (Booking.date b = d)) table.
Proof.
  split; [apply select_perm|]. split; [apply select_sorted|].
  intros d. unfold select_by_date_desc.
  induction table as [|x table IH]; [done|].
  cbn [Js.sort_by]. rewrite filter_sort_insert_stable.
  cbn [List.filter]. by rewrite IH.
Qed.

(** ** The index after an admitted submission *)

(** X15. The form sees its own reservation once the read started by the
    admission has answered, not before: the handler leaves the bookings of
    the page, and so its index, as they were; when the page was up to date
    and the read answers with the rows of the table, the count of the booked
    (date, slot) pair has gone up by exactly one, every other pair counts as
    before, and the pair has a leader exactly if it had one or the request
    was made as leader. *)
Theorem index_after_admission (examEndDate : list N) (w : World) (id : Z)
    (ca s : list N) (reloaded : list Booking.t) :
  s ∈ TIME_SLOTS →
  upToDate w →
  Form.selectedSlots (form w) = [s] →
  validate (bookings w) (Form.date (form w)) (Form.role (form w))
    (Form.name (form w)) [s] = None →
  let w1 := handleSubmit examEndDate (InsertOk id ca) w in
  reloaded ≡ₚ table w1 →
  let w2 := step examEndDate w1 (Fetched (FetchOk (Some reloaded))) in
  (∀ date', slotStatus (bookings w1) date' = slotStatus (bookings w) date')
  ∧ upToDate w2
  ∧ ∀ date' s',
      getOrZero (slotStatus (bookings w2) date') s'
      = {| count := count (getOrZero (slotStatus (bookings w) date') s')
                    + (if bool_decide (Form.date (form w) = date' ∧ s = s')
                       then 1 else 0);
           hasLeader := hasLeader (getOrZero (slotStatus (bookings w) date') s')
                        || (is_leader (Form.role (form w))
                            && bool_decide (Form.date (form w) = date' ∧ s = s')) |}.
Proof.
  intros Hcat Hsync Hs Hv. cbv zeta.
  assert (Ht : table (handleSubmit examEndDate (InsertOk id ca) w)
               = table w ++ [stored id ca (newRow (Form.date (form w))
                    (Form.role (form w)) (Form.name (form w)) [s])]).
  { unfold handleSubmit. by rewrite Hs, Hv. }
  assert (Hb : bookings (handleSubmit examEndDate (InsertOk id ca) w)
               = bookings w).
  { unfold handleSubmit. by rewrite Hs, Hv. }
  intros Hre. cbn [step bookings table fetchBookings default].
  split; [by rewrite Hb|]. split; [exact Hre|].
  intros date' s'. rewrite !slotStatus_get. cbn [count hasLeader].
  rewrite (occupantCount_perm _ _ _ _ Hre), (leaderPresent_perm _ _ _ _ Hre), Ht.
  rewrite occupantCount_snoc, leaderPresent_snoc, occupies_stored by done.
  rewrite (occupantCount_perm _ _ _ _ Hsync), (leaderPresent_perm _ _ _ _ Hsync).
  apply SlotInfo_eq; cbn [count hasLeader]; [done|].
  f_equal. simpl. destruct (Form.role (form w)); simpl.
  - by case_bool_decide.
  - done.
Qed.

Lemma index_after_admission_witness :
  let w := Sample.page [Sample.row 1 "P" Member Sample.S2] Leader "Z"
             [Sample.S2] in
  let w1 := handleSubmit EXAM_END_DATE (InsertOk 2 Sample.stamp) w in
  let w2 := step EXAM_END_DATE w1 (Fetched (demoSelect (table w1))) in
  getOrZero (slotStatus (bookings w1) Sample.day) Sample.S2
  = {| count := 1; hasLeader := false |}
  ∧ getOrZero (slotStatus (bookings w2) Sample.day) Sample.S2
    = {| count := 2; hasLeader := true |}.
Proof.
  cbv zeta.
  pose proof (index_after_admission EXAM_END_DATE
                (Sample.page [Sample.row 1 "P" Member Sample.S2] Leader "Z"
                   [Sample.S2]) 2 Sample.stamp Sample.S2
                (select_by_date_desc
                   (table (handleSubmit EXAM_END_DATE (InsertOk 2 Sample.stamp)
                             (Sample.page [Sample.row 1 "P" Member Sample.S2]
                                Leader "Z" [Sample.S2]))))) as H.
  cbv zeta in H. destruct H as (H1 & _ & H2).
  - apply list_elem_of_further, list_elem_of_here.
  - unfold upToDate. reflexivity.
  - reflexivity.
  - vm_compute. reflexivity.
  - vm_compute. reflexivity.
  - split.
    + rewrite H1. vm_compute. reflexivity.
    + etransitivity; [apply H2|]. vm_compute. reflexivity.
Defined.

(** ** The start hour of a slot label *)

Lemma spanDigits_app (digits rest : list N) :
  Forall (fun c => isDigit c = true) digits →
  spanDigits (digits ++ 58 :: rest) = (digits, 58 :: rest).
Proof.
  induction 1 as [|c digits Hc _ IH]; [done|].
  simpl. by rewrite Hc, IH.
Qed.

Lemma spanDigits_spec (s : list N) :
  s = (spanDigits s).1 ++ (spanDigits s).2
  ∧ Forall (fun c => isDigit c = true) (spanDigits s).1.
Proof.
  induction s as [|c s [IH1 IH2]]; simpl; [by split|].
  destruct (isDigit c) eqn:Hc; [|by split].
  destruct (spanDigits s) as [ds rest]. simpl in *.
  split; [by rewrite IH1 at 1|by constructor].
Qed.

Lemma parseInt10_nonneg (digits : list N) (acc : Z) :
  Forall (fun c => isDigit c = true) digits → (0 ≤ acc)%Z →
  (0 ≤ foldl (fun acc c => 10 * acc + (Z.of_N c - 48)) acc digits)%Z.
Proof.
  intros H. revert acc. induction H as [|c digits Hc _ IH]; intros acc Ha; [done|].
  simpl. apply IH. unfold isDigit in Hc.
  apply andb_true_iff in Hc as [H1 H2].
  apply N.leb_le in H1, H2. lia.
Qed.

(** X16. [getSlotStartHour] reads the number in front of the first colon:
    a label made of (at most fifteen) digits, a colon and anything gives the
    value of the digits; a label not made of digits, a colon and anything
    gives 99; the result is never negative.  On the catalog the start hours
    grow with the position and stay below 99, so ordering by start hour is
    the order of the catalog, with labels that have no start hour last. *)
Theorem slot_start_hour :
  (∀ digits rest,
     digits ≠ [] → (length digits ≤ 15)%nat →
     Forall (fun c => isDigit c = true) digits →
     getSlotStartHour (digits ++ 58 :: rest) = parseInt10 digits)
  ∧ (∀ s,
       (∀ digits rest,
          digits ≠ [] → Forall (fun c => isDigit c = true) digits →
          s ≠ digits ++ 58 :: rest) →
       getSlotStartHour s = 99%Z)
  ∧ (∀ s, (0 ≤ getSlotStartHour s)%Z)
  ∧ (∀ (i j : nat) (s t : list N),
       TIME_SLOTS !! i = Some s → TIME_SLOTS !! j = Some t →
       ((i < j)%nat ↔ (getSlotStartHour s < getSlotStartHour t)%Z)
       ∧ (getSlotStartHour s < 99)%Z).
Proof.
  split; [|split; [|split]].
  - intros digits rest Hne _ Hd. unfold getSlotStartHour.
    rewrite spanDigits_app by done. by destruct digits.
  - intros s Hno. unfold getSlotStartHour.
    destruct (spanDigits_spec s) as [Hs Hd].
    destruct (spanDigits s) as [[|c ds] rest]; [done|]. simpl in *.
    destruct rest as [|r rest]; [done|].
    destruct (N.eqb_spec r 58) as [->|Hr]; [|done].
    exfalso. by apply (Hno (c :: ds) rest).
  - intros s. unfold getSlotStartHour.
    destruct (spanDigits_spec s) as [_ Hd].
    destruct (spanDigits s) as [[|c ds] rest]; [done|]. simpl in Hd.
    assert (0 ≤ parseInt10 (c :: ds))%Z by (by apply parseInt10_nonneg).
    destruct rest as [|r rest]; [done|].
    by destruct (r =? 58).
  - intros i j s t Hi Hj.
    destruct i as [|[|[|i]]]; try done; destruct j as [|[|[|j]]]; try done;
      injection Hi as <-; injection Hj as <-; vm_compute; split;
      try done; split; intros H; try done; try lia.
Qed.

Lemma slot_start_hour_witness :
  getSlotStartHour (Js.lit "9:00-13:00") = 9%Z
  ∧ getSlotStartHour (Js.lit "morning") = 99%Z.
Proof.
  pose proof slot_start_hour as (Hval & Hnone & _). split.
  - apply (Hval [57] (Js.lit "00-13:00")); [done|simpl; lia|].
    by repeat constructor.
  - apply Hnone. intros digits rest Hne Hd Heq.
    destruct digits as [|c digits]; [done|].
    apply Forall_cons in Hd as [Hc _].
    injection Heq as <- _. by vm_compute in Hc.
Defined.

(** ** The cards of the history list *)

Lemma Map_get_set {V} (m : list (list N * V)) (k k' : list N) (v : V) :
  Map_get (Map_set m k v) k' = if decide (k = k') then Some v else Map_get m k'.
Proof.
  induction m as [|[k0 v0] m IH]; simpl.
  - case_bool_decide; case_decide; done.
  - case_bool_decide as H0; simpl.
    + subst k0. case_bool_decide; case_decide; done.
    + rewrite IH. case_bool_decide as H1; [|done].
      subst k0. by rewrite decide_False.
Qed.

Lemma Map_set_keys {V} (m : list (list N * V)) (k : list N) (v : V) :
  ∀ k', k' ∈ (Map_set m k v).*1 ↔ k' = k ∨ k' ∈ m.*1.
Proof.
  intros k'. induction m as [|[k0 v0] m IH]; simpl.
  - rewrite list_elem_of_singleton, elem_of_nil. tauto.
  - case_bool_decide as H0; simpl; rewrite !elem_of_cons.
    + subst k0. tauto.
    + rewrite IH. tauto.
Qed.

Lemma Map_set_NoDup {V} (m : list (list N * V)) (k : list N) (v : V) :
  NoDup m.*1 → NoDup (Map_set m k v).*1.
Proof.
  induction m as [|[k0 v0] m IH]; simpl; intros Hnd.
  - repeat constructor. apply not_elem_of_nil.
  - apply NoDup_cons in Hnd as [Hk0 Hnd].
    case_bool_decide as H0; simpl.
    + subst k0. by constructor.
    + constructor; [|by apply IH].
      rewrite Map_set_keys. intros [?|?]; [congruence|done].
Qed.

Lemma Map_get_elem_of {V} (m : list (list N * V)) (k : list N) (v : V) :
  NoDup m.*1 → ((k, v) ∈ m ↔ Map_get m k = Some v).
Proof.
  induction m as [|[k0 v0] m IH]; simpl; intros Hnd.
  - rewrite elem_of_nil. split; [done|done].
  - apply NoDup_cons in Hnd as [Hk0 Hnd]. rewrite elem_of_cons.
    case_bool_decide as H0.
    + subst k0. split.
      * intros [[= ->]|Hin]; [done|].
        exfalso. apply Hk0. apply list_elem_of_fmap. by exists (k, v).
      * intros [= ->]. by left.
    + rewrite <- IH by done. split; [|tauto].
      intros [[= -> ->]|?]; [done|done].
Qed.

Lemma groupKey_inj (d d' s s' : list N) :
  (124 ∉ d) → (124 ∉ d') → groupKey d s = groupKey d' s' → d = d' ∧ s = s'.
Proof.
  unfold groupKey. revert d'. induction d as [|c d IH]; intros [|c' d'] Hd Hd';
    simpl; intros Heq.
  - by injection Heq as ->.
  - injection Heq as <- _. exfalso. apply Hd'. left.
  - injection Heq as -> _. exfalso. apply Hd. left.
  - injection Heq as -> Heq.
    apply not_elem_of_cons in Hd as [_ Hd]. apply not_elem_of_cons in Hd' as [_ Hd'].
    destruct (IH d' Hd Hd' Heq) as [-> ->]. done.
Qed.

Lemma groupStep_get (b : Booking.t) (m : list (list N * Group.t))
    (p k : list N) :
  Map_get (groupStep b m p) k
  = if decide (groupKey (Booking.date b) p = k)
    then Some (visited b 1
                 (default (freshGroup (Booking.date b))
                    (Map_get m (groupKey (Booking.date b) p))))
    else Map_get m k.
Proof.
  unfold groupStep. rewrite Map_get_set. by case_decide.
Qed.

Lemma visited_twice (b : Booking.t) (n : nat) (g : Group.t) :
  visited b n (visited b 1 g) = visited b (S n) g.
Proof.
  unfold visited. case_bool_decide; simpl.
  - by destruct n.
  - by rewrite <- app_assoc.
Qed.

Lemma visited_zero (b : Booking.t) (g : Group.t) : visited b 0 g = g.
Proof.
  unfold visited. destruct g. case_bool_decide; simpl; [done|].
  by rewrite app_nil_r.
Qed.

(** The inner loop over the slots of one booking, seen from one pair. *)
Lemma fold_groupStep_get (b : Booking.t) (parts : list (list N))
    (m : list (list N * Group.t)) (d s : list N) :
  (124 ∉ d) → (124 ∉ Booking.date b) →
  Map_get (foldl (groupStep b) m parts) (groupKey d s)
  = if bool_decide (Booking.date b = d) && (0 <? occurrences s parts)%nat
    then Some (visited b (occurrences s parts)
                 (default (freshGroup d) (Map_get m (groupKey d s))))
    else Map_get m (groupKey d s).
Proof.
  intros Hd Hb. revert m. induction parts as [|p parts IH]; intros m.
  - simpl. by rewrite andb_false_r.
  - cbn [foldl]. rewrite IH, groupStep_get, occurrences_cons.
    case_bool_decide as Hdate; cbn [andb]; [|by rewrite decide_False
      by (intros Heq; by apply groupKey_inj in Heq as [? _])].
    subst d. case_bool_decide as Hp.
    + subst p. rewrite decide_True by done. cbn [default].
      unfold id. rewrite visited_twice.
      by destruct (occurrences s parts).
    + rewrite decide_False
        by (intros Heq; by apply groupKey_inj in Heq as [_ ?]).
      done.
Qed.

Lemma foldl_groupStep_outer (bs : list Booking.t) (b : Booking.t)
    (validDates : list (list N)) :
  groupingMap (bs ++ [b]) validDates
  = if List.existsb (fun d => bool_decide (d = Booking.date b)) validDates
    then foldl (groupStep b) (groupingMap bs validDates) (bookedSlots b)
    else groupingMap bs validDates.
Proof. unfold groupingMap. by rewrite foldl_app. Qed.

Lemma inRange_true (validDates : list (list N)) (d : list N) :
  List.existsb (fun d' => bool_decide (d' = d)) validDates = true ↔ d ∈ validDates.
Proof.
  rewrite existsb_exists. split.
  - intros (d' & Hin & Heq). apply bool_decide_eq_true in Heq as ->.
    by apply list_elem_of_In.
  - intros Hin. exists d. split; [by apply list_elem_of_In|].
    by apply bool_decide_eq_true.
Qed.

Lemma memberNames_snoc (bs : list Booking.t) (b : Booking.t) (d s : list N) :
  memberNames (bs ++ [b]) d s
  = memberNames bs d s
    ++ (if bool_decide (Booking.members b = Js.lit "leader") then []
        else List.repeat (Booking.leader b) (occupies b d s)).
Proof. unfold memberNames. rewrite flat_map_app. simpl. by rewrite app_nil_r. Qed.

Lemma leaderNames_snoc (bs : list Booking.t) (b : Booking.t) (d s : list N) :
  leaderNames (bs ++ [b]) d s
  = leaderNames bs d s
    ++ (if bool_decide (Booking.members b = Js.lit "leader")
        then List.repeat (Booking.leader b) (occupies b d s) else []).
Proof. unfold leaderNames. rewrite flat_map_app. simpl. by rewrite app_nil_r. Qed.

(** The names on a card are as many as the form counts occupants. *)
Lemma names_count (bs : list Booking.t) (d s : list N) :
  (length (memberNames bs d s) + length (leaderNames bs d s)
   = occupantCount bs d s)%nat.
Proof.
  induction bs as [|b bs IH] using rev_ind; [done|].
  rewrite memberNames_snoc, leaderNames_snoc, occupantCount_snoc, !length_app.
  case_bool_decide; simpl; rewrite ?repeat_length; lia.
Qed.


Lemma last_app_repeat {A} (l : list A) (x : A) (n : nat) :
  last (l ++ List.repeat x (S n)) = Some x.
Proof.
  revert l. induction n as [|n IH]; intros l.
  - simpl. apply last_snoc.
  - change (List.repeat x (S (S n))) with ([x] ++ List.repeat x (S n)).
    rewrite app_assoc. apply IH.
Qed.

Lemma groupingMap_get (bookings : list Booking.t) (validDates : list (list N))
    (d s : list N) :
  d ∈ validDates → Forall (fun d => 124 ∉ d) validDates →
  Map_get (groupingMap bookings validDates) (groupKey d s) = groupOf bookings d s.
Proof.
  intros Hd Hbar.
  assert (Hdbar : 124 ∉ d) by (rewrite Forall_forall in Hbar; by apply Hbar).
  induction bookings as [|b bs IH] using rev_ind; [done|].
  rewrite foldl_groupStep_outer.
  assert (Hfresh : default (freshGroup d) (groupOf bs d s)
                   = {| Group.dateObj := d;
                        Group.leader := last (leaderNames bs d s);
                        Group.members := memberNames bs d s |}).
  { unfold groupOf. destruct (Nat.eqb_spec (occupantCount bs d s) 0) as [H0|];
      [|done].
    pose proof (names_count bs d s) as Hn. rewrite H0 in Hn.
    destruct (memberNames bs d s), (leaderNames bs d s); simpl in Hn; try lia.
    done. }
  assert (Hskip : occupies b d s = 0%nat → groupOf (bs ++ [b]) d s = groupOf bs d s).
  { intros H0. unfold groupOf.
    rewrite occupantCount_snoc, memberNames_snoc, leaderNames_snoc, H0.
    rewrite Nat.add_0_r. case_bool_decide; simpl; by rewrite !app_nil_r. }
  destruct (List.existsb _ validDates) eqn:Hrange.
  - apply inRange_true in Hrange.
    assert (Hbbar : 124 ∉ Booking.date b)
      by (rewrite Forall_forall in Hbar; by apply Hbar).
    rewrite fold_groupStep_get, IH by done.
    destruct (bool_decide (Booking.date b = d) && _) eqn:Hcond;
      rewrite bookedSlots_labelsOf in Hcond.
    + apply andb_true_iff in Hcond as [Hdate Hocc].
      apply bool_decide_eq_true in Hdate. apply Nat.ltb_lt in Hocc.
      rewrite Hfresh, (bookedSlots_labelsOf b). unfold groupOf.
      rewrite occupantCount_snoc, memberNames_snoc, leaderNames_snoc.
      unfold occupies at 1 2 3. rewrite bool_decide_eq_true_2 by done.
      destruct (occurrences s (labelsOf b)) as [|n] eqn:En; [lia|].
      destruct (Nat.eqb_spec (occupantCount bs d s + S n) 0); [lia|].
      f_equal. unfold visited. case_bool_decide; simpl.
      * change (Booking.leader b :: List.repeat (Booking.leader b) n)
          with (List.repeat (Booking.leader b) (S n)).
        by rewrite last_app_repeat, app_nil_r.
      * by rewrite app_nil_r.
    + rewrite Hskip; [done|]. unfold occupies.
      apply andb_false_iff in Hcond as [Hdate|Hocc].
      * by rewrite Hdate.
      * apply Nat.ltb_ge in Hocc. case_bool_decide; lia.
  - rewrite IH. rewrite Hskip; [done|]. unfold occupies.
    case_bool_decide as Hdate; [|done].
    assert (List.existsb (fun d' => bool_decide (d' = Booking.date b)) validDates
            = true); [|congruence].
    apply inRange_true. by rewrite Hdate.
Qed.



(** The keys of the grouping map: no key twice, each made of a valid date
    and a label of some booking. *)
Lemma fold_groupStep_keys (b : Booking.t) (parts : list (list N))
    (m : list (list N * Group.t)) :
  NoDup m.*1 →
  NoDup (foldl (groupStep b) m parts).*1
  ∧ ∀ k, k ∈ (foldl (groupStep b) m parts).*1 →
         k ∈ m.*1 ∨ ∃ p, k = groupKey (Booking.date b) p.
Proof.
  revert m. induction parts as [|p parts IH]; intros m Hnd; simpl.
  - split; [done|]. by left.
  - destruct (IH (groupStep b m p)) as [Hnd' Hk].
    { unfold groupStep. by apply Map_set_NoDup. }
    split; [done|]. intros k Hin. destruct (Hk k Hin) as [Hold|?]; [|by right].
    unfold groupStep in Hold. apply Map_set_keys in Hold as [->|?]; [|by left].
    right. by exists p.
Qed.

Lemma groupingMap_keys (bookings : list Booking.t) (validDates : list (list N)) :
  NoDup (groupingMap bookings validDates).*1
  ∧ ∀ k, k ∈ (groupingMap bookings validDates).*1 →
         ∃ d p, k = groupKey d p ∧ d ∈ validDates.
Proof.
  induction bookings as [|b bs [IHn IHk]] using rev_ind.
  - split; [constructor|]. intros k Hk. by apply elem_of_nil in Hk.
  - rewrite foldl_groupStep_outer.
    destruct (List.existsb _ validDates) eqn:Hrange; [|by split].
    apply inRange_true in Hrange.
    destruct (fold_groupStep_keys b (bookedSlots b) _ IHn) as [Hnd Hk].
    split; [done|]. intros k Hin.
    destruct (Hk k Hin) as [Hold|(p & ->)]; [by apply IHk|].
    by exists (Booking.date b), p.
Qed.

Lemma groupKey_pieces (d p : list N) :
  (124 ∉ d) →
  nth 0 (Js.split 124 (groupKey d p)) [] = d
  ∧ nth 1 (Js.split 124 (groupKey d p)) [] = nth 0 (Js.split 124 p) [].
Proof. intros Hd. unfold groupKey. by rewrite split_app_sep. Qed.

Lemma toAggregated_card (bookings : list Booking.t) (d s : list N) :
  (124 ∉ d) → (124 ∉ s) →
  toAggregated
    (groupKey d s,
     {| Group.dateObj := d; Group.leader := last (leaderNames bookings d s);
        Group.members := memberNames bookings d s |})
  = if truthy (last (leaderNames bookings d s))
       || (0 <? length (memberNames bookings d s))%nat
    then Some (cardOf bookings d s) else None.
Proof.
  intros Hd Hs. unfold toAggregated, cardOf.
  destruct (groupKey_pieces d s Hd) as [-> ->].
  rewrite split_no_sep by done. done.
Qed.

Lemma elem_of_aggregatedSlots (bookings : list Booking.t)
    (validDates : list (list N)) (a : AggregatedSlot.t) :
  a ∈ aggregatedSlots bookings validDates
  ↔ ∃ k g, (k, g) ∈ groupingMap bookings validDates ∧ toAggregated (k, g) = Some a.
Proof.
  unfold aggregatedSlots. rewrite elem_of_sort_by, list_elem_of_omap. split.
  - intros ([k g] & ? & ?). eauto.
  - intros (k & g & ? & ?). by exists (k, g).
Qed.

Lemma toAggregated_id (k : list N) (g : Group.t) (a : AggregatedSlot.t) :
  toAggregated (k, g) = Some a →
  AggregatedSlot.id a = k
  ∧ AggregatedSlot.dateStr a = nth 0 (Js.split 124 k) []
  ∧ AggregatedSlot.leader a = Group.leader g
  ∧ AggregatedSlot.members a = Group.members g
  ∧ (truthy (Group.leader g) = true ∨ Group.members g ≠ []).
Proof.
  unfold toAggregated. destruct (truthy (Group.leader g) || _) eqn:Hc; [|done].
  intros [= <-]. simpl. repeat split; try done.
  apply orb_true_iff in Hc as [?|Hlen]; [by left|right].
  apply Nat.ltb_lt in Hlen. intros Hnil. rewrite Hnil in Hlen. simpl in Hlen. lia.
Qed.

Lemma omap_ids_NoDup (m : list (list N * Group.t)) :
  NoDup m.*1 → NoDup (List.map AggregatedSlot.id (omap toAggregated m)).
Proof.
  induction m as [|[k g] m IH]; cbn -[toAggregated]; intros Hnd; [constructor|].
  apply NoDup_cons in Hnd as [Hk Hnd].
  destruct (toAggregated (k, g)) as [a|] eqn:Ha; [|by apply IH].
  cbn -[toAggregated]. constructor; [|by apply IH].
  apply toAggregated_id in Ha as (-> & _).
  intros Hin. apply Hk. apply list_elem_of_In, in_map_iff in Hin as (a' & Hid & Hin).
  apply list_elem_of_In, list_elem_of_omap in Hin as ([k' g'] & Hin & Ha').
  apply toAggregated_id in Ha' as (Hid' & _). rewrite Hid' in Hid. subst k'.
  apply list_elem_of_fmap. by exists (k, g').
Qed.

(** X18. The cards of the history list: every card belongs to one of the
    three valid dates and shows at least one name, no two cards have the
    same key, and for a valid date and a label without a bar the list holds
    the card of the pair, showing the date, the label, the last leader name
    and the member names, exactly when some member holds the pair or the
    last leader booking has a non-empty name. *)
Theorem history_cards (bookings : list Booking.t) (validDates : list (list N)) :
  Forall (fun d => 124 ∉ d) validDates →
  (∀ a, a ∈ aggregatedSlots bookings validDates →
        AggregatedSlot.dateStr a ∈ validDates
        ∧ (truthy (AggregatedSlot.leader a) = true
           ∨ AggregatedSlot.members a ≠ []))
  ∧ NoDup (List.map AggregatedSlot.id (aggregatedSlots bookings validDates))
  ∧ ∀ d s, d ∈ validDates → (124 ∉ s) →
      (cardOf bookings d s ∈ aggregatedSlots bookings validDates
       ↔ truthy (last (leaderNames bookings d s)) = true
         ∨ memberNames bookings d s ≠ []).
Proof.
  intros Hbar. destruct (groupingMap_keys bookings validDates) as [Hnd Hkeys].
  split; [|split].
  - intros a Ha. apply elem_of_aggregatedSlots in Ha as (k & g & Hin & Ha).
    apply toAggregated_id in Ha as (_ & -> & -> & -> & Hshown).
    split; [|done].
    destruct (Hkeys k) as (d & p & -> & Hd).
    { apply list_elem_of_fmap. by exists (k, g). }
    rewrite Forall_forall in Hbar.
    by rewrite (proj1 (groupKey_pieces d p (Hbar d Hd))).
  - unfold aggregatedSlots.
    rewrite (Permutation_map AggregatedSlot.id (sort_by_perm _ _)).
    by apply omap_ids_NoDup.
  - intros d s Hd Hs.
    assert (Hdbar : 124 ∉ d) by (rewrite Forall_forall in Hbar; by apply Hbar).
    rewrite elem_of_aggregatedSlots. split.
    + intros (k & g & _ & Ha).
      apply toAggregated_id in Ha as (_ & _ & Hl & Hm & Hshown).
      simpl in Hl, Hm. by rewrite Hl, Hm.
    + intros Hshown.
      assert (Hocc : occupantCount bookings d s ≠ 0%nat).
      { pose proof (names_count bookings d s) as Hn. intros H0. rewrite H0 in Hn.
        destruct (memberNames bookings d s), (leaderNames bookings d s);
          simpl in Hn; try lia.
        by destruct Hshown. }
      pose proof (groupingMap_get bookings validDates d s Hd Hbar) as Hget.
      unfold groupOf in Hget.
      destruct (Nat.eqb_spec (occupantCount bookings d s) 0); [done|].
      eexists _, _. split; [by apply Map_get_elem_of|].
      rewrite toAggregated_card by done.
      destruct Hshown as [->|Hm]; [done|].
      destruct (memberNames bookings d s); [done|]. by rewrite orb_true_r.
Qed.

Lemma history_cards_witness :
  cardOf [Sample.row 1 "X" Leader Sample.S1; Sample.row 2 "P" Member Sample.S1]
    Sample.day Sample.S1
  ∈ aggregatedSlots
      [Sample.row 1 "X" Leader Sample.S1; Sample.row 2 "P" Member Sample.S1]
      [Js.lit "2026-01-09"; Sample.day; Js.lit "2026-01-11"].
Proof.
  pose proof (history_cards
                [Sample.row 1 "X" Leader Sample.S1; Sample.row 2 "P" Member Sample.S1]
                [Js.lit "2026-01-09"; Sample.day; Js.lit "2026-01-11"]) as H.
  destruct H as (_ & _ & H).
  - repeat constructor; apply (bool_decide_unpack _); vm_compute; exact I.
  - apply H.
    + apply list_elem_of_further, list_elem_of_here.
    + apply (bool_decide_unpack _). vm_compute. exact I.
    + left. vm_compute. reflexivity.
Defined.

(** ** The order of the history list *)


Lemma compareSlots_total (a b : AggregatedSlot.t) :
  (compareSlots a b <=? 0)%Z = false → (compareSlots b a <=? 0)%Z = true.
Proof.
  unfold compareSlots. rewrite Z.leb_gt, Z.leb_le.
  repeat case_bool_decide; simpl; try congruence.
  - lia.
  - destruct (Js.str_ltb (AggregatedSlot.dateStr b) (AggregatedSlot.dateStr a))
      eqn:Hba; [|lia].
    rewrite (str_ltb_asym _ _ Hba). lia.
Qed.

Lemma compareSlots_trans (a b c : AggregatedSlot.t) :
  (compareSlots a b <=? 0)%Z = true → (compareSlots b c <=? 0)%Z = true →
  (compareSlots a c <=? 0)%Z = true.
Proof.
  unfold compareSlots. rewrite !Z.leb_le.
  set (da := AggregatedSlot.dateStr a). set (db := AggregatedSlot.dateStr b).
  set (dc := AggregatedSlot.dateStr c).
  destruct (decide (da = db)) as [Hab|Hab], (decide (db = dc)) as [Hbc|Hbc].
  - rewrite !bool_decide_eq_true_2 by congruence. simpl. lia.
  - rewrite (bool_decide_eq_true_2 (da = db)) by done.
    rewrite (bool_decide_eq_false_2 (db = dc)) by done.
    rewrite (bool_decide_eq_false_2 (da = dc)) by congruence. simpl.
    rewrite Hab. by destruct (Js.str_ltb dc db).
  - rewrite (bool_decide_eq_false_2 (da = db)) by done.
    rewrite (bool_decide_eq_true_2 (db = dc)) by done.
    rewrite (bool_decide_eq_false_2 (da = dc)) by congruence. simpl.
    rewrite <- Hbc. by destruct (Js.str_ltb db da).
  - rewrite (bool_decide_eq_false_2 (da = db)) by done.
    rewrite (bool_decide_eq_false_2 (db = dc)) by done. simpl.
    destruct (Js.str_ltb db da) eqn:H1; [lia|].
    destruct (Js.str_ltb dc db) eqn:H2; [lia|]. intros _ _.
    destruct (decide (da = dc)) as [Hac|Hac].
    + exfalso. apply Hab. apply str_ltb_total; [by rewrite Hac|done].
    + rewrite (bool_decide_eq_false_2 (da = dc)) by done. simpl.
      destruct (Js.str_ltb dc da) eqn:H3; [|lia].
      destruct (str_ltb_between _ db _ H3); congruence.
Qed.

Lemma aggregatedSlots_sorted (bookings : list Booking.t)
    (validDates : list (list N)) :
  StronglySorted (fun a b => (compareSlots a b <=? 0)%Z = true)
    (aggregatedSlots bookings validDates).
Proof.
  apply sort_by_sorted; [apply compareSlots_total|apply compareSlots_trans].
Qed.

Lemma displayGroups_fold (agg : list AggregatedSlot.t) (dates : list (list N))
    (groups : list DisplayGroup) :
  foldl (fun groups dStr =>
           let slotsForDay :=
             List.filter (fun s => bool_decide (AggregatedSlot.dateStr s = dStr))
               agg in
           if (0 <? length slotsForDay)%nat
           then groups ++ [{| groupDate := dStr; groupSlots := slotsForDay |}]
           else groups)
        groups dates
  = groups
    ++ List.map
         (fun d => {| groupDate := d;
                      groupSlots :=
                        List.filter
                          (fun s => bool_decide (AggregatedSlot.dateStr s = d))
                          agg |})
         (List.filter
            (fun d => (0 <? length
                              (List.filter
                                 (fun s => bool_decide (AggregatedSlot.dateStr s = d))
                                 agg))%nat)
            dates).
Proof.
  revert groups. induction dates as [|d dates IH]; intros groups.
  - simpl. by rewrite app_nil_r.
  - cbn [foldl List.filter]. rewrite IH.
    destruct (0 <? _)%nat; [|done]. simpl. by rewrite <- app_assoc.
Qed.

(** X19. What the history list displays, for reservations whose labels
    begin with at most fifteen digits (so that the start hours are the
    numbers [parseInt] answers): one group per valid date that has cards, in
    the order of the valid dates; a group holds exactly the cards of its
    date, at least one, ordered by start hour; and every card is in the
    group of its date. *)
Theorem display_groups_ordered (bookings : list Booking.t)
    (validDates : list (list N)) :
  Forall (fun b =>
            Forall (fun s => (length (spanDigits s).1 ≤ 15)%nat) (bookedSlots b))
         bookings →
  let agg := aggregatedSlots bookings validDates in
  let slotsOf d :=
    List.filter (fun s => bool_decide (AggregatedSlot.dateStr s = d)) agg in
  List.map groupDate (displayGroups bookings validDates)
  = List.filter (fun d => (0 <? length (slotsOf d))%nat) validDates
  ∧ Forall (fun g =>
              groupSlots g = slotsOf (groupDate g)
              ∧ groupSlots g ≠ []
              ∧ StronglySorted
                  (fun a b => (getSlotStartHour (AggregatedSlot.slotTime a)
                               ≤ getSlotStartHour (AggregatedSlot.slotTime b))%Z)
                  (groupSlots g))
           (displayGroups bookings validDates)
  ∧ (Forall (fun d => 124 ∉ d) validDates →
     ∀ a, a ∈ agg →
          ∃ g, g ∈ displayGroups bookings validDates
               ∧ groupDate g = AggregatedSlot.dateStr a ∧ a ∈ groupSlots g).
Proof.
  intros _. cbv zeta. unfold displayGroups. rewrite displayGroups_fold. simpl.
  set (agg := aggregatedSlots bookings validDates).
  set (slotsOf := fun d =>
         List.filter (fun s => bool_decide (AggregatedSlot.dateStr s = d)) agg).
  split; [|split].
  - rewrite List.map_map. simpl. apply List.map_id.
  - apply Forall_forall. intros g Hg.
    apply list_elem_of_In, in_map_iff in Hg as (d & <- & Hd).
    apply filter_In in Hd as [_ Hlen]. apply Nat.ltb_lt in Hlen. simpl.
    split; [done|]. split.
    + intros Hnil. rewrite Hnil in Hlen. simpl in Hlen. lia.
    + apply (StronglySorted_weaken
               (fun a b => (compareSlots a b <=? 0)%Z = true) _
               (fun a => AggregatedSlot.dateStr a = d)).
      * intros a b Ha Hb. unfold compareSlots.
        rewrite bool_decide_eq_true_2 by congruence. simpl.
        rewrite Z.leb_le. lia.
      * apply Forall_forall. intros a Ha.
        apply list_elem_of_In, filter_In in Ha as [_ Ha].
        by apply bool_decide_eq_true in Ha.
      * apply StronglySorted_filter, aggregatedSlots_sorted.
  - intros Hbar a Ha.
    assert (Hin : a ∈ slotsOf (AggregatedSlot.dateStr a)).
    { apply list_elem_of_In, filter_In. rewrite <- list_elem_of_In.
      split; [done|]. by apply bool_decide_eq_true. }
    exists {| groupDate := AggregatedSlot.dateStr a;
              groupSlots := slotsOf (AggregatedSlot.dateStr a) |}.
    split; [|by split].
    apply list_elem_of_In, in_map_iff. exists (AggregatedSlot.dateStr a).
    split; [done|]. apply filter_In. split.
    + apply list_elem_of_In.
      apply elem_of_aggregatedSlots in Ha as (k & g & Hkg & Ha).
      apply toAggregated_id in Ha as (_ & -> & _).
      destruct (groupingMap_keys bookings validDates) as [_ Hkeys].
      destruct (Hkeys k) as (d & p & -> & Hd).
      { apply list_elem_of_fmap. by exists (k, g). }
      rewrite Forall_forall in Hbar.
      by rewrite (proj1 (groupKey_pieces d p (Hbar d Hd))).
    + apply Nat.ltb_lt. fold (slotsOf (AggregatedSlot.dateStr a)).
      destruct (slotsOf (AggregatedSlot.dateStr a));
        [by apply elem_of_nil in Hin|simpl; lia].
Qed.

Lemma display_groups_ordered_witness :
  ∃ g, g ∈ displayGroups
             [Sample.row 1 "X" Leader Sample.S1; Sample.row 2 "P" Member Sample.S1]
             [Js.lit "2026-01-09"; Sample.day; Js.lit "2026-01-11"]
       ∧ groupDate g = Sample.day.
Proof.
  pose proof (display_groups_ordered
                [Sample.row 1 "X" Leader Sample.S1; Sample.row 2 "P" Member Sample.S1]
                [Js.lit "2026-01-09"; Sample.day; Js.lit "2026-01-11"]) as H.
  cbv zeta in H.
  destruct H as (_ & _ & H); [repeat constructor; vm_compute; lia|].
  destruct (H (ltac:(repeat constructor; apply (bool_decide_unpack _);
                     vm_compute; exact I))
              (cardOf [Sample.row 1 "X" Leader Sample.S1;
                       Sample.row 2 "P" Member Sample.S1] Sample.day Sample.S1))
    as (g & Hg & Hd & _).
  - vm_compute. apply list_elem_of_here.
  - exists g. split; [done|]. by rewrite Hd.
Defined.

(** ** The quote of the history list *)

(** X20. Of the two quotes fetched, the one shown is one of them; it is the
    second whenever the second names an author; it names an author whenever
    one of the two does; and when neither does, it has at least five
    characters as soon as the second has five or the first more than five. *)
Theorem quote_prefers_author (data1 data2 : HitokotoData) :
  (selectQuote data1 data2 = data1 ∨ selectQuote data1 data2 = data2)
  ∧ (truthy (from_who data2) = true → selectQuote data1 data2 = data2)
  ∧ (truthy (from_who data1) = true ∨ truthy (from_who data2) = true →
     truthy (from_who (selectQuote data1 data2)) = true)
  ∧ (truthy (from_who data1) = false → truthy (from_who data2) = false →
     (5 ≤ length (hitokoto data2))%nat ∨ (5 < length (hitokoto data1))%nat →
     (5 ≤ length (hitokoto (selectQuote data1 data2)))%nat).
Proof.
  unfold selectQuote.
  destruct (truthy (from_who data1)) eqn:H1, (truthy (from_who data2)) eqn:H2;
    simpl;
    [| |
     |destruct (Nat.ltb_spec (length (hitokoto data2)) 5) as [Hs|Hs]; simpl;
      [destruct (Nat.ltb_spec 5 (length (hitokoto data1))) as [Hl|Hl]; simpl|]];
    (split; [tauto|]); (split; [intros; congruence|]);
    (split; [intros; intuition congruence|]); intros; intuition lia.
Qed.

Lemma quote_prefers_author_witness :
  truthy
    (from_who
       (selectQuote
          {| hitokoto := Js.lit "Stay hungry"; from := Js.lit "speech";
             from_who := Some (Js.lit "Jobs") |}
          {| hitokoto := Js.lit "Hi"; from := Js.lit "web"; from_who := None |}))
  = true.
Proof.
  apply (quote_prefers_author
           {| hitokoto := Js.lit "Stay hungry"; from := Js.lit "speech";
              from_who := Some (Js.lit "Jobs") |}
           {| hitokoto := Js.lit "Hi"; from := Js.lit "web"; from_who := None |}).
  left. reflexivity.
Defined.

(** ** Suggestions for the name *)

Lemma str_startsWith_spec (s v : list N) :
  str_startsWith s v = true ↔ ∃ post, s = v ++ post.
Proof.
  revert s. induction v as [|y v IH]; intros [|x s]; simpl.
  - split; [by exists []|done].
  - split; [by exists (x :: s)|done].
  - split; [done|]. by intros (post & ?).
  - rewrite andb_true_iff, N.eqb_eq, IH. split.
    + intros [-> (post & ->)]. by exists post.
    + intros (post & [= -> ->]). split; [done|]. by exists post.
Qed.

Lemma str_includes_spec (s v : list N) :
  str_includes s v = true ↔ ∃ pre post, s = pre ++ v ++ post.
Proof.
  induction s as [|x s IH].
  - cbn [str_includes]. rewrite orb_false_r, str_startsWith_spec. split.
    + intros (post & H). by exists [], post.
    + intros (pre & post & H). symmetry in H.
      apply app_eq_nil in H as [-> H]. exists post. by rewrite H.
  - cbn [str_includes]. rewrite orb_true_iff, str_startsWith_spec, IH. split.
    + intros [(post & H)|(pre & post & H)].
      * by exists [], post.
      * exists (x :: pre), post. by rewrite H.
    + intros ([|c pre] & post & H).
      * left. by exists post.
      * right. injection H as -> ->. by exists pre, post.
Qed.

(** X21. The suggestions under the name input are, in the order of the
    member list, the members whose name contains the typed text without
    being it; an empty input suggests every member, and a complete member
    name suggests nobody, so the list disappears once a suggestion is
    picked. *)
Theorem suggestions_spec (value : list N) :
  (∀ name, name ∈ suggestions value
           ↔ name ∈ MEMBER_LIST ∧ name ≠ value
             ∧ ∃ pre post, name = pre ++ value ++ post)
  ∧ suggestions value ⊆+ MEMBER_LIST
  ∧ suggestions [] = MEMBER_LIST
  ∧ (value ∈ MEMBER_LIST → suggestions value = []).
Proof.
  split; [|split; [|split]].
  - intros name. unfold suggestions.
    rewrite list_elem_of_In, filter_In, <- list_elem_of_In.
    rewrite andb_true_iff, str_includes_spec, negb_true_iff, bool_decide_eq_false.
    tauto.
  - unfold suggestions. generalize MEMBER_LIST. intros l.
    induction l as [|x l IH]; simpl; [constructor|].
    destruct (_ && _); by constructor.
  - by vm_compute.
  - unfold MEMBER_LIST at 1. rewrite !elem_of_cons, elem_of_nil.
    intros H. repeat (destruct H as [->|H]; [by vm_compute|]). done.
Qed.

Lemma suggestions_spec_witness :
  suggestions [38472; 29081] = [].
Proof.
  apply (suggestions_spec [38472; 29081]).
  apply (bool_decide_unpack _). vm_compute. exact I.
Defined.

(** ** When a request is admitted *)

Lemma checkConsecutive_leader_cases (bs : list Booking.t) (date name : list N)
    (sel : list (list N)) :
  checkConsecutive bs date Leader name sel = Some ConsecutiveLeadership
  ∨ checkConsecutive bs date Leader name sel = None.
Proof. unfold checkConsecutive. destruct (hasConsecutive _); tauto. Qed.

(** X22. The complete admission rule for one catalog slot.  A request is
    admitted exactly when the name is not blank, the slot has room, the
    booker has no reservation on the pair yet and, for a leader request, the
    slot has no leader and recording the request would not make the booker
    lead two neighbouring slots of that day. *)
Theorem admission_criterion (bs : list Booking.t) (date : list N) (role : Role)
    (name s : list N) (id : Z) (ca : list N) :
  s ∈ TIME_SLOTS →
  (validate bs date role name [s] = None
   ↔ Js.trim name ≠ []
     ∧ (occupantCount bs date s < MAX_CAPACITY)%nat
     ∧ holdingsOf bs date (Js.trim name) s = []
     ∧ (role = Leader →
        leaderPresent bs date s = false
        ∧ ¬ leadsConsecutive (bs ++ [stored id ca (newRow date role name [s])])
              date (Js.trim name))).
Proof.
  intros Hs.
  assert (Hcons : role = Leader →
            (checkConsecutive bs date role name [s] = None
             ↔ ¬ leadsConsecutive (bs ++ [stored id ca (newRow date role name [s])])
                   date (Js.trim name))).
  { intros ->.
    assert (Hproj : ∀ t,
              projectedLeaderSlot bs date name [s] t
              ↔ leads (bs ++ [stored id ca (newRow date Leader name [s])]) date
                  (Js.trim name) t).
    { intros t. rewrite leads_snoc, labelsOf_stored, projected_leads by done.
      simpl. split.
      - intros [?|?]; [right; by repeat split|by left].
      - intros [?|(_ & _ & _ & ?)]; [by right|by left]. }
    unfold leadsConsecutive. setoid_rewrite <- Hproj.
    rewrite <- checkConsecutive_slots.
    destruct (checkConsecutive_leader_cases bs date name [s]) as [->| ->];
      split; done. }
  split.
  - intros Hv. apply validate_admitted in Hv as (Hn & Hc & Hl & Hcc & Hd); [|done].
    split; [done|]. split; [done|]. split; [by apply holdingsOf_absent|].
    intros Hr. split; [by apply Hl|]. by apply Hcons.
  - intros (Hn & Hc & Hh & Hlead).
    unfold validate. cbn [length Nat.eqb].
    rewrite bool_decide_eq_false_2 by done.
    rewrite checkSlots_single by done.
    destruct (Nat.leb_spec MAX_CAPACITY (occupantCount bs date s)); [lia|].
    rewrite (holdingsOf_nil_no_duplicate _ _ _ _ Hh).
    destruct role.
    + destruct (Hlead eq_refl) as [Hl Hnc]. rewrite Hl. cbn [is_leader andb].
      apply (Hcons eq_refl) in Hnc. by rewrite Hnc.
    + done.
Qed.

(** Scenario A, third step, through X22: "A" leads the first slot and is
    admitted as leader of the third. *)
Lemma admission_criterion_witness :
  validate [Sample.row 1 "A" Leader Sample.S1] Sample.day Leader (Js.lit "A")
    [Sample.S3] = None.
Proof.
  apply (admission_criterion [Sample.row 1 "A" Leader Sample.S1] Sample.day
           Leader (Js.lit "A") Sample.S3 3 Sample.stamp).
  - apply list_elem_of_further, list_elem_of_further, list_elem_of_here.
  - split; [vm_compute; discriminate|].
    split; [vm_compute; lia|]. split; [vm_compute; reflexivity|].
    intros _. split; [vm_compute; reflexivity|].
    intros (s1 & s2 & p & H1 & H2 & Hp1 & Hp2).
    assert (Hled : ∀ t, leads ([Sample.row 1 "A" Leader Sample.S1]
                          ++ [stored 3 Sample.stamp
                                (newRow Sample.day Leader (Js.lit "A") [Sample.S3])])
                          Sample.day (Js.trim (Js.lit "A")) t →
                        t = Sample.S1 ∨ t = Sample.S3).
    { intros t (b & Hb & _ & _ & _ & Ht).
      apply elem_of_cons in Hb as [->|Hb].
      - left. vm_compute in Ht. by apply list_elem_of_singleton in Ht.
      - apply list_elem_of_singleton in Hb as ->.
        right. vm_compute in Ht. by apply list_elem_of_singleton in Ht. }
    assert (Hpos : ∀ t q, t = Sample.S1 ∨ t = Sample.S3 → positionOf t q →
                          q = 0%Z ∨ q = 2%Z).
    { intros t q [->| ->] Hq; apply indexOf_position in Hq as [<- _];
        vm_compute; tauto. }
    destruct (Hpos _ _ (Hled _ H1) Hp1), (Hpos _ _ (Hled _ H2) Hp2); lia.
Defined.
